(** * Page grouping and group worker pool of PDFGenerate.js

    A shallow embedding of [pdfGenerate] (rendering, heading detection,
    grouping of consecutive pages, the worker pool over the groups, the
    merge step) and of [outputMerge], with the properties of the
    orchestration contract stated and proved over it. *)

From Equations Require Import Equations.
From stdpp Require Import base list strings sorting.

Set Default Proof Using "Type".

(** ** JavaScript strings

    A JavaScript string is a sequence of UTF-16 code units; [null] and
    [undefined] are [None] of [option (list N)]. *)
Module Js.

Local Open Scope N_scope.

Abbreviation jsstring := (list N) (only parsing).

(** A string literal of the source, as code units. *)
Definition str (s : string) : jsstring :=
  map Ascii.N_of_ascii (String.list_ascii_of_string s).

(** Truthiness of a [string | null] value: only [null] and the empty
    string are falsy. *)
Definition truthy (v : option jsstring) : bool :=
  match v with
  | Some (_ :: _) => true
  | _ => false
  end.

(** [a || b] on [string | null] values. *)
Definition orElse (a b : option jsstring) : option jsstring :=
  if truthy a then a else b.

(** [a && f a] where [f] yields a string: the falsy [a] itself, or [f a]. *)
Definition and_then (a : option jsstring) (f : jsstring -> jsstring)
  : option jsstring :=
  match a with
  | Some (c :: r) => Some (f (c :: r))
  | other => other
  end.

Definition SPACE : N := 32.

(** The character class [[a-z0-9]]. *)
Definition isLowerAlnum (c : N) : bool :=
  ((97 <=? c) && (c <=? 122)) || ((48 <=? c) && (c <=? 57)).

(** The character class [[^a-z0-9]]. *)
Definition notLowerAlnum (c : N) : bool := negb (isLowerAlnum c).

(** The character class [\s], which is also what [trim] strips:
    WhiteSpace and LineTerminator of ECMAScript. *)
Definition isWhiteSpace (c : N) : bool :=
  ((9 <=? c) && (c <=? 13)) || (c =? 32) || (c =? 160) || (c =? 5760)
  || ((8192 <=? c) && (c <=? 8202)) || (c =? 8232) || (c =? 8233)
  || (c =? 8239) || (c =? 8287) || (c =? 12288) || (c =? 65279).

(** [String.prototype.toLowerCase], unit by unit. It is exact on ASCII
    and on the two units outside ASCII whose lower-case form has an ASCII
    letter in it: U+212A KELVIN SIGN gives [k], U+0130 gives [i] followed
    by U+0307. Every other unit is kept as it is; its lower-case form is
    made of non-ASCII units, and the callers only tell ASCII units from
    the rest: [normalizeRoomName] replaces a run of non-ASCII units by one
    space whatever they are, [outputMerge] compares with ASCII
    extensions. *)
Definition lowerUnit (c : N) : jsstring :=
  if (65 <=? c) && (c <=? 90) then [c + 32]
  else if c =? 8490 then [107]
  else if c =? 304 then [105; 775]
  else [c].

Definition toLowerCase (s : jsstring) : jsstring := flat_map lowerUnit s.

(** [String.prototype.toUpperCase] on ASCII; its only use is on the
    first letter of a word of a normalized name, whose units are in
    [[a-z0-9]]. *)
Definition upperUnit (c : N) : N :=
  if (97 <=? c) && (c <=? 122) then c - 32 else c.

(** [s.replace(/C+/g, " ")] for a character class [C]: the scan goes left
    to right, [inRun] says that the previous unit was in [C] and that the
    space for its run is already written. *)
Fixpoint replaceRunsFrom (C : N -> bool) (inRun : bool) (s : jsstring)
  : jsstring :=
  match s with
  | [] => []
  | c :: r =>
      if C c then
        if inRun then replaceRunsFrom C true r
        else SPACE :: replaceRunsFrom C true r
      else c :: replaceRunsFrom C false r
  end.

Definition replaceRuns (C : N -> bool) (s : jsstring) : jsstring :=
  replaceRunsFrom C false s.

Fixpoint trimStart (s : jsstring) : jsstring :=
  match s with
  | [] => []
  | c :: r => if isWhiteSpace c then trimStart r else c :: r
  end.

Fixpoint trimEnd (s : jsstring) : jsstring :=
  match s with
  | [] => []
  | c :: r =>
      match trimEnd r with
      | [] => if isWhiteSpace c then [] else [c]
      | r' => c :: r'
      end
  end.

(** [String.prototype.trim]. *)
Definition trim (s : jsstring) : jsstring := trimEnd (trimStart s).

(** [s.split(" ")]: the pieces between single spaces, empty pieces kept;
    [cur] is the piece being read. *)
Fixpoint splitFrom (cur : jsstring) (s : jsstring) : list jsstring :=
  match s with
  | [] => [cur]
  | c :: r =>
      if c =? SPACE then cur :: splitFrom [] r
      else splitFrom (cur ++ [c]) r
  end.

Definition splitSpace (s : jsstring) : list jsstring := splitFrom [] s.

(** [parts.join(" ")]. *)
Definition joinSpace (parts : list jsstring) : jsstring :=
  match parts with
  | [] => []
  | p :: r => p ++ flat_map (fun q => SPACE :: q) r
  end.

End Js.

Import Js.

(** ** normalizeRoomName *)

(** [function normalizeRoomName(name)]: [null] for a falsy name, else the
    chain [toLowerCase().replace(/[^a-z0-9]+/g, " ").replace(/\s+/g, " ")
    .trim()]. *)
Definition normalizeRoomName (name : option jsstring) : option jsstring :=
  if truthy name then
    match name with
    | Some s =>
        Some (trim (replaceRuns isWhiteSpace
                      (replaceRuns notLowerAlnum (toLowerCase s))))
    | None => None
    end
  else None.

(** The normal form in the words of the specification: a run of units
    outside [[a-z0-9]] gives one space, written where the run ends. *)
Fixpoint collapseRuns (s : jsstring) : jsstring :=
  match s with
  | [] => []
  | c :: r =>
      if isLowerAlnum c then c :: collapseRuns r
      else
        match r with
        | [] => [SPACE]
        | c' :: _ => if isLowerAlnum c' then SPACE :: collapseRuns r
                     else collapseRuns r
        end
  end.

(** Lower-case, collapse the runs, trim. *)
Definition canonicalName (s : jsstring) : jsstring :=
  trim (collapseRuns (toLowerCase s)).

(** The shape of a string of words of [[a-z0-9]] with single spaces
    between units; [afterSpace] forbids a space at the first place. *)
Fixpoint spaced (afterSpace : bool) (t : jsstring) : bool :=
  match t with
  | [] => true
  | c :: r =>
      if (c =? SPACE)%N then negb afterSpace && spaced true r
      else isLowerAlnum c && spaced false r
  end.

(** ** Data model *)

Abbreviation Path := (list N) (only parsing).

(** A JavaScript [Error] object; [String(error)] follows
    [Error.prototype.toString]. *)
Module Error.
Record t := mk { name : jsstring; message : jsstring }.

Definition toString (e : t) : jsstring :=
  match name e, message e with
  | [], m => m
  | n, [] => n
  | n, m => n ++ str ": " ++ m
  end.
End Error.

(** The outcome of an [await]ed call: a value, or the error it rejected
    with. *)
Inductive Result (A : Type) : Type :=
| Ok (a : A)
| Err (e : Error.t).
Arguments Ok {A} a.
Arguments Err {A} e.

(** What [identifyRoomName] resolves with. The confidence is a score the
    orchestration only copies. *)
Module Heading.
Record t := mk {
  roomName : option jsstring;
  rawText : option jsstring;
  confidence : N;
  previewPath : option Path
}.
End Heading.

(** An entry of [roomDetections]: the heading's fields spread, plus
    [normalized], [pageImage] and, for a failed detection, [error]. *)
Module Detection.
Record t := mk {
  roomName : option jsstring;
  rawText : option jsstring;
  confidence : N;
  previewPath : option Path;
  normalized : option jsstring;
  pageImage : Path;
  error : option Error.t
}.
End Detection.

(** An entry of [groups]. *)
Module Group.
Record t := mk {
  groupId : nat;
  pageIndices : list nat;
  pages : list Path;
  roomName : option jsstring;
  normalizedName : option jsstring
}.

(** [group.pageIndices.push(cursor); group.pages.push(page)]. *)
Definition push (g : t) (cursor : nat) (page : Path) : t :=
  {| groupId := groupId g;
     pageIndices := pageIndices g ++ [cursor];
     pages := pages g ++ [page];
     roomName := roomName g;
     normalizedName := normalizedName g |}.
End Group.

(** ** The detection pass *)

(** The [try] body of the detection loop for one page. *)
Definition detectionOf (pagePath : Path) (detection : Heading.t) : Detection.t :=
  {| Detection.roomName := Heading.roomName detection;
     Detection.rawText := Heading.rawText detection;
     Detection.confidence := Heading.confidence detection;
     Detection.previewPath := Heading.previewPath detection;
     Detection.normalized :=
       normalizeRoomName
         (Js.orElse (Heading.roomName detection) (Heading.rawText detection));
     Detection.pageImage := pagePath;
     Detection.error := None |}.

(** The entry pushed by the [catch] branch of the detection loop. *)
Definition failedDetection (pagePath : Path) (error : Error.t) : Detection.t :=
  {| Detection.roomName := None;
     Detection.rawText := None;
     Detection.confidence := 0%N;
     Detection.previewPath := None;
     Detection.normalized := None;
     Detection.pageImage := pagePath;
     Detection.error := Some error |}.

(** ** The grouping loop *)

Section Grouping.

Variable pagesToProcess : list Path.
Variable roomDetections : list Detection.t.

(** [roomDetections[i]?.normalized]. *)
Definition normalizedAt (i : nat) : option jsstring :=
  roomDetections !! i ≫= Detection.normalized.

(** [nextDetection?.normalized && nextDetection.normalized === normalized]. *)
Definition sameRoom (normalized : option jsstring) (cursor : nat) : bool :=
  truthy (normalizedAt cursor)
  && bool_decide (normalizedAt cursor = normalized).

(** The [while (cursor < pagesToProcess.length)] loop that absorbs the
    following pages into the open group; it returns the cursor and the
    group at the [break]. *)
Equations? absorbPages (normalized : option jsstring) (cursor : nat)
    (group : Group.t) : nat * Group.t
    by wf (length pagesToProcess - cursor)%nat lt :=
  absorbPages normalized cursor group
    with decide (cursor < length pagesToProcess)%nat => {
    | right _ => (cursor, group)
    | left _ with sameRoom normalized cursor => {
        | true =>
            absorbPages normalized (cursor + 1)%nat
              (Group.push group cursor (pagesToProcess !!! cursor))
        | false => (cursor, group) } }.
Proof. lia. Qed.

(** The group opened at [index], when [groups.length] groups are closed.
    The guards of the loops keep [index] and [cursor] below the number
    of pages, so that [pagesToProcess[index]] is a page. *)
Definition openGroup (index closed : nat) : Group.t :=
  let detection := roomDetections !! index in
  {| Group.groupId := (closed + 1)%nat;
     Group.pageIndices := [index];
     Group.pages := [pagesToProcess !!! index];
     Group.roomName :=
       Js.orElse (detection ≫= Detection.roomName)
             (Js.orElse (detection ≫= Detection.rawText) None);
     Group.normalizedName := normalizedAt index |}.

(** One pass of the body of the [for] loop: the cursor after the group
    and the group that is pushed. *)
Definition closeGroup (index closed : nat) : nat * Group.t :=
  let normalized := normalizedAt index in
  let group := openGroup index closed in
  if truthy normalized
  then absorbPages normalized (index + 1)%nat group
  else ((index + 1)%nat, group).

(** [for (let index = 0; index < pagesToProcess.length; ) { ...
    groups.push(group); index = cursor; }], from [index] on with the
    groups pushed so far. *)
Equations? groupLoop (index : nat) (groups : list Group.t) : list Group.t
    by wf (length pagesToProcess - index)%nat lt :=
  groupLoop index groups with decide (index < length pagesToProcess)%nat => {
    | right _ => groups
    | left _ =>
        groupLoop (closeGroup index (length groups)).1
                  (groups ++ [(closeGroup index (length groups)).2]) }.
Proof.
  assert (Hmono : forall k n c g, (length pagesToProcess - c = k)%nat ->
                   (c <= (absorbPages n c g).1)%nat).
  { clear. induction k as [|k IH]; intros n c g Hk; simp absorbPages;
      destruct (decide (c < length pagesToProcess)%nat); simpl; try lia.
    destruct (sameRoom n c); simpl; [|lia].
    specialize (IH n (c + 1)%nat
                  (Group.push g c (pagesToProcess !!! c))). lia. }
  unfold closeGroup. destruct (truthy _); simpl.
  - specialize (Hmono _ (normalizedAt index) (index + 1)%nat
                  (openGroup index (length groups)) eq_refl). lia.
  - lia.
Qed.

(** The [groups] array after the loop. *)
Definition groupPages : list Group.t := groupLoop 0 [].

(** A closed group read as a run of pages: the run of [len] pages from
    [start] on, every page after the first absorbed by the test of the
    inner loop, and the run ended by the end of the pages or by a failed
    test. *)
Record groupRun (g : Group.t) (start len : nat) : Prop := {
  run_indices : Group.pageIndices g = seq start len;
  run_pages : Group.pages g = map (pagesToProcess !!!.) (seq start len);
  run_size : 0 < len;
  run_bound : start + len <= length pagesToProcess;
  run_roomName : Group.roomName g = Group.roomName (openGroup start 0);
  run_normalizedName : Group.normalizedName g = normalizedAt start;
  run_absorbed :
    forall j, start < j < start + len -> sameRoom (normalizedAt start) j = true;
  run_single : truthy (normalizedAt start) = false -> len = 1;
  run_maximal :
    truthy (normalizedAt start) = true ->
    start + len < length pagesToProcess ->
    sameRoom (normalizedAt start) (start + len) = false
}.

(** The groups pushed from [index] on, when [closed] groups are there
    already, read as consecutive runs. *)
Inductive groupsFrom : nat -> nat -> list Group.t -> Prop :=
| groupsFrom_done index closed :
    length pagesToProcess <= index -> groupsFrom index closed []
| groupsFrom_push index closed g len rest :
    index < length pagesToProcess ->
    groupRun g index len ->
    Group.groupId g = closed + 1 ->
    groupsFrom (index + len) (closed + 1) rest ->
    groupsFrom index closed (g :: rest).

End Grouping.

(** Pages [i] and [j] are in the [pageIndices] of one group. *)
Definition sameGroup (groups : list Group.t) (i j : nat) : bool :=
  existsb (fun g => bool_decide (i ∈ Group.pageIndices g)
                    && bool_decide (j ∈ Group.pageIndices g)) groups.

(** ** The worker pool *)

(** The description object that [describePageAndGenerate] resolves with is
    opaque to the orchestration; it is carried as one value. *)
Abbreviation Description := (list N) (only parsing).

(** What [describePageAndGenerate] resolves with. *)
Module GenResult.
Record t := mk { description : Description; renderPath : Path }.
End GenResult.

(** An entry of [roomContext.headings]. *)
Module HeadingInfo.
Record t := mk {
  pageImage : Path;
  roomName : option jsstring;
  rawText : option jsstring;
  confidence : option N
}.
End HeadingInfo.

Module RoomContext.
Record t := mk {
  roomName : option jsstring;
  normalizedName : option jsstring;
  headings : list HeadingInfo.t
}.
End RoomContext.

(** An entry of [processedPages]. *)
Module PageResult.
Record t := mk {
  pageImage : Path;
  groupedWith : list Path;
  groupId : nat;
  roomName : option jsstring;
  roomHeadingRaw : option jsstring;
  description : option Description;
  renderPath : option Path;
  error : option Error.t;
  errorMessage : option jsstring
}.

(** [entry && !entry.error], the test of the final summary. *)
Definition succeeded (entry : t) : bool :=
  match error entry with None => true | Some _ => false end.
End PageResult.

(** What a worker is suspended on, with the locals of its frame, or how
    it ended. *)
Inductive Worker :=
| AwaitDescribe (currentGroupIndex : nat) (group : Group.t)
| AwaitTitle (currentGroupIndex : nat) (group : Group.t)
    (result : GenResult.t)
| Returned
| Threw (error : Error.t).

(** Calls to the collaborators, diagnostics on the console and the
    [throw] that ends a worker, in the order in which they happen.
    Workers are named by their position in the array given to
    [Promise.all]. *)
Inductive Event :=
| CallRender (pdf pagesDir : Path) (skipConversionPages : Z)
| CallIdentify (pagePath : Path)
| CallDescribe (worker currentGroupIndex : nat)
| CallOverlay (worker : nat) (renderPath : Path) (titleText : jsstring)
| CallMerge (outputDir outputPath : Path)
| CallUnlink (file : Path)
| WarnNothingToProcess (skipPages : Z) (rendered : nat)
| WarnIdentifyFailed (pagePath : Path) (error : Error.t)
| ErrorGroupFailed (worker : nat) (error : Error.t)
| WarnMergeFailed (error : Error.t)
| WarnCleanupFailed (error : Error.t)
| WorkerThrows (worker : nat) (error : Error.t).

(** [array[i] = v] on an array with holes: a write past the end extends
    the array. *)
Definition arraySet {A} (a : list (option A)) (i : nat) (v : A)
  : list (option A) :=
  if decide (i < length a)%nat then <[i := Some v]> a
  else a ++ replicate (i - length a) None ++ [Some v].

(** The state the workers share, and the workers themselves. [rejection]
    is the state of the promise of [Promise.all]: the error of the first
    worker that threw. *)
Record Pool := mkPool {
  groupCursor : nat;
  processedPages : list (option PageResult.t);
  workers : list Worker;
  rejection : option Error.t;
  trace : list Event
}.

Section WorkerPool.

Variable pagesToProcess : list Path.
Variable roomDetections : list Detection.t.
Variable groups : list Group.t.
Variable continueOnError : bool.

(** The collaborators, as the outcome of each call. The options that are
    the same for every call ([outputDir], the key file, the describe
    options) are left inside them. *)
Variable describePageAndGenerate :
  list Path -> RoomContext.t -> Result GenResult.t.
Variable addTitleToImage : Path -> jsstring -> Result unit.

(** [roomDetections[pageIndex]?.field || null]. *)
Definition fieldOrNull (field : Detection.t -> option jsstring)
    (pageIndex : nat) : option jsstring :=
  Js.orElse (roomDetections !! pageIndex ≫= field) None.

Definition headingInfo (pageIndex : nat) : HeadingInfo.t :=
  {| HeadingInfo.pageImage := pagesToProcess !!! pageIndex;
     HeadingInfo.roomName := fieldOrNull Detection.roomName pageIndex;
     HeadingInfo.rawText := fieldOrNull Detection.rawText pageIndex;
     HeadingInfo.confidence :=
       Detection.confidence <$> roomDetections !! pageIndex |}.

Definition roomContext (group : Group.t) : RoomContext.t :=
  {| RoomContext.roomName := Group.roomName group;
     RoomContext.normalizedName := Group.normalizedName group;
     RoomContext.headings := map headingInfo (Group.pageIndices group) |}.

(** [part.charAt(0).toUpperCase() + part.slice(1)]. *)
Definition capitalize (part : jsstring) : jsstring :=
  match part with
  | [] => []
  | c :: r => upperUnit c :: r
  end.

(** The [titleText] chain of the worker. *)
Definition titleText (group : Group.t) : jsstring :=
  let headingSource := head (Group.pageIndices group) ≫= (roomDetections !!.) in
  let alternative :=
    Js.orElse (Js.and_then (headingSource ≫= Detection.rawText) trim)
      (Js.orElse (Js.and_then (Group.roomName group) trim)
         (Js.orElse (Js.and_then (headingSource ≫= Detection.roomName) trim)
            (Js.and_then (Group.normalizedName group)
               (fun n => joinSpace (map capitalize (splitSpace n)))))) in
  match alternative with
  | Some (c :: r) => c :: r
  | _ => str "Room"
  end.

(** The entry written for [pageIndex], the [localIndex]-th page of
    [group], on success. *)
Definition successEntry (group : Group.t) (result : GenResult.t)
    (localIndex pageIndex : nat) : PageResult.t :=
  {| PageResult.pageImage := pagesToProcess !!! pageIndex;
     PageResult.groupedWith := delete localIndex (Group.pages group);
     PageResult.groupId := Group.groupId group;
     PageResult.roomName := fieldOrNull Detection.roomName pageIndex;
     PageResult.roomHeadingRaw := fieldOrNull Detection.rawText pageIndex;
     PageResult.description := Some (GenResult.description result);
     PageResult.renderPath := Some (GenResult.renderPath result);
     PageResult.error := None;
     PageResult.errorMessage := None |}.

(** The entry written by the [catch] branch. *)
Definition failureEntry (group : Group.t) (error : Error.t)
    (localIndex pageIndex : nat) : PageResult.t :=
  {| PageResult.pageImage := pagesToProcess !!! pageIndex;
     PageResult.groupedWith := delete localIndex (Group.pages group);
     PageResult.groupId := Group.groupId group;
     PageResult.roomName := fieldOrNull Detection.roomName pageIndex;
     PageResult.roomHeadingRaw := fieldOrNull Detection.rawText pageIndex;
     PageResult.description := None;
     PageResult.renderPath := None;
     PageResult.error := Some error;
     PageResult.errorMessage :=
       Some (match Error.message error with
             | [] => Error.toString error
             | m => m
             end) |}.

(** [group.pageIndices.forEach((pageIndex, localIndex) => {
      processedPages[pageIndex] = entry; })], from the local index
    [first] on. *)
Definition writeFrom (entry : nat -> nat -> PageResult.t) (first : nat)
    (pageIndices : list nat) (slots : list (option PageResult.t))
  : list (option PageResult.t) :=
  foldl (fun a '(localIndex, pageIndex) =>
           arraySet a pageIndex (entry localIndex pageIndex))
        slots (zip (seq first (length pageIndices)) pageIndices).

Definition writeGroup (entry : nat -> nat -> PageResult.t)
    (pageIndices : list nat) (slots : list (option PageResult.t))
  : list (option PageResult.t) :=
  writeFrom entry 0 pageIndices slots.

Definition setWorker (w : nat) (state : Worker) (pool : Pool) : Pool :=
  {| groupCursor := groupCursor pool;
     processedPages := processedPages pool;
     workers := <[w := state]> (workers pool);
     rejection := rejection pool;
     trace := trace pool |}.

(** The head of the [while (true)] loop, run by worker [w] up to its
    next [await]: it reads the cursor, returns when no group is left, and
    otherwise takes the group, moves the cursor and calls
    [describePageAndGenerate]. Nothing is awaited between the read and
    the write of [groupCursor]. *)
Definition claimNext (w : nat) (pool : Pool) : Worker * Pool :=
  let currentGroupIndex := groupCursor pool in
  match groups !! currentGroupIndex with
  | None => (Returned, pool)
  | Some group =>
      (AwaitDescribe currentGroupIndex group,
       {| groupCursor := (currentGroupIndex + 1)%nat;
          processedPages := processedPages pool;
          workers := workers pool;
          rejection := rejection pool;
          trace := trace pool ++ [CallDescribe w currentGroupIndex] |})
  end.

Definition continueLoop (w : nat) (pool : Pool) : Pool :=
  let '(state, pool') := claimNext w pool in setWorker w state pool'.

(** The [catch] branch: every page of the group gets a failure entry;
    then the error is thrown again, which ends the worker and, for the
    first worker to do so, rejects [Promise.all], or the loop goes on. *)
Definition failGroup (w : nat) (group : Group.t) (error : Error.t)
    (pool : Pool) : Pool :=
  let marked :=
    {| groupCursor := groupCursor pool;
       processedPages :=
         writeGroup (failureEntry group error) (Group.pageIndices group)
           (processedPages pool);
       workers := workers pool;
       rejection := rejection pool;
       trace := trace pool ++ [ErrorGroupFailed w error] |} in
  if continueOnError then continueLoop w marked
  else
    {| groupCursor := groupCursor marked;
       processedPages := processedPages marked;
       workers := <[w := Threw error]> (workers marked);
       rejection :=
         match rejection marked with
         | Some first => Some first
         | None => Some error
         end;
       trace := trace marked ++ [WorkerThrows w error] |}.

(** Worker [w] is resumed with the outcome of the call it awaits and
    runs up to its next [await], or to its end. *)
Definition resume (w : nat) (pool : Pool) : Pool :=
  match workers pool !! w with
  | Some (AwaitDescribe currentGroupIndex group) =>
      match describePageAndGenerate (Group.pages group) (roomContext group) with
      | Ok result =>
          {| groupCursor := groupCursor pool;
             processedPages := processedPages pool;
             workers :=
               <[w := AwaitTitle currentGroupIndex group result]> (workers pool);
             rejection := rejection pool;
             trace :=
               trace pool ++
               [CallOverlay w (GenResult.renderPath result) (titleText group)] |}
      | Err error => failGroup w group error pool
      end
  | Some (AwaitTitle currentGroupIndex group result) =>
      match addTitleToImage (GenResult.renderPath result) (titleText group) with
      | Ok _ =>
          continueLoop w
            {| groupCursor := groupCursor pool;
               processedPages :=
                 writeGroup (successEntry group result)
                   (Group.pageIndices group) (processedPages pool);
               workers := workers pool;
               rejection := rejection pool;
               trace := trace pool |}
      | Err error => failGroup w group error pool
      end
  | _ => pool
  end.

(** [Math.min(concurrency, groups.length)]. *)
Definition workerCountOf (concurrency : nat) : nat :=
  Nat.min concurrency (length groups).

(** [new Array(pagesToProcess.length)], [groupCursor = 0], no worker
    yet. *)
Definition emptyPool (events : list Event) : Pool :=
  {| groupCursor := 0;
     processedPages := replicate (length pagesToProcess) None;
     workers := [];
     rejection := None;
     trace := events |}.

(** [worker(index + 1)] is called: the worker runs up to its first
    [await] and its promise joins the array. *)
Definition startWorker (pool : Pool) (w : nat) : Pool :=
  let '(state, pool') := claimNext w pool in
  {| groupCursor := groupCursor pool';
     processedPages := processedPages pool';
     workers := workers pool' ++ [state];
     rejection := rejection pool';
     trace := trace pool' |}.

(** [Array.from({ length: workerCount }, (_, index) => worker(index + 1))]:
    the workers are started one after the other. *)
Definition startPool (workerCount : nat) (events : list Event) : Pool :=
  foldl startWorker (emptyPool events) (seq 0 workerCount).

(** The pool after the awaited calls have settled in the order
    [schedule], each entry naming the worker that is resumed. *)
Definition runPool (schedule : list nat) (pool : Pool) : Pool :=
  foldl (fun p w => resume w p) pool schedule.

Definition finished (state : Worker) : bool :=
  match state with
  | Returned | Threw _ => true
  | _ => false
  end.

Definition returned (state : Worker) : bool :=
  match state with
  | Returned => true
  | _ => false
  end.

(** How [await Promise.all(...)] stands: rejected with the first error
    thrown by a worker, fulfilled when every worker has returned, pending
    otherwise. *)
Inductive Settlement :=
| Pending
| Fulfilled
| Rejected (error : Error.t).

Definition settlement (pool : Pool) : Settlement :=
  match rejection pool with
  | Some error => Rejected error
  | None => if forallb returned (workers pool) then Fulfilled else Pending
  end.

(** The outcome of the [try] block for a group: both awaited calls. *)
Definition pipeline (group : Group.t) : Result GenResult.t :=
  match describePageAndGenerate (Group.pages group) (roomContext group) with
  | Ok result =>
      match addTitleToImage (GenResult.renderPath result) (titleText group) with
      | Ok _ => Ok result
      | Err error => Err error
      end
  | Err error => Err error
  end.

(** The entry that the outcome of the pipeline gives page [pageIndex]. *)
Definition entryOf (group : Group.t) (localIndex pageIndex : nat)
  : PageResult.t :=
  match pipeline group with
  | Ok result => successEntry group result localIndex pageIndex
  | Err error => failureEntry group error localIndex pageIndex
  end.

(** The group a suspended worker holds. *)
Definition working (state : Worker) : option (nat * Group.t) :=
  match state with
  | AwaitDescribe currentGroupIndex group => Some (currentGroupIndex, group)
  | AwaitTitle currentGroupIndex group _ => Some (currentGroupIndex, group)
  | _ => None
  end.

Definition workingOn (state : Worker) : option nat := fst <$> working state.

(** What holds of the cursor, the slots and the workers between two
    steps of the pool. A group is held by at most one worker; the pages
    of a group that was taken and is no longer held have the entries of
    its outcome; the pages of the other groups are unset. *)
Record poolInv (cursor : nat) (slots : list (option PageResult.t))
    (ws : list Worker) : Prop := {
  inv_length : length slots = length pagesToProcess;
  inv_cursor : cursor <= length groups;
  inv_held :
    forall w state gi g,
      ws !! w = Some state -> working state = Some (gi, g) ->
      groups !! gi = Some g /\ gi < cursor;
  inv_title :
    forall w gi g result,
      ws !! w = Some (AwaitTitle gi g result) ->
      describePageAndGenerate (Group.pages g) (roomContext g) = Ok result;
  inv_unique :
    forall w w' state state' gi,
      ws !! w = Some state -> ws !! w' = Some state' ->
      workingOn state = Some gi -> workingOn state' = Some gi -> w = w';
  inv_done :
    forall gi g k i,
      groups !! gi = Some g -> Group.pageIndices g !! k = Some i ->
      gi < cursor ->
      (forall w state, ws !! w = Some state -> workingOn state <> Some gi) ->
      slots !! i = Some (Some (entryOf g k i));
  inv_unset :
    forall gi g i w state,
      groups !! gi = Some g -> i ∈ Group.pageIndices g ->
      cursor <= gi \/ (ws !! w = Some state /\ workingOn state = Some gi) ->
      slots !! i = Some None
}.

(** How a worker can have ended: it returns only when no group is left,
    and throws only when [continueOnError] is off. *)
Definition endInv (cursor : nat) (ws : list Worker) : Prop :=
  (forall w, ws !! w = Some Returned -> length groups <= cursor)
  /\ (forall w error, ws !! w = Some (Threw error) -> continueOnError = false).

Definition invariant (pool : Pool) : Prop :=
  poolInv (groupCursor pool) (processedPages pool) (workers pool)
  /\ endInv (groupCursor pool) (workers pool).

(** What is left to do: two awaited calls for each group not yet taken,
    and for each worker the calls it awaits before it is back at the
    head of the loop. *)
Definition callsLeft (state : Worker) : nat :=
  match state with
  | AwaitDescribe _ _ => 2
  | AwaitTitle _ _ _ => 1
  | _ => 0
  end.

Definition remaining (pool : Pool) : nat :=
  2 * (length groups - groupCursor pool)
  + sum_list_with callsLeft (workers pool).

(** The schedule that resumes the workers in turn, [rounds] times. *)
Definition roundRobin (workerCount rounds : nat) : list nat :=
  concat (replicate rounds (seq 0 workerCount)).



End WorkerPool.

(** ** outputMerge *)

(** What [outputMerge] resolves with. *)
Module MergeResult.
Record t := mk {
  outputPath : Path;
  imageCount : nat;
  imageFiles : list Path
}.
End MergeResult.

(** The order of [Array.prototype.sort] without a comparator: strings by
    their code units. *)
Fixpoint unitsLe (a b : jsstring) : bool :=
  match a, b with
  | [], _ => true
  | _ :: _, [] => false
  | x :: a', y :: b' => (x <? y)%N || ((x =? y)%N && unitsLe a' b')
  end.

Definition imageExtensions : list jsstring :=
  [str ".png"; str ".jpg"; str ".jpeg"; str ".gif"; str ".bmp"; str ".webp"].

Definition newError (message : jsstring) : Error.t :=
  {| Error.name := str "Error"; Error.message := message |}.

Section OutputMerge.

(** Node's [path] and [fs], and the block that embeds the images with
    pdf-lib and saves the document (its [catch] throws in every case). *)
Variable resolve : Path -> Path.
Variable extname : Path -> jsstring.
Variable join : Path -> Path -> Path.
Variable basename : Path -> Path.
Variable existsSync : Path -> bool.
Variable readdir : Path -> Result (list Path).
Variable embedImages : list Path -> Result (list N).
Variable writeFile : Path -> list N -> Result unit.

Definition isImageFile (file : Path) : bool :=
  bool_decide (toLowerCase (extname file) ∈ imageExtensions).

(** The [outputDir] and [outputPdfPath] constants of [outputMerge]. *)
Definition mergeDirOf (optOutputDir : option Path) : Path :=
  if truthy optOutputDir then resolve (default [] optOutputDir)
  else resolve (str "generated").

Definition mergePathOf (optOutputPath : option Path) : Path :=
  if truthy optOutputPath then resolve (default [] optOutputPath)
  else resolve (str "merged-output.pdf").

(** [async function outputMerge(options = {})]. *)
Definition outputMerge (optOutputDir optOutputPath : option Path)
  : Result MergeResult.t :=
  let outputDir := mergeDirOf optOutputDir in
  let outputPdfPath := mergePathOf optOutputPath in
  if negb (existsSync outputDir) then
    Err (newError (str "Output directory does not exist: " ++ outputDir))
  else
    match readdir outputDir with
    | Err e => Err e
    | Ok files =>
        let imageFiles :=
          merge_sort (fun a b => unitsLe a b)
            (map (join outputDir) (filter (fun f => isImageFile f) files)) in
        if decide (length imageFiles = 0) then
          Err (newError
                 (str "No image files found in output directory: " ++ outputDir))
        else
          match embedImages imageFiles with
          | Err e => Err e
          | Ok pdfBuffer =>
              match writeFile outputPdfPath pdfBuffer with
              | Err e => Err e
              | Ok _ =>
                  Ok {| MergeResult.outputPath := outputPdfPath;
                        MergeResult.imageCount := length imageFiles;
                        MergeResult.imageFiles := map basename imageFiles |}
              end
          end
    end.

End OutputMerge.

(** ** pdfGenerate *)

(** The options of [pdfGenerate] that the orchestration reads. A numeric
    option is [Some] when [Number.isInteger] holds of it. *)
Module Options.
Record t := mk {
  pagesDir : option Path;
  outputDir : option Path;
  skipConversionPages : option Z;
  skipPages : option Z;
  continueOnError : bool;
  concurrency : option Z;
  mergeOutput : bool;
  mergedOutputPath : option Path
}.

(** The same options with [mergeOutput: false]. *)
Definition noMerge (o : t) : t :=
  {| pagesDir := pagesDir o;
     outputDir := outputDir o;
     skipConversionPages := skipConversionPages o;
     skipPages := skipPages o;
     continueOnError := continueOnError o;
     concurrency := concurrency o;
     mergeOutput := false;
     mergedOutputPath := mergedOutputPath o |}.
End Options.

(** A numeric option as the caller gives it, when it is a finite number:
    a fraction. [Number.isInteger] holds of it when its denominator
    divides its numerator, and the option is then this integer. *)
Definition integerOf (value : QArith_base.Q) : option Z :=
  let numerator := QArith_base.Qnum value in
  let denominator := Z.pos (QArith_base.Qden value) in
  if (numerator mod denominator =? 0)%Z then Some (numerator / denominator)%Z
  else None.

(** [{ ...options, skipPages: value }]. *)
Definition withSkipPages (value : QArith_base.Q) (o : Options.t) : Options.t :=
  {| Options.pagesDir := Options.pagesDir o;
     Options.outputDir := Options.outputDir o;
     Options.skipConversionPages := Options.skipConversionPages o;
     Options.skipPages := integerOf value;
     Options.continueOnError := Options.continueOnError o;
     Options.concurrency := Options.concurrency o;
     Options.mergeOutput := Options.mergeOutput o;
     Options.mergedOutputPath := Options.mergedOutputPath o |}.

(** The object [pdfGenerate] resolves with; a key that a [return] leaves
    out is [None]. *)
Module Report.
Record t := mk {
  pagesDir : Path;
  outputDir : Path;
  pageImages : list Path;
  processedPages : list (option PageResult.t);
  skipPages : option Z;
  concurrency : option nat;
  groups : option (list Group.t);
  roomDetections : option (list Detection.t);
  mergedPdfPath : option Path
}.
End Report.

(** How the promise of [pdfGenerate] stands once the awaited calls of the
    schedule have settled. *)
Inductive Completion :=
| Running
| Resolves (report : Report.t)
| Rejects (error : Error.t).

(** [array.slice(start)] for an integer [start]. *)
Definition sliceFrom {A} (start : Z) (a : list A) : list A :=
  if (start <? 0)%Z
  then drop (Z.to_nat (Z.max (Z.of_nat (length a) + start) 0)) a
  else drop (Z.to_nat start) a.

(** The constant [output_all] of the module. *)
Definition output_all : bool := false.

Section PdfGenerate.

(** Node's [path] and [fs], and the collaborators, each as the outcome of
    a call with the arguments that vary; [identifyRoomOptions] and the
    other options that are passed through unchanged are left inside
    them. *)
Variable resolve : Path -> Path.
Variable extname : Path -> jsstring.
Variable join : Path -> Path -> Path.
Variable basename : Path -> Path.
Variable existsSync : Path -> bool.
Variable readdir : Path -> Result (list Path).
Variable embedImages : list Path -> Result (list N).
Variable writeFile : Path -> list N -> Result unit.
Variable unlink : Path -> Result unit.

Variable pdfToPngs : Path -> Path -> Z -> Result (list Path).
Variable identifyRoomName : Path -> Result Heading.t.
Variable describePageAndGenerate :
  list Path -> RoomContext.t -> Result GenResult.t.
Variable addTitleToImage : Path -> jsstring -> Result unit.

(** The detection loop from page [pages] on: the detections pushed and
    the events, and the error thrown when a detection fails and
    [continueOnError] is off. *)
Fixpoint detectRooms (continueOnError : bool) (pages : list Path)
    (roomDetections : list Detection.t) (events : list Event)
  : Result (list Detection.t) * list Event :=
  match pages with
  | [] => (Ok roomDetections, events)
  | pagePath :: rest =>
      match identifyRoomName pagePath with
      | Ok detection =>
          detectRooms continueOnError rest
            (roomDetections ++ [detectionOf pagePath detection])
            (events ++ [CallIdentify pagePath])
      | Err error =>
          let events' :=
            events ++ [CallIdentify pagePath; WarnIdentifyFailed pagePath error] in
          if continueOnError then
            detectRooms continueOnError rest
              (roomDetections ++ [failedDetection pagePath error]) events'
          else (Err error, events')
      end
  end.

(** The loop that deletes the [.png] files of a directory listing. *)
Fixpoint unlinkPngs (dir : Path) (files : list Path) (events : list Event)
  : Result unit * list Event :=
  match files with
  | [] => (Ok (), events)
  | file :: rest =>
      if bool_decide (toLowerCase (extname file) = str ".png") then
        match unlink (join dir file) with
        | Ok _ => unlinkPngs dir rest (events ++ [CallUnlink (join dir file)])
        | Err e => (Err e, events ++ [CallUnlink (join dir file)])
        end
      else unlinkPngs dir rest events
  end.

Definition cleanDirectory (dir : Path) (events : list Event)
  : Result unit * list Event :=
  if existsSync dir then
    match readdir dir with
    | Ok files => unlinkPngs dir files events
    | Err e => (Err e, events)
    end
  else (Ok (), events).

(** The inner [try] that deletes the intermediate images; its [catch]
    only warns. *)
Definition cleanUp (outputDir pagesDir : Path) (events : list Event)
  : list Event :=
  match cleanDirectory outputDir events with
  | (Err e, events') => events' ++ [WarnCleanupFailed e]
  | (Ok _, events') =>
      match cleanDirectory pagesDir events' with
      | (Err e, events'') => events'' ++ [WarnCleanupFailed e]
      | (Ok _, events'') => events''
      end
  end.

(** The [const] declarations at the head of [pdfGenerate]. *)
Definition pagesDirOf (options : Options.t) : Path :=
  if truthy (Options.pagesDir options)
  then resolve (default [] (Options.pagesDir options))
  else resolve (str "pdf-pages").

Definition outputDirOf (options : Options.t) : Path :=
  if truthy (Options.outputDir options)
  then resolve (default [] (Options.outputDir options))
  else resolve (str "generated").

Definition skipConversionPagesOf (options : Options.t) : Z :=
  default 4%Z (Options.skipConversionPages options).

Definition skipPagesOf (options : Options.t) : Z :=
  default 0%Z (Options.skipPages options).

Definition concurrencyOf (options : Options.t) : nat :=
  match Options.concurrency options with
  | Some c => if (0 <? c)%Z then Z.to_nat c else 2
  | None => 2
  end.

(** [options.mergedOutputPath || path.resolve(process.cwd(),
    "merged-output.pdf")]. *)
Definition mergedPathOf (options : Options.t) : Path :=
  if truthy (Options.mergedOutputPath options)
  then default [] (Options.mergedOutputPath options)
  else resolve (str "merged-output.pdf").

(** The call [outputMerge({ outputDir, outputPath: defaultMergedPath })]. *)
Definition mergeCall (options : Options.t) : Result MergeResult.t :=
  outputMerge resolve extname join basename existsSync readdir
    embedImages writeFile
    (Some (outputDirOf options)) (Some (mergedPathOf options)).

(** The merge step: [mergedPdfPath] and the events after it. *)
Definition mergeStep (options : Options.t) (events : list Event)
  : option Path * list Event :=
  if Options.mergeOutput options then
    let events' :=
      events ++ [CallMerge (outputDirOf options) (mergedPathOf options)] in
    match mergeCall options with
    | Ok mergeResult =>
        (Some (MergeResult.outputPath mergeResult),
         if output_all then events'
         else cleanUp (outputDirOf options) (pagesDirOf options) events')
    | Err error => (None, events' ++ [WarnMergeFailed error])
    end
  else (None, events).

(** The first [return]: nothing to process. *)
Definition nothingToProcess (options : Options.t) (pageImages : list Path)
  : Report.t :=
  {| Report.pagesDir := pagesDirOf options;
     Report.outputDir := outputDirOf options;
     Report.pageImages := pageImages;
     Report.processedPages := [];
     Report.skipPages := None;
     Report.concurrency := None;
     Report.groups := None;
     Report.roomDetections := None;
     Report.mergedPdfPath := None |}.

(** [async function pdfGenerate(pdfPath, options = {})], with the awaited
    calls of the workers settling in the order [schedule]: how its
    promise stands then, and the events so far. *)
Definition pdfGenerate (pdfPath : option Path) (options : Options.t)
    (schedule : list nat) : Completion * list Event :=
  if negb (truthy pdfPath) then (Rejects (newError (str "pdfPath is required")), [])
  else
    let resolvedPdf := resolve (default [] pdfPath) in
    let pagesDir := pagesDirOf options in
    let outputDir := outputDirOf options in
    let skipConversionPages := skipConversionPagesOf options in
    let skipPages := skipPagesOf options in
    let continueOnError := Options.continueOnError options in
    let concurrency := concurrencyOf options in
    let events := [CallRender resolvedPdf pagesDir skipConversionPages] in
    match pdfToPngs resolvedPdf pagesDir skipConversionPages with
    | Err error => (Rejects error, events)
    | Ok pageImages =>
        if (Z.of_nat (length pageImages) <=? skipPages)%Z then
          (Resolves (nothingToProcess options pageImages),
           events ++ [WarnNothingToProcess skipPages (length pageImages)])
        else
          let pagesToProcess := sliceFrom skipPages pageImages in
          if decide (length pagesToProcess = 0) then
            (Resolves
               {| Report.pagesDir := pagesDir;
                  Report.outputDir := outputDir;
                  Report.pageImages := pageImages;
                  Report.processedPages := [];
                  Report.skipPages := Some skipPages;
                  Report.concurrency := Some 0;
                  Report.groups := None;
                  Report.roomDetections := None;
                  Report.mergedPdfPath := None |},
             events)
          else
            match detectRooms continueOnError pagesToProcess [] events with
            | (Err error, events') => (Rejects error, events')
            | (Ok roomDetections, events') =>
                let groups := groupPages pagesToProcess roomDetections in
                let workerCount := workerCountOf groups concurrency in
                let pool :=
                  runPool pagesToProcess roomDetections groups continueOnError
                    describePageAndGenerate addTitleToImage schedule
                    (startPool pagesToProcess groups workerCount events') in
                match settlement pool with
                | Pending => (Running, trace pool)
                | Rejected error => (Rejects error, trace pool)
                | Fulfilled =>
                    (Resolves
                       {| Report.pagesDir := pagesDir;
                          Report.outputDir := outputDir;
                          Report.pageImages := pageImages;
                          Report.processedPages := processedPages pool;
                          Report.skipPages := Some skipPages;
                          Report.concurrency := Some workerCount;
                          Report.groups := Some groups;
                          Report.roomDetections := Some roomDetections;
                          Report.mergedPdfPath :=
                            (mergeStep options (trace pool)).1 |},
                     (mergeStep options (trace pool)).2)
                end
            end
    end.

End PdfGenerate.

(** ** Reading the detection loop and the traces *)

(** The entry the detection loop pushes for a page when it goes on to
    the next page: the [try] body, or the [catch] branch under
    [continueOnError]. *)
Definition detectionFor (identifyRoomName : Path -> Result Heading.t)
    (pagePath : Path) : Detection.t :=
  match identifyRoomName pagePath with
  | Ok detection => detectionOf pagePath detection
  | Err error => failedDetection pagePath error
  end.

(** The events of the detection loop for a page. *)
Definition detectionEvents (identifyRoomName : Path -> Result Heading.t)
    (pagePath : Path) : list Event :=
  match identifyRoomName pagePath with
  | Ok _ => [CallIdentify pagePath]
  | Err error => [CallIdentify pagePath; WarnIdentifyFailed pagePath error]
  end.

(** The groups for which [describePageAndGenerate] was called, in the
    order of the calls. *)
Definition claimedGroups (events : list Event) : list nat :=
  omap (fun e => match e with
                 | CallDescribe _ currentGroupIndex => Some currentGroupIndex
                 | _ => None
                 end) events.

(** The files [fs.promises.unlink] was called on, in the order of the
    calls. *)
Definition unlinked (events : list Event) : list Path :=
  omap (fun e => match e with
                 | CallUnlink file => Some file
                 | _ => None
                 end) events.

(** The tests of the final summary, which the command line applies as
    well: [entry && !entry.error] and [entry && entry.error]. *)
Definition isSuccess (entry : option PageResult.t) : bool :=
  match entry with
  | Some e => PageResult.succeeded e
  | None => false
  end.

Definition isFailure (entry : option PageResult.t) : bool :=
  match entry with
  | Some e => negb (PageResult.succeeded e)
  | None => false
  end.

(** [processedPages.filter((entry) => entry && !entry.error).length] and
    [processedPages.filter((entry) => entry && entry.error).length]. *)
Definition successCount (processedPages : list (option PageResult.t)) : nat :=
  length (filter (fun entry => isSuccess entry) processedPages).

Definition errorCount (processedPages : list (option PageResult.t)) : nat :=
  length (filter (fun entry => isFailure entry) processedPages).

(** ** identify-room.js: the heading of a page *)

(** The character classes [[A-Za-z]], [\d], [\w] and [[^\w]]. *)
Definition isAsciiLetter (c : N) : bool :=
  ((65 <=? c) && (c <=? 90))%N || ((97 <=? c) && (c <=? 122))%N.

Definition isDigit (c : N) : bool := ((48 <=? c) && (c <=? 57))%N.

Definition isWordUnit (c : N) : bool :=
  isAsciiLetter c || isDigit c || (c =? 95)%N.

Definition notWordUnit (c : N) : bool := negb (isWordUnit c).

(** The character class [[^A-Za-z\s]]. *)
Definition notLetterOrSpace (c : N) : bool :=
  negb (isAsciiLetter c || isWhiteSpace c).

(** The character class [[-–—|]]: hyphen, en dash, em dash, bar. *)
Definition isSeparator (c : N) : bool :=
  ((c =? 45) || (c =? 8211) || (c =? 8212) || (c =? 124))%N.

(** Whether [/\s*[-–—|]\s*/] matches at the start of [s]: white space,
    then a separator. *)
Fixpoint separatorAhead (s : jsstring) : bool :=
  match s with
  | [] => false
  | c :: r => isSeparator c || (isWhiteSpace c && separatorAhead r)
  end.

(** [s.split(/\s*[-–—|]\s*/)[0]] when the split has more than one piece,
    that is when the expression matches somewhere: the text before the
    leftmost match. [None] when the split has one piece. *)
Fixpoint beforeSeparator (s : jsstring) : option jsstring :=
  if separatorAhead s then Some []
  else
    match s with
    | [] => None
    | c :: r => (fun piece => c :: piece) <$> beforeSeparator r
    end.

(** [s.replace(/^C+/, "")] and [s.replace(/C+$/, "")] for a character
    class [C]. *)
Fixpoint dropStart (C : N -> bool) (s : jsstring) : jsstring :=
  match s with
  | [] => []
  | c :: r => if C c then dropStart C r else c :: r
  end.

Fixpoint dropEnd (C : N -> bool) (s : jsstring) : jsstring :=
  match s with
  | [] => []
  | c :: r =>
      match dropEnd C r with
      | [] => if C c then [] else [c]
      | r' => c :: r'
      end
  end.

(** [String.prototype.toUpperCase] on ASCII. Its use in
    [looksLikeAllCaps] is on a string of ASCII letters. *)
Definition toUpperCase (s : jsstring) : jsstring := map upperUnit s.

(** The first two statements of [cleanHeading]: the white space is
    collapsed, then every run of units that are neither ASCII letters
    nor white space gives one space, and the white space is collapsed
    again. *)
Definition headingLetters (text : jsstring) : jsstring :=
  let cleaned := trim (replaceRuns isWhiteSpace text) in
  trim (replaceRuns isWhiteSpace (replaceRuns notLetterOrSpace cleaned)).

(** The function mapped over the words of the heading. *)
Definition headingWord (word : jsstring) : jsstring :=
  match word with
  | [] => word
  | _ :: _ => if forallb isDigit word then word else capitalize word
  end.

(** [function cleanHeading(text)]. The string that is lower-cased is
    made of ASCII letters and spaces, on which [toLowerCase] and the
    [toUpperCase] of [capitalize] are exact. *)
Definition cleanHeading (text : option jsstring) : option jsstring :=
  if negb (truthy text) then text
  else
    match text with
    | None => None
    | Some text =>
        let cleaned := headingLetters text in
        let cleaned :=
          match beforeSeparator cleaned with
          | Some piece => piece
          | None => cleaned
          end in
        let cleaned := dropEnd notWordUnit (dropStart notWordUnit cleaned) in
        Some (joinSpace (map headingWord (splitSpace (toLowerCase cleaned))))
    end.

(** [function looksLikeAllCaps(text = "")]; an [undefined] text takes
    the default. *)
Definition looksLikeAllCaps (text : option jsstring) : bool :=
  let text := default [] text in
  let normalized :=
    filter (fun c => isAsciiLetter c || isDigit c)
      (filter (fun c => negb (isWhiteSpace c)) text) in
  if decide (length normalized = 0) then false
  else
    let alphaChars := filter (fun c => negb (isDigit c)) normalized in
    if decide (length alphaChars = 0) then false
    else bool_decide (alphaChars = toUpperCase alphaChars).

(** A line of the OCR result, as far as [identifyRoomName] reads it. *)
Module Line.
Record t := mk { text : option jsstring; confidence : option N }.
End Line.

(** The end of [identifyRoomName], from [const fallbackText] on: the
    heading made of the best line of the ranking, if any, and of the
    whole text of the OCR result. *)
Definition selectHeading (clean : bool) (bestLine : option Line.t)
    (dataText : option jsstring) (previewPath : option Path) : Heading.t :=
  let fallbackText := if truthy dataText then trim <$> dataText else None in
  let rawText :=
    Js.orElse (Js.orElse (trim <$> (bestLine ≫= Line.text)) fallbackText) None in
  if negb (truthy rawText) then
    {| Heading.roomName := None;
       Heading.rawText := None;
       Heading.confidence := 0%N;
       Heading.previewPath := None |}
  else
    {| Heading.roomName := if clean then cleanHeading rawText else rawText;
       Heading.rawText := rawText;
       Heading.confidence := default 0%N (bestLine ≫= Line.confidence);
       Heading.previewPath := Js.orElse previewPath None |}.

(** Words separated by single spaces, with no space at the start:
    [first] holds of the first unit of every word and [rest] of its
    other units. [atStart] says that a word starts here. *)
Fixpoint wordShape (first rest : N -> bool) (atStart : bool) (t : jsstring)
  : bool :=
  match t with
  | [] => true
  | c :: r =>
      if (c =? SPACE)%N then negb atStart && wordShape first rest true r
      else (if atStart then first c else rest c) && wordShape first rest false r
  end.

Definition isUpperLetter (c : N) : bool := ((65 <=? c) && (c <=? 90))%N.
Definition isLowerLetter (c : N) : bool := ((97 <=? c) && (c <=? 122))%N.

(** The words of a string capitalized in one pass: the unit at the start
    of a word is upper-cased. *)
Fixpoint capitalizeFrom (atStart : bool) (t : jsstring) : jsstring :=
  match t with
  | [] => []
  | c :: r =>
      if (c =? SPACE)%N then c :: capitalizeFrom true r
      else (if atStart then upperUnit c else c) :: capitalizeFrom false r
  end.

(** ** text-adder.js: the title *)

(** [s.replace(/c/g, by)] for a unit [c] and a replacement without
    [$]. *)
Definition replaceUnit (c : N) (replacement : jsstring) (s : jsstring)
  : jsstring :=
  flat_map (fun x => if (x =? c)%N then replacement else [x]) s.

(** [function escapeXML(value)]. *)
Definition escapeXML (value : jsstring) : jsstring :=
  replaceUnit 62 (str "&gt;")
    (replaceUnit 60 (str "&lt;")
       (replaceUnit 39 (str "&apos;")
          (replaceUnit 34 (str "&quot;")
             (replaceUnit 38 (str "&amp;") value)))).

(** What [escapeXML] makes of one unit. *)
Definition escapeUnit (c : N) : jsstring :=
  if (c =? 38)%N then str "&amp;"
  else if (c =? 34)%N then str "&quot;"
  else if (c =? 39)%N then str "&apos;"
  else if (c =? 60)%N then str "&lt;"
  else if (c =? 62)%N then str "&gt;"
  else [c].

(** [const safeText = escapeXML(text.trim())] of [createTitleSVG]. *)
Definition safeText (text : jsstring) : jsstring := escapeXML (trim text).

(** The two tests at the head of [addTitleToImage]: the error thrown,
    if any. *)
Definition checkTitle (inputImage : option Path) (text : option jsstring)
  : option Error.t :=
  if negb (truthy inputImage) then Some (newError (str "inputImage is required"))
  else if negb (truthy text) || negb (truthy (trim <$> text))
       then Some (newError (str "text must be a non-empty string"))
       else None.

(** The detections come from the detection loop: [normalized] is the
    normalized [roomName || rawText]. *)
Definition normalizedFromHeading (roomDetections : list Detection.t) : Prop :=
  forall i d,
    roomDetections !! i = Some d ->
    Detection.normalized d
    = normalizeRoomName (Js.orElse (Detection.roomName d) (Detection.rawText d)).

(** ** server.js: the [/process] endpoint *)

(** The query parameters that the handler reads, each given at most
    once, as a string. *)
Module Query.
Record t := mk {
  skipConversion : option jsstring;
  skip : option jsstring;
  concurrency : option jsstring;
  continue : option jsstring;
  merge : option jsstring;
  dpi : option jsstring;
  filename : option jsstring
}.
End Query.

(** The response of the handler: [res.status(400).json({ error })], the
    document sent with its [Content-Disposition] file name, or
    [res.status(500).json({ error, message, requestId })]. *)
Inductive Response :=
| BadRequest (error : jsstring)
| SendPdf (pdfBuffer : list N) (outputFilename : jsstring)
| ServerError (error message requestId : jsstring).

(** The calls of the handler on the file system and on [pdfGenerate],
    and its warnings, in the order in which they happen. *)
Inductive ServerEvent :=
| MakeTemp (dir : Path)
| Generate (pdf : Path) (options : Options.t)
| UnlinkUpload (file : Path)
| WarnUnlinkFailed (error : Error.t)
| ReadMerged (file : Path)
| UnlinkMerged (file : Path)
| RemoveTemp (dir : Path)
| WarnCleanupError (error : Error.t).

Section Server.

(** [path.join], [__dirname], [parseInt] ([None] when the result is
    not an integer), the file system, the setting of the response
    headers for a file name, and the awaited call of [pdfGenerate] as
    its completion. *)
Variable join : Path -> Path -> Path.
Variable dirname : Path.
Variable parseInt : jsstring -> option Z.
Variable mkdir : Path -> Result unit.
Variable unlink : Path -> Result unit.
Variable existsSync : Path -> bool.
Variable readFile : Path -> Result (list N).
Variable rm : Path -> Result unit.
Variable setHeaders : jsstring -> Result unit.
Variable generate : Path -> Options.t -> Completion.

(** [path.join(__dirname, "temp", requestId)]. *)
Definition tempDirOf (requestId : jsstring) : Path :=
  join (join dirname (str "temp")) requestId.

(** [req.query.x ? parseInt(req.query.x) : fallback]. *)
Definition queryNumber (value : option jsstring) (fallback : Z) : option Z :=
  if truthy value then parseInt (default [] value) else Some fallback.

(** The [options] object of the handler; [pdfOptions.dpi] is passed
    through to the renderer. *)
Definition optionsOf (query : Query.t) (tempDir : Path) : Options.t :=
  {| Options.pagesDir := Some (join tempDir (str "pdf-pages"));
     Options.outputDir := Some (join tempDir (str "generated"));
     Options.skipConversionPages := queryNumber (Query.skipConversion query) 4;
     Options.skipPages := queryNumber (Query.skip query) 0;
     Options.continueOnError :=
       bool_decide (Query.continue query = Some (str "true"));
     Options.concurrency := queryNumber (Query.concurrency query) 2;
     Options.mergeOutput :=
       negb (bool_decide (Query.merge query = Some (str "false")));
     Options.mergedOutputPath := None |}.

(** [req.query.filename || `processed-${requestId}.pdf`]. *)
Definition outputFilenameOf (query : Query.t) (requestId : jsstring) : jsstring :=
  if truthy (Query.filename query) then default [] (Query.filename query)
  else str "processed-" ++ requestId ++ str ".pdf".

(** The [catch] block of the handler: both deletions are tried, their
    errors are swallowed, and the response is the error. *)
Definition failRequest (uploadedPdfPath tempDir : Path) (requestId : jsstring)
    (error : Error.t) (events : list ServerEvent)
  : option Response * list ServerEvent :=
  (Some (ServerError (str "Failed to process PDF") (Error.message error)
           requestId),
   events ++ [UnlinkUpload uploadedPdfPath; RemoveTemp tempDir]).

(** The [setImmediate] block after the response is sent. *)
Definition cleanupAfterSend (mergedPdfPath tempDir : Path)
    (events : list ServerEvent) : list ServerEvent :=
  let removeTemp events :=
    match rm tempDir with
    | Ok _ => events ++ [RemoveTemp tempDir]
    | Err e => events ++ [RemoveTemp tempDir; WarnCleanupError e]
    end in
  if existsSync mergedPdfPath then
    match unlink mergedPdfPath with
    | Ok _ => removeTemp (events ++ [UnlinkMerged mergedPdfPath])
    | Err e => events ++ [UnlinkMerged mergedPdfPath; WarnCleanupError e]
    end
  else removeTemp events.

(** The handler of [POST /process], for the uploaded file [req.file], if
    any, as its path: the response, once there is one, and the
    events. *)
Definition processRequest (file : option Path) (query : Query.t)
    (requestId : jsstring) : option Response * list ServerEvent :=
  match file with
  | None => (Some (BadRequest (str "No PDF file uploaded")), [])
  | Some uploadedPdfPath =>
      let tempDir := tempDirOf requestId in
      match mkdir tempDir with
      | Err error =>
          failRequest uploadedPdfPath tempDir requestId error [MakeTemp tempDir]
      | Ok _ =>
          let options := optionsOf query tempDir in
          let events := [MakeTemp tempDir; Generate uploadedPdfPath options] in
          match generate uploadedPdfPath options with
          | Running => (None, events)
          | Rejects error =>
              failRequest uploadedPdfPath tempDir requestId error events
          | Resolves result =>
              let events :=
                match unlink uploadedPdfPath with
                | Ok _ => events ++ [UnlinkUpload uploadedPdfPath]
                | Err e =>
                    events ++ [UnlinkUpload uploadedPdfPath; WarnUnlinkFailed e]
                end in
              let mergedPdfPath := default [] (Report.mergedPdfPath result) in
              if negb (truthy (Report.mergedPdfPath result))
                 || negb (existsSync mergedPdfPath)
              then
                failRequest uploadedPdfPath tempDir requestId
                  (newError (str "Failed to generate merged PDF")) events
              else
                match readFile mergedPdfPath with
                | Err error =>
                    failRequest uploadedPdfPath tempDir requestId error
                      (events ++ [ReadMerged mergedPdfPath])
                | Ok pdfBuffer =>
                    let outputFilename := outputFilenameOf query requestId in
                    match setHeaders outputFilename with
                    | Err error =>
                        failRequest uploadedPdfPath tempDir requestId error
                          (events ++ [ReadMerged mergedPdfPath])
                    | Ok _ =>
                        (Some (SendPdf pdfBuffer outputFilename),
                         cleanupAfterSend mergedPdfPath tempDir
                           (events ++ [ReadMerged mergedPdfPath]))
                    end
                end
          end
      end
  end.

End Server.

(** ** pdfToPng.js: the files of the pages *)

Module PdfToPng.

(** The unit of a decimal digit. *)
Definition digit (d : nat) : N := N.of_nat (48 + d).

(** [String(n)] for a non-negative integer [n]: its decimal digits. *)
Equations? numberToString (n : nat) : jsstring by wf n lt :=
  numberToString n with decide (n < 10)%nat => {
    | left _ => [digit n]
    | right _ => numberToString (n / 10) ++ [digit (n mod 10)] }.
Proof. apply Nat.div_lt; lia. Qed.

(** [s.padStart(targetLength, "0")]. *)
Definition padStart (targetLength : nat) (s : jsstring) : jsstring :=
  replicate (targetLength - length s) 48%N ++ s.

(** The options of [pdfToPngs] that name the files, with their
    defaults: [filePrefix = "page"], [padPages = true], [skipPages = 0];
    [skipPages] is an integer, as [pdfGenerate] passes it. *)
Record Naming := mkNaming {
  filePrefix : jsstring;
  padPages : bool;
  skipPages : Z
}.

(** [Math.max(1, skipPages + 1)]. *)
Definition startPageOf (naming : Naming) : nat :=
  Z.to_nat (Z.max 1 (skipPages naming + 1)).

(** [filename] in the body of the loop, for page [pageNum] of
    [totalPages]. *)
Definition fileName (naming : Naming) (totalPages pageNum : nat) : jsstring :=
  let padLength :=
    if padPages naming then length (numberToString totalPages) else 1 in
  let outputPageNum := Z.to_nat (Z.of_nat pageNum - skipPages naming) in
  let pageIndex :=
    if padPages naming then padStart padLength (numberToString outputPageNum)
    else numberToString outputPageNum in
  filePrefix naming ++ str "-" ++ pageIndex ++ str ".png".

Section Render.

(** [path.resolve(outputDir, filename)], [fs.promises.mkdir], the
    loading of the document, which gives its number of pages, and the
    rendering of a page into a file, with its encoding and writing. *)
Variable resolveIn : Path -> jsstring -> Path.
Variable mkdir : Path -> Result unit.
Variable loadDocument : Path -> Result nat.
Variable renderPage : nat -> Path -> Result unit.

(** The loop over the pages [pageNums], with the results so far. *)
Fixpoint renderPages (naming : Naming) (outputDir : Path) (totalPages : nat)
    (pageNums : list nat) (results : list Path) : Result (list Path) :=
  match pageNums with
  | [] => Ok results
  | pageNum :: rest =>
      let outputPath := resolveIn outputDir (fileName naming totalPages pageNum) in
      match renderPage pageNum outputPath with
      | Ok _ => renderPages naming outputDir totalPages rest (results ++ [outputPath])
      | Err e => Err e
      end
  end.

(** [async function pdfToPngs(pdfPath, outputDir, options = {})]. *)
Definition pdfToPngs (pdfPath outputDir : option Path) (naming : Naming)
  : Result (list Path) :=
  if negb (truthy pdfPath) then Err (newError (str "pdfPath is required"))
  else if negb (truthy outputDir) then Err (newError (str "outputDir is required"))
  else
    let pdf := default [] pdfPath in
    let dir := default [] outputDir in
    match mkdir dir with
    | Err e => Err e
    | Ok _ =>
        match loadDocument pdf with
        | Err e => Err e
        | Ok totalPages =>
            let startPage := startPageOf naming in
            renderPages naming dir totalPages
              (seq startPage (totalPages + 1 - startPage)) []
        end
    end.

End Render.

(** The number that a string of decimal digits writes. *)
Definition valueOf (digits : jsstring) : nat :=
  foldl (fun acc c => 10 * acc + (N.to_nat c - 48))%nat 0%nat digits.

End PdfToPng.

(** ** The command line of PDFGenerate.js *)

(** The value of [Number(value)], as far as the command line and
    [pdfGenerate] look at it: [NaN], an integer, or a number that is not
    an integer (a fraction or an infinity) with its sign. *)
Inductive JsNumber :=
| NaN
| Integer (z : Z)
| NonInteger (positive : bool).

(** [parsed >= 0], [parsed > 0] and [Number.isInteger(parsed)]. *)
Definition notNegative (n : JsNumber) : bool :=
  match n with
  | NaN => false
  | Integer z => (0 <=? z)%Z
  | NonInteger positive => positive
  end.

Definition isPositive (n : JsNumber) : bool :=
  match n with
  | NaN => false
  | Integer z => (0 <? z)%Z
  | NonInteger positive => positive
  end.

Definition asInteger (n : JsNumber) : option Z :=
  match n with
  | Integer z => Some z
  | _ => None
  end.

(** The object [cliOptions], with [pdfOptions] flattened into it. A key
    that was not set is [None]; [padPages] and [mergeOutput] are [false]
    when they were set to [false]. *)
Module CliOptions.
Record t := mk {
  pagesDir : option jsstring;
  outputDir : option jsstring;
  skipPages : option JsNumber;
  skipConversionPages : option JsNumber;
  continueOnError : bool;
  concurrency : option JsNumber;
  dpi : option JsNumber;
  filePrefix : option jsstring;
  padPages : bool;
  geminiKeyFile : option jsstring;
  mergeOutput : bool;
  mergedOutputPath : option jsstring
}.

Definition empty : t :=
  {| pagesDir := None; outputDir := None; skipPages := None;
     skipConversionPages := None; continueOnError := false;
     concurrency := None; dpi := None; filePrefix := None; padPages := true;
     geminiKeyFile := None; mergeOutput := true; mergedOutputPath := None |}.

Definition setPagesDir (v : option jsstring) (o : t) : t :=
  {| pagesDir := v;
     outputDir := outputDir o;
     skipPages := skipPages o;
     skipConversionPages := skipConversionPages o;
     continueOnError := continueOnError o;
     concurrency := concurrency o;
     dpi := dpi o;
     filePrefix := filePrefix o;
     padPages := padPages o;
     geminiKeyFile := geminiKeyFile o;
     mergeOutput := mergeOutput o;
     mergedOutputPath := mergedOutputPath o |}.

Definition setOutputDir (v : option jsstring) (o : t) : t :=
  {| pagesDir := pagesDir o;
     outputDir := v;
     skipPages := skipPages o;
     skipConversionPages := skipConversionPages o;
     continueOnError := continueOnError o;
     concurrency := concurrency o;
     dpi := dpi o;
     filePrefix := filePrefix o;
     padPages := padPages o;
     geminiKeyFile := geminiKeyFile o;
     mergeOutput := mergeOutput o;
     mergedOutputPath := mergedOutputPath o |}.

Definition setSkipPages (v : option JsNumber) (o : t) : t :=
  {| pagesDir := pagesDir o;
     outputDir := outputDir o;
     skipPages := v;
     skipConversionPages := skipConversionPages o;
     continueOnError := continueOnError o;
     concurrency := concurrency o;
     dpi := dpi o;
     filePrefix := filePrefix o;
     padPages := padPages o;
     geminiKeyFile := geminiKeyFile o;
     mergeOutput := mergeOutput o;
     mergedOutputPath := mergedOutputPath o |}.

Definition setSkipConversionPages (v : option JsNumber) (o : t) : t :=
  {| pagesDir := pagesDir o;
     outputDir := outputDir o;
     skipPages := skipPages o;
     skipConversionPages := v;
     continueOnError := continueOnError o;
     concurrency := concurrency o;
     dpi := dpi o;
     filePrefix := filePrefix o;
     padPages := padPages o;
     geminiKeyFile := geminiKeyFile o;
     mergeOutput := mergeOutput o;
     mergedOutputPath := mergedOutputPath o |}.

Definition setContinueOnError (v : bool) (o : t) : t :=
  {| pagesDir := pagesDir o;
     outputDir := outputDir o;
     skipPages := skipPages o;
     skipConversionPages := skipConversionPages o;
     continueOnError := v;
     concurrency := concurrency o;
     dpi := dpi o;
     filePrefix := filePrefix o;
     padPages := padPages o;
     geminiKeyFile := geminiKeyFile o;
     mergeOutput := mergeOutput o;
     mergedOutputPath := mergedOutputPath o |}.

Definition setConcurrency (v : option JsNumber) (o : t) : t :=
  {| pagesDir := pagesDir o;
     outputDir := outputDir o;
     skipPages := skipPages o;
     skipConversionPages := skipConversionPages o;
     continueOnError := continueOnError o;
     concurrency := v;
     dpi := dpi o;
     filePrefix := filePrefix o;
     padPages := padPages o;
     geminiKeyFile := geminiKeyFile o;
     mergeOutput := mergeOutput o;
     mergedOutputPath := mergedOutputPath o |}.

Definition setDpi (v : option JsNumber) (o : t) : t :=
  {| pagesDir := pagesDir o;
     outputDir := outputDir o;
     skipPages := skipPages o;
     skipConversionPages := skipConversionPages o;
     continueOnError := continueOnError o;
     concurrency := concurrency o;
     dpi := v;
     filePrefix := filePrefix o;
     padPages := padPages o;
     geminiKeyFile := geminiKeyFile o;
     mergeOutput := mergeOutput o;
     mergedOutputPath := mergedOutputPath o |}.

Definition setFilePrefix (v : option jsstring) (o : t) : t :=
  {| pagesDir := pagesDir o;
     outputDir := outputDir o;
     skipPages := skipPages o;
     skipConversionPages := skipConversionPages o;
     continueOnError := continueOnError o;
     concurrency := concurrency o;
     dpi := dpi o;
     filePrefix := v;
     padPages := padPages o;
     geminiKeyFile := geminiKeyFile o;
     mergeOutput := mergeOutput o;
     mergedOutputPath := mergedOutputPath o |}.

Definition setPadPages (v : bool) (o : t) : t :=
  {| pagesDir := pagesDir o;
     outputDir := outputDir o;
     skipPages := skipPages o;
     skipConversionPages := skipConversionPages o;
     continueOnError := continueOnError o;
     concurrency := concurrency o;
     dpi := dpi o;
     filePrefix := filePrefix o;
     padPages := v;
     geminiKeyFile := geminiKeyFile o;
     mergeOutput := mergeOutput o;
     mergedOutputPath := mergedOutputPath o |}.

Definition setGeminiKeyFile (v : option jsstring) (o : t) : t :=
  {| pagesDir := pagesDir o;
     outputDir := outputDir o;
     skipPages := skipPages o;
     skipConversionPages := skipConversionPages o;
     continueOnError := continueOnError o;
     concurrency := concurrency o;
     dpi := dpi o;
     filePrefix := filePrefix o;
     padPages := padPages o;
     geminiKeyFile := v;
     mergeOutput := mergeOutput o;
     mergedOutputPath := mergedOutputPath o |}.

Definition setMergeOutput (v : bool) (o : t) : t :=
  {| pagesDir := pagesDir o;
     outputDir := outputDir o;
     skipPages := skipPages o;
     skipConversionPages := skipConversionPages o;
     continueOnError := continueOnError o;
     concurrency := concurrency o;
     dpi := dpi o;
     filePrefix := filePrefix o;
     padPages := padPages o;
     geminiKeyFile := geminiKeyFile o;
     mergeOutput := v;
     mergedOutputPath := mergedOutputPath o |}.

Definition setMergedOutputPath (v : option jsstring) (o : t) : t :=
  {| pagesDir := pagesDir o;
     outputDir := outputDir o;
     skipPages := skipPages o;
     skipConversionPages := skipConversionPages o;
     continueOnError := continueOnError o;
     concurrency := concurrency o;
     dpi := dpi o;
     filePrefix := filePrefix o;
     padPages := padPages o;
     geminiKeyFile := geminiKeyFile o;
     mergeOutput := mergeOutput o;
     mergedOutputPath := v |}.

End CliOptions.

(** [s.split("=")]: the pieces between the [=] signs; [cur] is the piece
    being read. *)
Fixpoint splitEqualsFrom (cur : jsstring) (s : jsstring) : list jsstring :=
  match s with
  | [] => [cur]
  | c :: r =>
      if (c =? 61)%N then cur :: splitEqualsFrom [] r
      else splitEqualsFrom (cur ++ [c]) r
  end.

(** The names of the flags that the loop knows. *)
Definition knownFlags : list jsstring :=
  [str "pagesDir"; str "outputDir"; str "skip"; str "skip-conversion";
   str "continue"; str "concurrency"; str "dpi"; str "prefix"; str "no-pad";
   str "gemini-key"; str "no-merge"; str "merged-output"].

Section CommandLine.

(** [Number(value)], for a value that may be [undefined]. *)
Variable toNumber : option jsstring -> JsNumber.

(** [const [flag, value] = arg.slice(2).split("=")]. *)
Definition flagOf (arg : jsstring) : jsstring :=
  default [] (splitEqualsFrom [] (drop 2 arg) !! 0).

Definition flagValue (arg : jsstring) : option jsstring :=
  splitEqualsFrom [] (drop 2 arg) !! 1.

(** The body of the loop over the arguments after the first. *)
Definition parseArg (cliOptions : CliOptions.t) (arg : jsstring)
  : CliOptions.t :=
  if negb (bool_decide (take 2 arg = str "--")) then cliOptions
  else
    let flag := flagOf arg in
    let value := flagValue arg in
    let parsed := toNumber value in
    if bool_decide (flag = str "pagesDir") then
      CliOptions.setPagesDir value cliOptions
    else if bool_decide (flag = str "outputDir") then
      CliOptions.setOutputDir value cliOptions
    else if bool_decide (flag = str "skip") then
      match parsed with
      | NaN => cliOptions
      | _ => CliOptions.setSkipPages (Some parsed) cliOptions
      end
    else if bool_decide (flag = str "skip-conversion") then
      if notNegative parsed
      then CliOptions.setSkipConversionPages (Some parsed) cliOptions
      else cliOptions
    else if bool_decide (flag = str "continue") then
      CliOptions.setContinueOnError true cliOptions
    else if bool_decide (flag = str "concurrency") then
      if isPositive parsed
      then CliOptions.setConcurrency (Some parsed) cliOptions
      else cliOptions
    else if bool_decide (flag = str "dpi") then
      if isPositive parsed
      then CliOptions.setDpi (Some parsed) cliOptions
      else cliOptions
    else if bool_decide (flag = str "prefix") then
      CliOptions.setFilePrefix value cliOptions
    else if bool_decide (flag = str "no-pad") then
      CliOptions.setPadPages false cliOptions
    else if bool_decide (flag = str "gemini-key") then
      CliOptions.setGeminiKeyFile value cliOptions
    else if bool_decide (flag = str "no-merge") then
      CliOptions.setMergeOutput false cliOptions
    else if bool_decide (flag = str "merged-output") then
      CliOptions.setMergedOutputPath value cliOptions
    else cliOptions.

(** [for (const arg of argv.slice(1)) { ... }]. *)
Definition parseArgs (args : list jsstring) : CliOptions.t :=
  foldl parseArg CliOptions.empty args.

End CommandLine.

(** The options of [cliOptions] as [pdfGenerate] reads them. *)
Definition optionsOfCli (cliOptions : CliOptions.t) : Options.t :=
  {| Options.pagesDir := CliOptions.pagesDir cliOptions;
     Options.outputDir := CliOptions.outputDir cliOptions;
     Options.skipConversionPages :=
       CliOptions.skipConversionPages cliOptions ≫= asInteger;
     Options.skipPages := CliOptions.skipPages cliOptions ≫= asInteger;
     Options.continueOnError := CliOptions.continueOnError cliOptions;
     Options.concurrency := CliOptions.concurrency cliOptions ≫= asInteger;
     Options.mergeOutput := CliOptions.mergeOutput cliOptions;
     Options.mergedOutputPath := CliOptions.mergedOutputPath cliOptions |}.

(** ** A small world to run the definitions in *)

Module Demo.

Definition pages : list Path := [str "p0.png"; str "p1.png"; str "p2.png"].

Definition boom : Error.t := newError (str "image generation failed").

Definition resolve (p : Path) : Path := p.

(** The extension from the last dot on, for the file names used here. *)
Fixpoint extname (file : Path) : jsstring :=
  match file with
  | [] => []
  | c :: r =>
      match extname r with
      | [] => if (c =? 46)%N then c :: r else []
      | ext => ext
      end
  end.

Definition join (dir file : Path) : Path := dir ++ str "/" ++ file.
Definition basename (file : Path) : Path := file.
Definition existsSync (dir : Path) : bool := true.

(** The listing of a directory: [files] for the output directory and
    nothing elsewhere. *)
Definition readdir (files : list Path) (dir : Path) : Result (list Path) :=
  if bool_decide (dir = str "generated") then Ok files else Ok [].

Definition embedImages (files : list Path) : Result (list N) := Ok (str "%PDF").
Definition writeFile (file : Path) (data : list N) : Result unit := Ok ().
Definition unlink (file : Path) : Result unit := Ok ().
Definition pdfToPngs (pdf pagesDir : Path) (skip : Z) : Result (list Path) :=
  Ok pages.

(** No heading is found on any page: every page is a group of its own. *)
Definition identifyRoomName (page : Path) : Result Heading.t :=
  Ok (Heading.mk None None 0%N None).

(** The render of every group succeeds, but for the group of the page
    [failing]. *)
Definition describePageAndGenerate (failing : option Path)
    (group : list Path) (context : RoomContext.t) : Result GenResult.t :=
  if bool_decide (head group = failing) then Err boom
  else Ok (GenResult.mk (str "a room") (default [] (head group) ++ str "-render.png")).

Definition addTitleToImage (image : Path) (title : jsstring) : Result unit :=
  Ok ().

Definition options (continueOnError : bool) (concurrency : Z) : Options.t :=
  {| Options.pagesDir := None;
     Options.outputDir := None;
     Options.skipConversionPages := None;
     Options.skipPages := None;
     Options.continueOnError := continueOnError;
     Options.concurrency := Some concurrency;
     Options.mergeOutput := true;
     Options.mergedOutputPath := None |}.

(** [pdfGenerate] in this world; [rendered] is what the output directory
    lists when the merge step reads it. *)
Definition generate (failing : option Path) (rendered : list Path)
    (o : Options.t) (schedule : list nat) : Completion * list Event :=
  pdfGenerate resolve extname join basename existsSync (readdir rendered)
    embedImages writeFile unlink pdfToPngs identifyRoomName
    (describePageAndGenerate failing) addTitleToImage
    (Some (str "plan.pdf")) o schedule.

Definition detections : list Detection.t :=
  map (fun page => detectionOf page (Heading.mk None None 0%N None)) pages.

(** The pool of this world after [schedule]. *)
Definition pool (failing : option Path) (continueOnError : bool)
    (concurrency : nat) (schedule : list nat) : Pool :=
  runPool pages detections (groupPages pages detections) continueOnError
    (describePageAndGenerate failing) addTitleToImage schedule
    (startPool pages (groupPages pages detections)
       (workerCountOf (groupPages pages detections) concurrency) []).

End Demo.

(** ** A second world: headings, a server, a command line *)

Module Sample.

Definition unreadable : Error.t := newError (str "cannot read the page").

(** The detection fails on the second page. *)
Definition identifyFailing (page : Path) : Result Heading.t :=
  if bool_decide (page = str "p1.png") then Err unreadable
  else Ok (Heading.mk None None 0%N None).

(** Every page has the heading of a kitchen, read from one line. *)
Definition kitchen : Heading.t :=
  selectHeading true (Some (Line.mk (Some (str " KITCHEN 1 ")) (Some 90%N)))
    None None.

Definition identifyKitchen (page : Path) : Result Heading.t := Ok kitchen.

Definition kitchenDetections : list Detection.t :=
  map (detectionFor identifyKitchen) Demo.pages.

Definition kitchenGroup : Group.t :=
  {| Group.groupId := 1;
     Group.pageIndices := [0; 1; 2];
     Group.pages := Demo.pages;
     Group.roomName := Some (str "Kitchen");
     Group.normalizedName := Some (str "kitchen") |}.

(** The report of the run of [Demo] in which one render is listed. *)
Definition report : Report.t :=
  {| Report.pagesDir := str "pdf-pages";
     Report.outputDir := str "generated";
     Report.pageImages := Demo.pages;
     Report.processedPages :=
       processedPages (Demo.pool None true 2 (roundRobin 2 4));
     Report.skipPages := Some 0%Z;
     Report.concurrency := Some 2;
     Report.groups := Some (groupPages Demo.pages Demo.detections);
     Report.roomDetections := Some Demo.detections;
     Report.mergedPdfPath := Some (str "merged-output.pdf") |}.

(** Options that skip from the end, for a document without pages. *)
Definition skipFromEnd : Options.t :=
  {| Options.pagesDir := None;
     Options.outputDir := None;
     Options.skipConversionPages := None;
     Options.skipPages := Some (-1)%Z;
     Options.continueOnError := true;
     Options.concurrency := None;
     Options.mergeOutput := true;
     Options.mergedOutputPath := None |}.

Definition noPages (pdf pagesDir : Path) (skip : Z) : Result (list Path) :=
  Ok [].

(** A server whose file system never fails, and whose output directory
    lists one render whatever its path. *)
Definition parseInt (s : jsstring) : option Z :=
  if bool_decide (s = str "1") then Some 1%Z else None.

Definition mkdir (dir : Path) : Result unit := Ok ().
Definition readFile (file : Path) : Result (list N) := Ok (str "%PDF").
Definition rm (dir : Path) : Result unit := Ok ().
Definition setHeaders (name : jsstring) : Result unit := Ok ().
Definition readdir (dir : Path) : Result (list Path) := Ok [str "render.png"].

Definition schedule : list nat := roundRobin 2 4.

Definition generate (pdf : Path) (o : Options.t) : Completion :=
  (pdfGenerate Demo.resolve Demo.extname Demo.join Demo.basename
     Demo.existsSync readdir Demo.embedImages Demo.writeFile Demo.unlink
     Demo.pdfToPngs Demo.identifyRoomName (Demo.describePageAndGenerate None)
     Demo.addTitleToImage (Some pdf) o schedule).1.

Definition handle (file : option Path) (query : Query.t) (requestId : jsstring)
  : option Response * list ServerEvent :=
  processRequest Demo.join (str "/srv") parseInt mkdir Demo.unlink
    Demo.existsSync readFile rm setHeaders generate file query requestId.

Definition query (merge : option jsstring) : Query.t :=
  {| Query.skipConversion := None;
     Query.skip := None;
     Query.concurrency := None;
     Query.continue := Some (str "true");
     Query.merge := merge;
     Query.dpi := None;
     Query.filename := None |}.

(** A document of twelve pages, rendered without failure. *)
Definition resolveIn (dir : Path) (file : jsstring) : Path :=
  dir ++ str "/" ++ file.
Definition loadDocument (pdf : Path) : Result nat := Ok 12.
Definition renderPage (pageNum : nat) (file : Path) : Result unit := Ok ().

(** [Number] on the values used here. *)
Definition toNumber (value : option jsstring) : JsNumber :=
  if bool_decide (value = Some (str "2")) then Integer 2
  else if bool_decide (value = Some (str "2.5")) then NonInteger true
  else NaN.

End Sample.

(** * Properties *)

Example normalize_kitchen :
  normalizeRoomName (Some (str "  Master-Bedroom #2 ")) = Some (str "master bedroom 2").
Proof. reflexivity. Qed.

Example normalize_blank :
  normalizeRoomName (Some (str "   ")) = Some [].
Proof. reflexivity. Qed.

Example groups_ex :
  map Group.pageIndices
    (groupPages [str "p0"; str "p1"; str "p2"; str "p3"; str "p4"]
       (zip_with detectionOf [str "p0"; str "p1"; str "p2"; str "p3"; str "p4"]
          [Heading.mk (Some (str "Kitchen")) (Some (str "Kitchen")) 90%N None;
           Heading.mk (Some (str "Kitchen")) (Some (str "KITCHEN")) 88%N None;
           Heading.mk (Some (str "Bedroom")) (Some (str "Bedroom")) 70%N None;
           Heading.mk None None 0%N None;
           Heading.mk None None 0%N None]))
  = [[0; 1]; [2]; [3]; [4]].
Proof. vm_compute. reflexivity. Qed.

(** ** Strings *)

Section Strings.

Local Open Scope N_scope.

Local Ltac units :=
  intros; unfold notLowerAlnum in *;
  unfold isLowerAlnum, isWhiteSpace, SPACE in *;
  repeat progress
    (rewrite ?negb_true_iff, ?negb_false_iff,
       ?andb_true_iff, ?orb_true_iff, ?andb_false_iff, ?orb_false_iff,
       ?N.leb_le, ?N.leb_gt, ?N.eqb_eq, ?N.eqb_neq in * );
  lia.

Lemma alnum_not_space c : isLowerAlnum c = true -> (c =? SPACE) = false.
Proof. units. Qed.

Lemma alnum_not_white c : isLowerAlnum c = true -> isWhiteSpace c = false.
Proof. units. Qed.

Lemma space_not_alnum c : (c =? SPACE) = true -> isLowerAlnum c = false.
Proof. units. Qed.

Lemma space_white c : (c =? SPACE) = true -> isWhiteSpace c = true.
Proof. units. Qed.

Lemma alnum_lower c : isLowerAlnum c = true -> lowerUnit c = [c].
Proof.
  intros H. unfold lowerUnit.
  destruct ((65 <=? c) && (c <=? 90)) eqn:H1; [units|].
  destruct (c =? 8490) eqn:H2; [units|].
  destruct (c =? 304) eqn:H3; [units|]. done.
Qed.

Lemma space_lower c : (c =? SPACE) = true -> lowerUnit c = [c].
Proof. intros ->%N.eqb_eq. reflexivity. Qed.

Lemma spaced_weaken b t : spaced true t = true -> spaced b t = true.
Proof.
  destruct t as [|c r]; [done|]. simpl.
  destruct (c =? SPACE); [done|]. by destruct b.
Qed.

(** The first replacement leaves words with single spaces. *)
Lemma spaced_replaceRuns b s :
  spaced b (replaceRunsFrom notLowerAlnum b s) = true.
Proof.
  revert b. induction s as [|c r IH]; intros b; [done|].
  simpl. unfold notLowerAlnum at 1.
  destruct (isLowerAlnum c) eqn:Hc; simpl.
  - rewrite (alnum_not_space c Hc), Hc. apply IH.
  - destruct b; [apply IH|]. simpl. apply IH.
Qed.

(** A replacement of the runs of a class that has the space and no unit
    of [[a-z0-9]] changes nothing in such a string. *)
Lemma replaceRuns_spaced (C : N -> bool) b t :
  (forall c, (c =? SPACE) = true -> C c = true) ->
  (forall c, isLowerAlnum c = true -> C c = false) ->
  spaced b t = true -> replaceRunsFrom C b t = t.
Proof.
  intros Hsp Hal. revert b. induction t as [|c r IH]; intros b H; [done|].
  simpl in *. destruct (c =? SPACE) eqn:Hc.
  - apply andb_prop in H as [Hb Hr]. rewrite (Hsp c Hc).
    destruct b; [done|]. apply N.eqb_eq in Hc. rewrite <- Hc at 1.
    f_equal. by apply IH.
  - apply andb_prop in H as [Ha Hr]. rewrite (Hal c Ha). f_equal. by apply IH.
Qed.

Lemma spaced_trimStart b t :
  spaced b t = true -> spaced true (trimStart t) = true.
Proof.
  revert b. induction t as [|c r IH]; intros b H; [done|].
  simpl in *. destruct (c =? SPACE) eqn:Hc.
  - apply andb_prop in H as [_ Hr]. rewrite (space_white c Hc). by eapply IH.
  - apply andb_prop in H as [Ha Hr]. rewrite (alnum_not_white c Ha).
    simpl. by rewrite Hc, Ha.
Qed.

Lemma spaced_trimEnd b t :
  spaced b t = true -> spaced b (trimEnd t) = true.
Proof.
  revert b. induction t as [|c r IH]; intros b H; [done|].
  simpl in *. destruct (c =? SPACE) eqn:Hc.
  - apply andb_prop in H as [Hb Hr]. specialize (IH _ Hr).
    destruct (trimEnd r) as [|c' r'] eqn:Hte.
    + by rewrite (space_white c Hc).
    + simpl. rewrite Hc, Hb. exact IH.
  - apply andb_prop in H as [Ha Hr]. specialize (IH _ Hr).
    destruct (trimEnd r) as [|c' r'] eqn:Hte.
    + rewrite (alnum_not_white c Ha). simpl. by rewrite Hc, Ha.
    + simpl. rewrite Hc, Ha. exact IH.
Qed.

Lemma trimEnd_idem t : trimEnd (trimEnd t) = trimEnd t.
Proof.
  induction t as [|c r IH]; [done|]. simpl.
  destruct (trimEnd r) as [|c' r'] eqn:Hte.
  - destruct (isWhiteSpace c) eqn:Hw; [done|]. simpl. by rewrite Hw.
  - change (trimEnd (c :: c' :: r')) with
      (match trimEnd (c' :: r') with
       | [] => if isWhiteSpace c then [] else [c]
       | x => c :: x end).
    by rewrite IH.
Qed.

Lemma trimStart_spaced t : spaced true t = true -> trimStart t = t.
Proof.
  destruct t as [|c r]; [done|]. simpl.
  destruct (c =? SPACE) eqn:Hc; [done|].
  intros [Ha _]%andb_prop. by rewrite (alnum_not_white c Ha).
Qed.

Lemma toLowerCase_spaced b t : spaced b t = true -> toLowerCase t = t.
Proof.
  revert b. induction t as [|c r IH]; intros b H; [done|].
  unfold toLowerCase in *. simpl in *. destruct (c =? SPACE) eqn:Hc.
  - apply andb_prop in H as [_ Hr]. rewrite (space_lower c Hc). simpl.
    f_equal. by eapply IH.
  - apply andb_prop in H as [Ha Hr]. rewrite (alnum_lower c Ha). simpl.
    f_equal. by eapply IH.
Qed.

(** The scan with a flag and the collapse of the specification agree. *)
Lemma replaceRuns_collapse s :
  replaceRunsFrom notLowerAlnum false s = collapseRuns s
  /\ forall c, isLowerAlnum c = false ->
       SPACE :: replaceRunsFrom notLowerAlnum true s = collapseRuns (c :: s).
Proof.
  induction s as [|c' r [IH1 IH2]].
  - split; [done|]. intros c Hc. simpl. by rewrite Hc.
  - split.
    + simpl. unfold notLowerAlnum at 1.
      destruct (isLowerAlnum c') eqn:Hc'; simpl.
      * by rewrite IH1.
      * rewrite (IH2 c' Hc'). simpl. by rewrite Hc'.
    + intros c Hc. change (collapseRuns (c :: c' :: r)) with
        (if isLowerAlnum c then c :: collapseRuns (c' :: r)
         else if isLowerAlnum c' then SPACE :: collapseRuns (c' :: r)
              else collapseRuns (c' :: r)).
      rewrite Hc. simpl replaceRunsFrom. unfold notLowerAlnum at 1.
      destruct (isLowerAlnum c') eqn:Hc'; simpl negb; cbv iota.
      * f_equal. simpl. rewrite Hc'. by rewrite IH1.
      * by rewrite (IH2 c' Hc').
Qed.

(** The second replacement, of [\s+], finds nothing to change. *)
Lemma normalize_chain s :
  trim (replaceRuns isWhiteSpace (replaceRuns notLowerAlnum (toLowerCase s)))
  = canonicalName s.
Proof.
  unfold canonicalName, replaceRuns.
  rewrite (replaceRuns_spaced isWhiteSpace false).
  - by rewrite (proj1 (replaceRuns_collapse _)).
  - apply space_white.
  - apply alnum_not_white.
  - apply spaced_replaceRuns.
Qed.

Lemma canonicalName_spaced s : spaced true (canonicalName s) = true.
Proof.
  unfold canonicalName, trim.
  rewrite <- (proj1 (replaceRuns_collapse _)).
  apply spaced_trimEnd, (spaced_trimStart false), spaced_replaceRuns.
Qed.

(** A canonical name is a fixed point of the chain. *)
Lemma canonicalName_idem s : canonicalName (canonicalName s) = canonicalName s.
Proof.
  pose proof (canonicalName_spaced s) as Hsp.
  unfold canonicalName at 1.
  rewrite (toLowerCase_spaced true _ Hsp).
  rewrite <- (proj1 (replaceRuns_collapse _)).
  rewrite (replaceRuns_spaced notLowerAlnum false).
  - unfold trim. rewrite (trimStart_spaced _ Hsp).
    unfold canonicalName, trim. apply trimEnd_idem.
  - intros c Hc. unfold notLowerAlnum. by rewrite (space_not_alnum c Hc).
  - intros c Hc. unfold notLowerAlnum. by rewrite Hc.
  - by apply spaced_weaken.
Qed.

Lemma white_lower c : isWhiteSpace c = true -> lowerUnit c = [c].
Proof.
  intros H. unfold lowerUnit.
  destruct ((65 <=? c) && (c <=? 90)) eqn:H1; [units|].
  destruct (c =? 8490) eqn:H2; [units|].
  destruct (c =? 304) eqn:H3; [units|]. done.
Qed.

Lemma white_not_alnum c : isWhiteSpace c = true -> notLowerAlnum c = true.
Proof. units. Qed.

Lemma replaceRuns_white s :
  forallb isWhiteSpace s = true -> replaceRunsFrom notLowerAlnum true s = [].
Proof.
  induction s as [|c r IH]; [done|]. simpl.
  intros [Hc Hr]%andb_prop. rewrite (white_not_alnum c Hc). by apply IH.
Qed.

Lemma toLowerCase_white s : forallb isWhiteSpace s = true -> toLowerCase s = s.
Proof.
  unfold toLowerCase. induction s as [|c r IH]; [done|]. simpl.
  intros [Hc Hr]%andb_prop. rewrite (white_lower c Hc). simpl. f_equal. by apply IH.
Qed.

(** A string of white space only has the empty canonical name. *)
Lemma canonicalName_white s :
  forallb isWhiteSpace s = true -> canonicalName s = [].
Proof.
  intros Hs. unfold canonicalName.
  rewrite (toLowerCase_white s Hs), <- (proj1 (replaceRuns_collapse _)).
  destruct s as [|c r]; [done|]. simpl in *.
  apply andb_prop in Hs as [Hc Hr].
  rewrite (white_not_alnum c Hc), (replaceRuns_white r Hr). reflexivity.
Qed.

Lemma normalizeRoomName_some s :
  s <> [] -> normalizeRoomName (Some s) = Some (canonicalName s).
Proof.
  intros Hs. unfold normalizeRoomName. destruct s as [|c r]; [done|].
  simpl truthy. cbv iota. by rewrite normalize_chain.
Qed.

End Strings.

(** ** The grouping loop *)

Section GroupingFacts.

Variable pagesToProcess : list Path.
Variable roomDetections : list Detection.t.

Abbreviation absorb := (absorbPages pagesToProcess roomDetections).
Abbreviation same := (sameRoom roomDetections).
Abbreviation normAt := (normalizedAt roomDetections).
Abbreviation run := (groupRun pagesToProcess roomDetections).
Abbreviation from := (groupsFrom pagesToProcess roomDetections).

Lemma absorbPages_step n c g :
  absorb n c g =
  if decide (c < length pagesToProcess) then
    if same n c
    then absorb n (c + 1) (Group.push g c (pagesToProcess !!! c))
    else (c, g)
  else (c, g).
Proof.
  etrans; [apply absorbPages_unfold_eq|].
  unfold absorbPages_unfold, absorbPages_unfold_clause_1,
    absorbPages_unfold_clause_1_clause_2.
  destruct (decide (c < length pagesToProcess)); [destruct (same n c)|];
    reflexivity.
Qed.

Lemma groupLoop_step index groups :
  groupLoop pagesToProcess roomDetections index groups =
  if decide (index < length pagesToProcess) then
    groupLoop pagesToProcess roomDetections
      (closeGroup pagesToProcess roomDetections index (length groups)).1
      (groups ++ [(closeGroup pagesToProcess roomDetections index (length groups)).2])
  else groups.
Proof.
  etrans; [apply groupLoop_unfold_eq|].
  unfold groupLoop_unfold, groupLoop_unfold_clause_1.
  destruct (decide (index < length pagesToProcess)); reflexivity.
Qed.

(** The inner loop absorbs a run of [m] pages that pass its test, and
    stops at the end of the pages or at a page that fails it. *)
Lemma absorbPages_spec k n c g :
  length pagesToProcess - c = k ->
  exists m,
    (absorb n c g).1 = c + m
    /\ Group.pageIndices (absorb n c g).2 = Group.pageIndices g ++ seq c m
    /\ Group.pages (absorb n c g).2
        = Group.pages g ++ map (pagesToProcess !!!.) (seq c m)
    /\ Group.groupId (absorb n c g).2 = Group.groupId g
    /\ Group.roomName (absorb n c g).2 = Group.roomName g
    /\ Group.normalizedName (absorb n c g).2 = Group.normalizedName g
    /\ (c <= length pagesToProcess -> c + m <= length pagesToProcess)
    /\ (forall j, c <= j < c + m -> same n j = true)
    /\ (c + m < length pagesToProcess -> same n (c + m) = false).
Proof.
  revert c g. induction k as [|k IH]; intros c g Hk;
    rewrite absorbPages_step;
    destruct (decide (c < length pagesToProcess)) as [Hlt|Hge]; try lia.
  - exists 0. rewrite !Nat.add_0_r, !app_nil_r. simpl. repeat split; lia.
  - destruct (same n c) eqn:Hsame.
    + destruct (IH (c + 1) (Group.push g c (pagesToProcess !!! c)))
        as (m & H1 & H2 & H3 & H4 & H5 & H6 & H7 & H8 & H9); [lia|].
      exists (S m). rewrite H1, H2, H3, H4, H5, H6. simpl.
      rewrite <- !app_assoc. simpl. rewrite !Nat.add_1_r.
      repeat split; try done; try lia.
      * intros j Hj. destruct (decide (j = c)) as [->|]; [done|].
        apply H8. lia.
      * intros Hlt'. replace (c + S m) with (c + 1 + m) by lia.
        apply H9. lia.
    + exists 0. rewrite !Nat.add_0_r, !app_nil_r. simpl.
      repeat split; try done; try lia.
Qed.

(** One pass of the outer loop closes a run that starts at [index]. *)
Lemma closeGroup_spec index closed :
  index < length pagesToProcess ->
  exists len,
    (closeGroup pagesToProcess roomDetections index closed).1 = index + len
    /\ run (closeGroup pagesToProcess roomDetections index closed).2 index len
    /\ Group.groupId (closeGroup pagesToProcess roomDetections index closed).2
        = closed + 1.
Proof.
  intros Hlt. unfold closeGroup.
  destruct (truthy (normAt index)) eqn:Htr.
  - destruct (absorbPages_spec _ (normAt index) (index + 1)
                (openGroup pagesToProcess roomDetections index closed) eq_refl)
      as (m & H1 & H2 & H3 & H4 & H5 & H6 & H7 & H8 & H9).
    exists (S m). rewrite H1. split; [lia|]. split; [|by rewrite H4].
    split.
    + rewrite H2. simpl. by rewrite Nat.add_1_r.
    + rewrite H3. simpl. by rewrite Nat.add_1_r.
    + lia.
    + lia.
    + by rewrite H5.
    + by rewrite H6.
    + intros j Hj. apply H8. lia.
    + congruence.
    + intros _ Hb. replace (index + S m) with (index + 1 + m) by lia.
      apply H9. lia.
  - exists 1. simpl. split; [done|]. split; [|done].
    split; simpl; try done; try lia. congruence.
Qed.

(** The loop pushes consecutive runs up to the last page. *)
Lemma groupLoop_spec k index groups :
  length pagesToProcess - index <= k ->
  exists gs,
    groupLoop pagesToProcess roomDetections index groups = groups ++ gs
    /\ from index (length groups) gs.
Proof.
  revert index groups. induction k as [|k IH]; intros index groups Hk;
    rewrite groupLoop_step;
    destruct (decide (index < length pagesToProcess)) as [Hlt|Hge]; try lia.
  - exists []. rewrite app_nil_r. split; [done|]. constructor. lia.
  - destruct (closeGroup_spec index (length groups) Hlt) as (len & H1 & H2 & H3).
    pose proof (run_size _ _ _ _ _ H2).
    destruct (IH (closeGroup pagesToProcess roomDetections index (length groups)).1
                (groups ++ [(closeGroup pagesToProcess roomDetections index
                               (length groups)).2])) as (gs & Hgs & Hfrom).
    { rewrite H1. lia. }
    eexists (_ :: gs). rewrite Hgs, <- app_assoc. split; [done|].
    rewrite length_app, H1 in Hfrom. simpl in Hfrom.
    econstructor; eauto.
  - exists []. rewrite app_nil_r. split; [done|]. constructor. lia.
Qed.

Lemma from_concat index closed gs :
  from index closed gs -> index <= length pagesToProcess ->
  concat (map Group.pageIndices gs) = seq index (length pagesToProcess - index).
Proof.
  induction 1 as [index closed Hge|index closed g len rest Hlt Hrun Hid _ IH];
    intros Hle.
  - by replace (length pagesToProcess - index) with 0 by lia.
  - simpl. pose proof (run_bound _ _ _ _ _ Hrun).
    rewrite IH, (run_indices _ _ _ _ _ Hrun) by lia.
    replace (length pagesToProcess - index)
      with (len + (length pagesToProcess - (index + len))) by lia.
    by rewrite seq_app.
Qed.

(** The [k]-th group pushed is a run, numbered [k + 1] after the closed
    ones, and the groups after it start where it ends. *)
Lemma from_lookup index closed gs k g :
  from index closed gs -> gs !! k = Some g ->
  exists start len,
    run g start len /\ index + k <= start
    /\ Group.groupId g = closed + k + 1
    /\ from (start + len) (closed + k + 1) (drop (S k) gs).
Proof.
  intros Hfrom. revert k.
  induction Hfrom as [|index closed g' len rest Hlt Hrun Hid Hrest IH];
    intros k Hk; [done|].
  destruct k as [|k]; simpl in Hk.
  - injection Hk as ->. exists index, len.
    rewrite !Nat.add_0_r. simpl. rewrite drop_0. done.
  - destruct (IH k Hk) as (start & len' & H1 & H2 & H3 & H4).
    pose proof (run_size _ _ _ _ _ Hrun).
    exists start, len'. split; [done|]. split; [lia|].
    split; [lia|]. simpl. by replace (closed + S k + 1) with (closed + 1 + k + 1) by lia.
Qed.

(** Every page from [index] on is in one of the runs. *)
Lemma from_cover index closed gs i :
  from index closed gs -> index <= i < length pagesToProcess ->
  exists k g start len,
    gs !! k = Some g /\ run g start len /\ start <= i < start + len.
Proof.
  induction 1 as [index closed Hge|index closed g len rest Hlt Hrun Hid _ IH];
    intros Hi; [lia|].
  destruct (decide (i < index + len)) as [Hin|Hout].
  - exists 0, g, index, len. split; [done|]. split; [done|]. lia.
  - destruct IH as (k & g' & start & len' & H1 & H2 & H3); [lia|].
    exists (S k), g', start, len'. done.
Qed.

(** Inside a run every page has the normalized name of the first one,
    and this name is truthy as soon as the run has a second page. *)
Lemma run_same g start len j :
  run g start len -> start <= j < start + len -> normAt j = normAt start.
Proof.
  intros Hrun Hj. destruct (decide (j = start)) as [->|Hne]; [done|].
  assert (same (normAt start) j = true) as Hs
    by (apply (run_absorbed _ _ _ _ _ Hrun); lia).
  unfold sameRoom in Hs. apply andb_prop in Hs as [_ Hs].
  by apply bool_decide_eq_true in Hs.
Qed.

Lemma run_truthy g start len j :
  run g start len -> start < j < start + len -> truthy (normAt j) = true.
Proof.
  intros Hrun Hj.
  assert (same (normAt start) j = true) as Hs
    by (apply (run_absorbed _ _ _ _ _ Hrun); lia).
  unfold sameRoom in Hs. by apply andb_prop in Hs as [Hs _].
Qed.

Lemma groupPages_from :
  from 0 0 (groupPages pagesToProcess roomDetections).
Proof.
  destruct (groupLoop_spec (length pagesToProcess) 0 []) as (gs & Hgs & Hfrom);
    [lia|].
  unfold groupPages. by rewrite Hgs.
Qed.

End GroupingFacts.

Lemma groupPages_concat pages dets :
  concat (map Group.pageIndices (groupPages pages dets)) = seq 0 (length pages).
Proof.
  rewrite (from_concat pages dets 0 0); [|apply groupPages_from|lia].
  by rewrite Nat.sub_0_r.
Qed.

Lemma groupPages_lookup pages dets k g :
  groupPages pages dets !! k = Some g ->
  exists start len,
    groupRun pages dets g start len /\ k <= start
    /\ Group.groupId g = k + 1
    /\ groupsFrom pages dets (start + len) (k + 1)
         (drop (S k) (groupPages pages dets)).
Proof.
  intros Hk.
  destruct (from_lookup pages dets 0 0 _ k g (groupPages_from pages dets) Hk)
    as (start & len & H1 & H2 & H3 & H4).
  by exists start, len.
Qed.

Lemma groupPages_elem pages dets g :
  g ∈ groupPages pages dets ->
  exists start len, groupRun pages dets g start len.
Proof.
  intros [k Hk]%list_elem_of_lookup.
  destruct (groupPages_lookup pages dets k g Hk) as (start & len & H1 & _).
  by exists start, len.
Qed.

Lemma groupPages_cover pages dets i :
  i < length pages ->
  exists g start len,
    g ∈ groupPages pages dets /\ groupRun pages dets g start len
    /\ start <= i < start + len.
Proof.
  intros Hi.
  destruct (from_cover pages dets 0 0 _ i (groupPages_from pages dets))
    as (k & g & start & len & H1 & H2 & H3); [lia|].
  exists g, start, len. split; [|done]. apply list_elem_of_lookup. eauto.
Qed.

Lemma sameGroup_true groups i j :
  sameGroup groups i j = true <->
  exists g, g ∈ groups /\ i ∈ Group.pageIndices g /\ j ∈ Group.pageIndices g.
Proof.
  unfold sameGroup. rewrite existsb_exists. split.
  - intros (g & Hg & [Hi Hj]%andb_prop). exists g.
    apply list_elem_of_In in Hg.
    apply bool_decide_eq_true in Hi, Hj. done.
  - intros (g & Hg & Hi & Hj). exists g. split; [by apply list_elem_of_In|].
    apply andb_true_intro. split; by apply bool_decide_eq_true.
Qed.

Lemma elem_of_seq_iff start len i : i ∈ seq start len <-> start <= i < start + len.
Proof. rewrite list_elem_of_In, in_seq. done. Qed.

(** Two consecutive pages are in one group exactly when the first has a
    truthy normalized name and the second has the same. *)
Lemma sameGroup_adjacent pages dets i :
  length dets = length pages -> i + 1 < length pages ->
  sameGroup (groupPages pages dets) i (i + 1) = true <->
  truthy (normalizedAt dets i) = true
  /\ normalizedAt dets i = normalizedAt dets (i + 1).
Proof.
  intros Hlen Hi. rewrite sameGroup_true. split.
  - intros (g & Hg & Hin & Hin').
    destruct (groupPages_elem pages dets g Hg) as (start & len & Hrun).
    rewrite (run_indices _ _ _ _ _ Hrun) in Hin, Hin'.
    apply elem_of_seq_iff in Hin, Hin'.
    assert (normalizedAt dets (i + 1) = normalizedAt dets start) as E1
      by (eapply run_same; [done|lia]).
    assert (normalizedAt dets i = normalizedAt dets start) as E2
      by (eapply run_same; [done|lia]).
    split; [|congruence]. rewrite E2, <- E1. eapply run_truthy; [done|lia].
  - intros [Htr Heq].
    destruct (groupPages_cover pages dets i) as (g & start & len & Hg & Hrun & Hin);
      [lia|].
    exists g. split; [done|]. rewrite (run_indices _ _ _ _ _ Hrun).
    rewrite !elem_of_seq_iff. split; [done|].
    destruct (decide (i + 1 < start + len)) as [|Hend]; [lia|].
    assert (normalizedAt dets i = normalizedAt dets start) as E
      by (eapply run_same; [done|lia]).
    assert (sameRoom dets (normalizedAt dets start) (start + len) = false) as Hmax.
    { apply (run_maximal _ _ _ _ _ Hrun); [congruence|lia]. }
    replace (start + len) with (i + 1) in Hmax by lia.
    unfold sameRoom in Hmax. rewrite <- Heq, Htr, <- E in Hmax.
    simpl in Hmax. by rewrite bool_decide_eq_false in Hmax.
Qed.

(** A page with a falsy normalized name is a group of its own. *)
Lemma falsy_singleton pages dets i :
  i < length pages -> truthy (normalizedAt dets i) = false ->
  exists g, g ∈ groupPages pages dets /\ Group.pageIndices g = [i].
Proof.
  intros Hi Hf.
  destruct (groupPages_cover pages dets i Hi) as (g & start & len & Hg & Hrun & Hin).
  exists g. split; [done|]. rewrite (run_indices _ _ _ _ _ Hrun).
  destruct (decide (i = start)) as [->|Hne].
  - by rewrite (run_single _ _ _ _ _ Hrun Hf).
  - rewrite (run_truthy pages dets g start len i Hrun) in Hf; [done|lia].
Qed.

(** ** Arrays and their writes *)

Lemma arraySet_length {A} (a : list (option A)) i v :
  i < length a -> length (arraySet a i v) = length a.
Proof.
  intros Hi. unfold arraySet. destruct (decide (i < length a)); [|lia].
  apply length_insert.
Qed.

Lemma arraySet_lookup_eq {A} (a : list (option A)) i v :
  i < length a -> arraySet a i v !! i = Some (Some v).
Proof.
  intros Hi. unfold arraySet. destruct (decide (i < length a)); [|lia].
  by apply list_lookup_insert_eq.
Qed.

Lemma arraySet_lookup_ne {A} (a : list (option A)) i j v :
  i < length a -> i <> j -> arraySet a i v !! j = a !! j.
Proof.
  intros Hi Hne. unfold arraySet. destruct (decide (i < length a)); [|lia].
  by apply list_lookup_insert_ne.
Qed.

Section WriteGroup.

Variable entry : nat -> nat -> PageResult.t.

Lemma writeFrom_cons s i rest slots :
  writeFrom entry s (i :: rest) slots
  = writeFrom entry (S s) rest (arraySet slots i (entry s i)).
Proof. reflexivity. Qed.

Lemma writeFrom_length s idxs slots :
  (forall i, i ∈ idxs -> i < length slots) ->
  length (writeFrom entry s idxs slots) = length slots.
Proof.
  revert s slots. induction idxs as [|i rest IH]; intros s slots Hb; [done|].
  assert (i < length slots) by (apply Hb; left).
  rewrite writeFrom_cons, IH; [by apply arraySet_length|].
  intros j Hj. rewrite arraySet_length by done. apply Hb. by right.
Qed.

Lemma writeFrom_other s idxs slots j :
  (forall i, i ∈ idxs -> i < length slots) -> j ∉ idxs ->
  writeFrom entry s idxs slots !! j = slots !! j.
Proof.
  revert s slots. induction idxs as [|i rest IH]; intros s slots Hb Hj; [done|].
  assert (i < length slots) by (apply Hb; left).
  apply not_elem_of_cons in Hj as [Hne Hj].
  rewrite writeFrom_cons, IH; [by apply arraySet_lookup_ne| |done].
  intros j' Hj'. rewrite arraySet_length by done. apply Hb. by right.
Qed.

Lemma writeFrom_at s idxs slots k i :
  NoDup idxs -> (forall i, i ∈ idxs -> i < length slots) ->
  idxs !! k = Some i ->
  writeFrom entry s idxs slots !! i = Some (Some (entry (s + k) i)).
Proof.
  revert s slots k. induction idxs as [|i0 rest IH];
    intros s slots k Hnd Hb Hk; [done|].
  assert (i0 < length slots) by (apply Hb; left).
  apply NoDup_cons in Hnd as [Hnotin Hnd].
  assert (forall j, j ∈ rest -> j < length (arraySet slots i0 (entry s i0))) as Hb'.
  { intros j' Hj'. rewrite arraySet_length by done. apply Hb. by right. }
  rewrite writeFrom_cons. destruct k as [|k]; simpl in Hk.
  - injection Hk as <-. rewrite writeFrom_other by done.
    rewrite Nat.add_0_r. by apply arraySet_lookup_eq.
  - rewrite (IH (S s) _ k) by done. by replace (S s + k) with (s + S k) by lia.
Qed.

Lemma writeGroup_length idxs slots :
  (forall i, i ∈ idxs -> i < length slots) ->
  length (writeGroup entry idxs slots) = length slots.
Proof. apply (writeFrom_length 0). Qed.

Lemma writeGroup_other idxs slots j :
  (forall i, i ∈ idxs -> i < length slots) -> j ∉ idxs ->
  writeGroup entry idxs slots !! j = slots !! j.
Proof. apply (writeFrom_other 0). Qed.

Lemma writeGroup_at idxs slots k i :
  NoDup idxs -> (forall i, i ∈ idxs -> i < length slots) ->
  idxs !! k = Some i ->
  writeGroup entry idxs slots !! i = Some (Some (entry k i)).
Proof. apply (writeFrom_at 0). Qed.

End WriteGroup.

(** ** Lists of index lists that partition a range *)

Lemma lookup_map {A B} (f : A -> B) (l : list A) i :
  map f l !! i = f <$> l !! i.
Proof. revert i. induction l as [|x l IH]; intros [|i]; simpl; auto. Qed.

Lemma concat_lookup_elem {A} (ls : list (list A)) a la x :
  ls !! a = Some la -> x ∈ la -> x ∈ concat ls.
Proof.
  revert a. induction ls as [|l ls IH]; intros [|a] Ha Hx; simpl in *; try done.
  - injection Ha as ->. apply elem_of_app. by left.
  - apply elem_of_app. right. by eapply IH.
Qed.

Lemma concat_NoDup_inner {A} (ls : list (list A)) a la :
  NoDup (concat ls) -> ls !! a = Some la -> NoDup la.
Proof.
  revert a. induction ls as [|l ls IH]; intros [|a] Hnd Ha; simpl in *; try done;
    apply NoDup_app in Hnd as (H1 & H2 & H3).
  - by injection Ha as ->.
  - by eapply IH.
Qed.

Lemma concat_NoDup_disjoint {A} (ls : list (list A)) a b la lb x :
  NoDup (concat ls) -> ls !! a = Some la -> ls !! b = Some lb ->
  x ∈ la -> x ∈ lb -> a = b.
Proof.
  revert a b. induction ls as [|l ls IH]; intros [|a] [|b] Hnd Ha Hb Hxa Hxb;
    simpl in *; try done; apply NoDup_app in Hnd as (H1 & H2 & H3).
  - injection Ha as ->. destruct (H2 x Hxa). by eapply concat_lookup_elem.
  - injection Hb as ->. destruct (H2 x Hxb). by eapply concat_lookup_elem.
  - f_equal. by eapply IH.
Qed.

Lemma concat_elem_lookup {A} (ls : list (list A)) x :
  x ∈ concat ls -> exists a la k, ls !! a = Some la /\ la !! k = Some x.
Proof.
  induction ls as [|l ls IH]; simpl; [by intros ?%elem_of_nil|].
  intros [Hx|Hx]%elem_of_app.
  - apply list_elem_of_lookup in Hx as [k Hk]. by exists 0, l, k.
  - destruct (IH Hx) as (a & la & k & H1 & H2). by exists (S a), la, k.
Qed.

(** ** Claims on the grouping loop *)

(** C2. For a detection sequence of length [N], the [pageIndices] of the
    groups, concatenated in the order of the groups, are [0, 1, ..., N-1],
    each index once; the [pageIndices] of a group are not empty and go up
    by one from one place to the next; and a group that comes earlier
    has the smaller first index. *)
Theorem grouping_partition pagesToProcess roomDetections N :
  length roomDetections = N -> length pagesToProcess = N ->
  let groups := groupPages pagesToProcess roomDetections in
  concat (map Group.pageIndices groups) = seq 0 N
  /\ (forall g, g ∈ groups ->
        Group.pageIndices g <> []
        /\ forall k a b,
             Group.pageIndices g !! k = Some a ->
             Group.pageIndices g !! (k + 1) = Some b -> b = a + 1)
  /\ (forall k1 k2 g1 g2,
        k1 < k2 -> groups !! k1 = Some g1 -> groups !! k2 = Some g2 ->
        exists f1 f2,
          head (Group.pageIndices g1) = Some f1
          /\ head (Group.pageIndices g2) = Some f2 /\ f1 < f2).
Proof.
  intros _ HN groups. subst groups. split; [|split].
  - rewrite <- HN. apply groupPages_concat.
  - intros g Hg.
    destruct (groupPages_elem _ _ g Hg) as (start & len & Hrun).
    rewrite (run_indices _ _ _ _ _ Hrun).
    pose proof (run_size _ _ _ _ _ Hrun). split.
    + destruct len; [lia|done].
    + intros k a b [Ha _]%lookup_seq [Hb _]%lookup_seq. lia.
  - intros k1 k2 g1 g2 Hlt H1 H2.
    destruct (groupPages_lookup _ _ k1 g1 H1)
      as (s1 & l1 & Hrun1 & _ & _ & Hrest).
    assert (drop (S k1) (groupPages pagesToProcess roomDetections)
              !! (k2 - S k1) = Some g2) as H2'.
    { rewrite lookup_drop. by replace (S k1 + (k2 - S k1)) with k2 by lia. }
    destruct (from_lookup _ _ _ _ _ _ g2 Hrest H2')
      as (s2 & l2 & Hrun2 & Hs2 & _).
    pose proof (run_size _ _ _ _ _ Hrun1). pose proof (run_size _ _ _ _ _ Hrun2).
    exists s1, s2.
    rewrite (run_indices _ _ _ _ _ Hrun1), (run_indices _ _ _ _ _ Hrun2).
    destruct l1, l2; try lia. simpl. repeat split; lia.
Qed.

Lemma grouping_partition_witness :
  let pages := [str "p0"; str "p1"; str "p2"] in
  let dets :=
    zip_with detectionOf pages
      [Heading.mk (Some (str "Hall")) (Some (str "HALL")) 80%N None;
       Heading.mk (Some (str "Hall")) (Some (str "Hall ")) 75%N None;
       Heading.mk None None 0%N None] in
  length dets = 3 /\ length pages = 3
  /\ concat (map Group.pageIndices (groupPages pages dets)) = seq 0 3.
Proof.
  intros pages dets. split; [reflexivity|]. split; [reflexivity|].
  exact (proj1 (grouping_partition pages dets 3 eq_refl eq_refl)).
Defined.

(** C3, as stated, fails: two pages whose headings are punctuation only
    have the same normalized name, the empty string, which is not [null],
    and they are not grouped. *)
Lemma greedy_contiguity_counterexample :
  let pages := [str "p0"; str "p1"] in
  let dets :=
    zip_with detectionOf pages
      [Heading.mk (Some []) (Some (str "--")) 60%N None;
       Heading.mk (Some []) (Some (str "--")) 60%N None] in
  ~ (forall i,
       normalizedAt dets i <> None ->
       normalizedAt dets i = normalizedAt dets (i + 1) ->
       sameGroup (groupPages pages dets) i (i + 1) = true).
Proof.
  intros pages dets H. specialize (H 0). vm_compute in H.
  assert (false = true) as Hf by (apply H; [discriminate|reflexivity]).
  discriminate Hf.
Qed.

(** C3, amended. If the normalized name of page [i] is truthy (neither
    [null] nor empty) and equal to that of page [i + 1], the two pages
    are in one group; a page whose normalized name is [null] or empty is
    a group of its own. *)
Theorem greedy_contiguity pagesToProcess roomDetections :
  length roomDetections = length pagesToProcess ->
  let groups := groupPages pagesToProcess roomDetections in
  (forall i,
     truthy (normalizedAt roomDetections i) = true ->
     normalizedAt roomDetections i = normalizedAt roomDetections (i + 1) ->
     sameGroup groups i (i + 1) = true)
  /\ (forall i,
        i < length pagesToProcess ->
        truthy (normalizedAt roomDetections i) = false ->
        exists g, g ∈ groups /\ Group.pageIndices g = [i]
                  /\ forall j, j <> i -> sameGroup groups i j = false).
Proof.
  intros Hlen groups. subst groups. split.
  - intros i Htr Heq. apply sameGroup_adjacent; [done| |done].
    rewrite Heq in Htr. unfold normalizedAt in Htr.
    destruct (roomDetections !! (i + 1)) as [d|] eqn:Hd; [|done].
    apply lookup_lt_Some in Hd. lia.
  - intros i Hi Hf.
    destruct (falsy_singleton _ _ i Hi Hf) as (g & Hg & Hidx).
    exists g. split; [done|]. split; [done|].
    intros j Hj. apply not_true_is_false. rewrite sameGroup_true.
    intros (g' & Hg' & Hi' & Hj').
    destruct (groupPages_elem _ _ g' Hg') as (start & len & Hrun).
    rewrite (run_indices _ _ _ _ _ Hrun) in Hi', Hj'.
    apply elem_of_seq_iff in Hi', Hj'.
    destruct (decide (i = start)) as [->|Hne].
    + pose proof (run_single _ _ _ _ _ Hrun Hf). lia.
    + rewrite (run_truthy _ _ g' start len i Hrun) in Hf; [done|lia].
Qed.

Lemma greedy_contiguity_witness :
  let pages := [str "p0"; str "p1"; str "p2"] in
  let dets :=
    zip_with detectionOf pages
      [Heading.mk (Some (str "Hall")) (Some (str "HALL")) 80%N None;
       Heading.mk (Some (str "Hall")) (Some (str "Hall ")) 75%N None;
       Heading.mk None None 0%N None] in
  length dets = length pages
  /\ sameGroup (groupPages pages dets) 0 1 = true.
Proof.
  intros pages dets. split; [reflexivity|].
  exact (proj1 (greedy_contiguity pages dets eq_refl) 0 eq_refl eq_refl).
Defined.




(** ** Claims on normalizeRoomName *)

(** C5, as stated, fails: a name of white space only is truthy, so it
    goes through the chain and comes out as the empty string, not as
    [null]. *)
Lemma normalizeRoomName_counterexample :
  normalizeRoomName (Some (str "   ")) <> None.
Proof. discriminate. Qed.

(** C5, amended. [normalizeRoomName] gives [null] for a [null] or empty
    name. For every other name, also one of white space only, it gives
    the name in lower case, with every run of units outside [[a-z0-9]]
    collapsed to one space, trimmed; for a name of white space only this
    is the empty string. Two consecutive headings are put in one group
    exactly when their normalized names are equal and not empty. *)
Theorem normalizeRoomName_spec :
  normalizeRoomName None = None
  /\ normalizeRoomName (Some []) = None
  /\ (forall s, s <> [] -> normalizeRoomName (Some s) = Some (canonicalName s))
  /\ (forall s, s <> [] -> forallb isWhiteSpace s = true ->
        normalizeRoomName (Some s) = Some [])
  /\ (forall pages headings i h h',
        length headings = length pages ->
        headings !! i = Some h -> headings !! (i + 1) = Some h' ->
        let name x := Js.orElse (Heading.roomName x) (Heading.rawText x) in
        sameGroup (groupPages pages (zip_with detectionOf pages headings))
          i (i + 1) = true
        <-> normalizeRoomName (name h) = normalizeRoomName (name h')
            /\ truthy (normalizeRoomName (name h)) = true).
Proof.
  split; [done|]. split; [done|]. split; [exact normalizeRoomName_some|].
  split.
  - intros s Hs Hw. by rewrite normalizeRoomName_some, canonicalName_white.
  - intros pages headings i h h' Hlen Hh Hh' name.
    assert (i + 1 < length pages) as Hi
      by (rewrite <- Hlen; by eapply lookup_lt_Some).
    assert (forall j x, headings !! j = Some x ->
              normalizedAt (zip_with detectionOf pages headings) j
              = normalizeRoomName (name x)) as Hnorm.
    { intros j x Hx. unfold normalizedAt. rewrite lookup_zip_with, Hx.
      destruct (pages !! j) as [pg|] eqn:Hp; [done|].
      apply lookup_ge_None in Hp. apply lookup_lt_Some in Hx. lia. }
    rewrite sameGroup_adjacent; [| |done].
    + rewrite (Hnorm i h Hh), (Hnorm (i + 1) h' Hh'). tauto.
    + rewrite length_zip_with. lia.
Qed.

Lemma normalizeRoomName_spec_witness :
  normalizeRoomName (Some (str "Dining  Room/2")) = Some (str "dining room 2")
  /\ normalizeRoomName (Some (str "   ")) = Some []
  /\ sameGroup
       (groupPages [str "p0"; str "p1"]
          (zip_with detectionOf [str "p0"; str "p1"]
             [Heading.mk (Some (str "Kitchen")) (Some (str "Kitchen")) 90%N None;
              Heading.mk (Some (str "Kitchen")) (Some (str "KITCHEN")) 88%N None]))
       0 1 = true.
Proof.
  destruct normalizeRoomName_spec as (_ & _ & H3 & H4 & H5).
  split; [exact (H3 (str "Dining  Room/2") ltac:(discriminate))|].
  split; [exact (H4 (str "   ") ltac:(discriminate) eq_refl)|].
  apply (H5 [str "p0"; str "p1"]
            [Heading.mk (Some (str "Kitchen")) (Some (str "Kitchen")) 90%N None;
             Heading.mk (Some (str "Kitchen")) (Some (str "KITCHEN")) 88%N None]
            0 _ _ eq_refl eq_refl eq_refl).
  split; reflexivity.
Defined.

(** C8, as stated, fails: a name without letters and digits, such as a
    heading read as two dashes, normalizes to the empty string, and the
    empty string normalizes to [null]. *)
Lemma normalizeRoomName_idempotent_counterexample :
  normalizeRoomName (Some (str "--")) = Some []
  /\ normalizeRoomName (normalizeRoomName (Some (str "--")))
     <> normalizeRoomName (Some (str "--")).
Proof. split; [reflexivity|discriminate]. Qed.

(** C8, amended. For every name [x] whose normalized name is not the
    empty string, to normalize the normalized name gives it again. *)
Theorem normalizeRoomName_idempotent x :
  normalizeRoomName (Some x) <> Some [] ->
  normalizeRoomName (normalizeRoomName (Some x)) = normalizeRoomName (Some x).
Proof.
  intros Hne. destruct x as [|c r]; [done|].
  rewrite normalizeRoomName_some in * by done.
  destruct (canonicalName (c :: r)) as [|c' r'] eqn:E; [done|].
  rewrite normalizeRoomName_some by done.
  by rewrite <- E, canonicalName_idem.
Qed.

Lemma normalizeRoomName_idempotent_witness :
  normalizeRoomName (Some (str "Living Room")) <> Some []
  /\ normalizeRoomName (normalizeRoomName (Some (str "Living Room")))
     = normalizeRoomName (Some (str "Living Room")).
Proof.
  split; [discriminate|].
  apply (normalizeRoomName_idempotent (str "Living Room")). discriminate.
Defined.

(** ** The worker pool *)

Section PoolFacts.

Variable pagesToProcess : list Path.
Variable roomDetections : list Detection.t.
Variable groups : list Group.t.
Variable continueOnError : bool.
Variable describePageAndGenerate :
  list Path -> RoomContext.t -> Result GenResult.t.
Variable addTitleToImage : Path -> jsstring -> Result unit.

Hypothesis groups_partition :
  concat (map Group.pageIndices groups) = seq 0 (length pagesToProcess).

Abbreviation Inv :=
  (poolInv pagesToProcess roomDetections groups describePageAndGenerate
     addTitleToImage).
Abbreviation EndInv := (endInv groups continueOnError).
Abbreviation entryOf' :=
  (entryOf pagesToProcess roomDetections describePageAndGenerate addTitleToImage).

Lemma part_nodup gi g : groups !! gi = Some g -> NoDup (Group.pageIndices g).
Proof using groups_partition.
  intros Hg. apply (concat_NoDup_inner (map Group.pageIndices groups) gi).
  - rewrite groups_partition. apply NoDup_seq.
  - by rewrite lookup_map, Hg.
Qed.

Lemma part_bound gi g i :
  groups !! gi = Some g -> i ∈ Group.pageIndices g -> i < length pagesToProcess.
Proof using groups_partition.
  intros Hg Hi.
  assert (i ∈ concat (map Group.pageIndices groups)) as Hin.
  { apply (concat_lookup_elem _ gi (Group.pageIndices g)); [|done].
    by rewrite lookup_map, Hg. }
  rewrite groups_partition in Hin. apply elem_of_seq_iff in Hin. lia.
Qed.

Lemma part_disjoint gi gj g g' i :
  groups !! gi = Some g -> groups !! gj = Some g' ->
  i ∈ Group.pageIndices g -> i ∈ Group.pageIndices g' -> gi = gj.
Proof using groups_partition.
  intros Hg Hg' Hi Hi'.
  apply (concat_NoDup_disjoint (map Group.pageIndices groups) gi gj
           (Group.pageIndices g) (Group.pageIndices g') i); try done.
  - rewrite groups_partition. apply NoDup_seq.
  - by rewrite lookup_map, Hg.
  - by rewrite lookup_map, Hg'.
Qed.

Lemma part_cover i :
  i < length pagesToProcess ->
  exists gi g k, groups !! gi = Some g /\ Group.pageIndices g !! k = Some i.
Proof using groups_partition.
  intros Hi.
  assert (i ∈ concat (map Group.pageIndices groups)) as Hin.
  { rewrite groups_partition. apply elem_of_seq_iff. lia. }
  apply concat_elem_lookup in Hin as (gi & la & k & H1 & H2).
  rewrite lookup_map in H1. destruct (groups !! gi) as [g|] eqn:Hg; [|done].
  injection H1 as <-. by exists gi, g, k.
Qed.

Lemma workingOn_working state gi :
  workingOn state = Some gi <-> exists g, working state = Some (gi, g).
Proof.
  unfold workingOn. destruct (working state) as [[gi' g]|]; simpl; split.
  - intros [= ->]. by exists g.
  - by intros (g' & [= -> ->]).
  - done.
  - by intros (g' & ?).
Qed.

Lemma init_inv : Inv 0 (replicate (length pagesToProcess) None) [].
Proof using groups_partition.
  split; try done.
  - apply length_replicate.
  - lia.
  - lia.
  - intros gi g i w state Hg Hi _. apply lookup_replicate_2.
    by eapply part_bound.
Qed.

(** The worker that holds group [g] writes the entries of its outcome
    and goes to a state in which it holds no group. *)
Lemma retire_inv c slots ws w state gi g entry state' :
  Inv c slots ws ->
  ws !! w = Some state -> working state = Some (gi, g) ->
  workingOn state' = None ->
  (forall k i, entry k i = entryOf' g k i) ->
  Inv c (writeGroup entry (Group.pageIndices g) slots) (<[w := state']> ws).
Proof using groups_partition.
  intros HI Hw Hst Hst' Hentry.
  destruct (inv_held _ _ _ _ _ _ _ _ HI w state gi g Hw Hst) as [Hg Hgi].
  assert (w < length ws) as Hwlen by by eapply lookup_lt_Some.
  assert (forall i, i ∈ Group.pageIndices g -> i < length slots) as Hb.
  { intros i Hi. rewrite (inv_length _ _ _ _ _ _ _ _ HI). by eapply part_bound. }
  assert (forall w0 s0, <[w := state']> ws !! w0 = Some s0 ->
            is_Some (working s0) -> w0 <> w /\ ws !! w0 = Some s0) as Hother.
  { intros w0 s0 H0 Hs0. destruct (decide (w0 = w)) as [->|Hne].
    - rewrite list_lookup_insert_eq in H0 by done. injection H0 as <-.
      unfold workingOn in Hst'. destruct (working state'); [done|].
      by destruct Hs0.
    - by rewrite list_lookup_insert_ne in H0. }
  split.
  - rewrite writeGroup_length by done. apply (inv_length _ _ _ _ _ _ _ _ HI).
  - apply (inv_cursor _ _ _ _ _ _ _ _ HI).
  - intros w0 s0 gj g0 H0 Hs0.
    destruct (Hother w0 s0 H0) as [_ H0']; [by rewrite Hs0|].
    by eapply (inv_held _ _ _ _ _ _ _ _ HI).
  - intros w0 gj g0 r H0.
    destruct (Hother w0 _ H0) as [_ H0']; [done|].
    by eapply (inv_title _ _ _ _ _ _ _ _ HI).
  - intros w0 w1 s0 s1 gj H0 H1 Hs0 Hs1.
    destruct (Hother w0 s0 H0) as [_ H0'].
    { apply workingOn_working in Hs0 as [? ->]. done. }
    destruct (Hother w1 s1 H1) as [_ H1'].
    { apply workingOn_working in Hs1 as [? ->]. done. }
    by eapply (inv_unique _ _ _ _ _ _ _ _ HI).
  - intros gj g0 k i Hg0 Hk Hlt Hfree.
    destruct (decide (gj = gi)) as [->|Hne].
    + assert (g0 = g) as -> by congruence.
      rewrite writeGroup_at with (k := k); try done; [by rewrite Hentry|].
      by eapply part_nodup.
    + rewrite writeGroup_other; [|done|].
      * apply (inv_done _ _ _ _ _ _ _ _ HI gj g0 k i); try done.
        intros w0 s0 H0 Hs0. destruct (decide (w0 = w)) as [->|Hw0].
        -- assert (s0 = state) as -> by congruence.
           apply workingOn_working in Hs0 as [g1 Hs0]. congruence.
        -- apply (Hfree w0 s0); [|done]. by rewrite list_lookup_insert_ne.
      * intros Hin. apply Hne.
        eapply part_disjoint; [exact Hg0|exact Hg| |done].
        by eapply list_elem_of_lookup_2.
  - intros gj g0 i w0 s0 Hg0 Hi Hcase.
    assert (gj <> gi) as Hne.
    { destruct Hcase as [Hc|[H0 Hs0]]; [lia|]. intros ->.
      destruct (Hother w0 s0 H0) as [Hw0 H0'].
      { apply workingOn_working in Hs0 as [? ->]. done. }
      apply Hw0. eapply (inv_unique _ _ _ _ _ _ _ _ HI); try done.
      apply workingOn_working. by exists g. }
    rewrite writeGroup_other; [|done|].
    + apply (inv_unset _ _ _ _ _ _ _ _ HI gj g0 i w0 s0); try done.
      destruct Hcase as [Hc|[H0 Hs0]]; [by left|]. right.
      destruct (Hother w0 s0 H0) as [_ H0']; [|done].
      apply workingOn_working in Hs0 as [? ->]. done.
    + intros Hin. apply Hne. by eapply part_disjoint.
Qed.

(** A worker that holds no group takes the group under the cursor. *)
Lemma claim_inv c slots ws w state g :
  Inv c slots ws ->
  ws !! w = Some state -> workingOn state = None ->
  groups !! c = Some g ->
  Inv (c + 1) slots (<[w := AwaitDescribe c g]> ws).
Proof.
  intros HI Hw Hst Hg.
  assert (w < length ws) as Hwlen by by eapply lookup_lt_Some.
  assert (forall w0 s0, <[w := AwaitDescribe c g]> ws !! w0 = Some s0 ->
            (w0 = w /\ s0 = AwaitDescribe c g)
            \/ (w0 <> w /\ ws !! w0 = Some s0)) as Hcases.
  { intros w0 s0 H0. destruct (decide (w0 = w)) as [->|Hne].
    - rewrite list_lookup_insert_eq in H0 by done. left. split; congruence.
    - rewrite list_lookup_insert_ne in H0 by done. by right. }
  assert (forall w0 s0 gj, ws !! w0 = Some s0 -> workingOn s0 = Some gj -> gj < c)
    as Hbelow.
  { intros w0 s0 gj H0 [g0 Hs0]%workingOn_working.
    by destruct (inv_held _ _ _ _ _ _ _ _ HI w0 s0 gj g0 H0 Hs0). }
  split.
  - apply (inv_length _ _ _ _ _ _ _ _ HI).
  - apply lookup_lt_Some in Hg. lia.
  - intros w0 s0 gj g0 H0 Hs0.
    destruct (Hcases w0 s0 H0) as [[-> ->]|[Hne H0']].
    + simpl in Hs0. injection Hs0 as <- <-. split; [done|lia].
    + destruct (inv_held _ _ _ _ _ _ _ _ HI w0 s0 gj g0 H0' Hs0). split; [done|lia].
  - intros w0 gj g0 r H0.
    destruct (Hcases w0 _ H0) as [[_ ?]|[Hne H0']]; [done|].
    by eapply (inv_title _ _ _ _ _ _ _ _ HI).
  - intros w0 w1 s0 s1 gj H0 H1 Hs0 Hs1.
    destruct (Hcases w0 s0 H0) as [[-> ->]|[Hne0 H0']];
      destruct (Hcases w1 s1 H1) as [[-> ->]|[Hne1 H1']]; try done.
    + injection Hs0 as <-. pose proof (Hbelow w1 s1 c H1' Hs1). lia.
    + injection Hs1 as <-. pose proof (Hbelow w0 s0 c H0' Hs0). lia.
    + by eapply (inv_unique _ _ _ _ _ _ _ _ HI).
  - intros gj g0 k i Hg0 Hk Hlt Hfree.
    destruct (decide (gj = c)) as [->|Hne].
    + destruct (Hfree w (AwaitDescribe c g)); [|done].
      by apply list_lookup_insert_eq.
    + apply (inv_done _ _ _ _ _ _ _ _ HI gj g0 k i); try done; [lia|].
      intros w0 s0 H0 Hs0. destruct (decide (w0 = w)) as [->|Hw0].
      * congruence.
      * apply (Hfree w0 s0); [|done]. by rewrite list_lookup_insert_ne.
  - intros gj g0 i w0 s0 Hg0 Hi Hcase.
    apply (inv_unset _ _ _ _ _ _ _ _ HI gj g0 i w0 s0); try done.
    destruct Hcase as [Hc|[H0 Hs0]]; [left; lia|].
    destruct (Hcases w0 s0 H0) as [[-> ->]|[Hne H0']].
    + injection Hs0 as <-. by left.
    + by right.
Qed.

(** The first call has resolved: the worker holds its group still. *)
Lemma title_inv c slots ws w gi g result :
  Inv c slots ws ->
  ws !! w = Some (AwaitDescribe gi g) ->
  describePageAndGenerate (Group.pages g) (roomContext pagesToProcess roomDetections g)
  = Ok result ->
  Inv c slots (<[w := AwaitTitle gi g result]> ws).
Proof.
  intros HI Hw Hd.
  assert (w < length ws) as Hwlen by by eapply lookup_lt_Some.
  assert (forall w0 s0, <[w := AwaitTitle gi g result]> ws !! w0 = Some s0 ->
            exists s1, ws !! w0 = Some s1 /\ working s1 = working s0
                       /\ (w0 <> w -> s1 = s0)
                       /\ (w0 = w -> s0 = AwaitTitle gi g result)) as Hcases.
  { intros w0 s0 H0. destruct (decide (w0 = w)) as [->|Hne].
    - rewrite list_lookup_insert_eq in H0 by done. injection H0 as <-.
      by exists (AwaitDescribe gi g).
    - rewrite list_lookup_insert_ne in H0 by done. by exists s0. }
  assert (forall w0 s1, ws !! w0 = Some s1 ->
            exists s0, <[w := AwaitTitle gi g result]> ws !! w0 = Some s0
                       /\ working s1 = working s0) as Hback.
  { intros w0 s1 H1. destruct (decide (w0 = w)) as [->|Hne].
    - exists (AwaitTitle gi g result). rewrite list_lookup_insert_eq by done.
      split; [done|]. by assert (s1 = AwaitDescribe gi g) as -> by congruence.
    - exists s1. by rewrite list_lookup_insert_ne. }
  split.
  - apply (inv_length _ _ _ _ _ _ _ _ HI).
  - apply (inv_cursor _ _ _ _ _ _ _ _ HI).
  - intros w0 s0 gj g0 H0 Hs0.
    destruct (Hcases w0 s0 H0) as (s1 & H1 & Hwk & _).
    eapply (inv_held _ _ _ _ _ _ _ _ HI); [exact H1|congruence].
  - intros w0 gj g0 r H0.
    destruct (Hcases w0 _ H0) as (s1 & H1 & Hwk & Hne & Heq).
    destruct (decide (w0 = w)) as [->|Hw0].
    + specialize (Heq eq_refl). by injection Heq as -> -> ->.
    + rewrite (Hne Hw0) in H1. by eapply (inv_title _ _ _ _ _ _ _ _ HI).
  - intros w0 w1 s0 s1 gj H0 H1 Hs0 Hs1.
    destruct (Hcases w0 s0 H0) as (s0' & H0' & Hwk0 & _).
    destruct (Hcases w1 s1 H1) as (s1' & H1' & Hwk1 & _).
    apply (inv_unique _ _ _ _ _ _ _ _ HI w0 w1 s0' s1' gj H0' H1');
      unfold workingOn in *; congruence.
  - intros gj g0 k i Hg0 Hk Hlt Hfree.
    apply (inv_done _ _ _ _ _ _ _ _ HI gj g0 k i); try done.
    intros w0 s1 H1 Hs1. destruct (Hback w0 s1 H1) as (s0 & H0 & Hwk).
    apply (Hfree w0 s0 H0). unfold workingOn in *. congruence.
  - intros gj g0 i w0 s0 Hg0 Hi Hcase.
    destruct Hcase as [Hc|[H0 Hs0]].
    + apply (inv_unset _ _ _ _ _ _ _ _ HI gj g0 i w0 s0); try done. by left.
    + destruct (Hcases w0 s0 H0) as (s1 & H1 & Hwk & _).
      apply (inv_unset _ _ _ _ _ _ _ _ HI gj g0 i w0 s1); try done.
      right. split; [done|]. unfold workingOn in *. congruence.
Qed.

(** A worker that holds no group joins the pool. *)
Lemma append_inv c slots ws state :
  Inv c slots ws -> workingOn state = None -> Inv c slots (ws ++ [state]).
Proof.
  intros HI Hst.
  assert (forall w0 s0, (ws ++ [state]) !! w0 = Some s0 ->
            is_Some (working s0) -> ws !! w0 = Some s0) as Hold.
  { intros w0 s0 H0 Hs0. apply lookup_snoc_Some in H0 as [[_ ?]|[_ <-]]; [done|].
    unfold workingOn in Hst. destruct (working state); [done|]. by destruct Hs0. }
  split.
  - apply (inv_length _ _ _ _ _ _ _ _ HI).
  - apply (inv_cursor _ _ _ _ _ _ _ _ HI).
  - intros w0 s0 gj g0 H0 Hs0.
    eapply (inv_held _ _ _ _ _ _ _ _ HI); [|done]. apply Hold; [done|].
    by rewrite Hs0.
  - intros w0 gj g0 r H0.
    eapply (inv_title _ _ _ _ _ _ _ _ HI). by apply Hold.
  - intros w0 w1 s0 s1 gj H0 H1 Hs0 Hs1.
    assert (ws !! w0 = Some s0) as H0'.
    { apply Hold; [done|]. apply workingOn_working in Hs0 as [? ->]. done. }
    assert (ws !! w1 = Some s1) as H1'.
    { apply Hold; [done|]. apply workingOn_working in Hs1 as [? ->]. done. }
    exact (inv_unique _ _ _ _ _ _ _ _ HI w0 w1 s0 s1 gj H0' H1' Hs0 Hs1).
  - intros gj g0 k i Hg0 Hk Hlt Hfree.
    apply (inv_done _ _ _ _ _ _ _ _ HI gj g0 k i); try done.
    intros w0 s0 H0. apply (Hfree w0 s0).
    apply lookup_app_l_Some. done.
  - intros gj g0 i w0 s0 Hg0 Hi Hcase.
    apply (inv_unset _ _ _ _ _ _ _ _ HI gj g0 i w0 s0); try done.
    destruct Hcase as [Hc|[H0 Hs0]]; [by left|]. right. split; [|done].
    apply Hold; [done|]. apply workingOn_working in Hs0 as [? ->]. done.
Qed.

Lemma end_insert c c' ws w state' :
  EndInv c ws -> c <= c' ->
  (state' = Returned -> length groups <= c') ->
  (forall error, state' = Threw error -> continueOnError = false) ->
  EndInv c' (<[w := state']> ws).
Proof.
  intros [Hr Ht] Hc Hret Hthr. split.
  - intros w0 H0. destruct (decide (w0 = w)) as [->|Hne].
    + apply list_lookup_insert_Some in H0 as [(_ & Heq & _)|[? _]]; [auto|done].
    + rewrite list_lookup_insert_ne in H0 by done. specialize (Hr w0 H0). lia.
  - intros w0 e H0. destruct (decide (w0 = w)) as [->|Hne].
    + apply list_lookup_insert_Some in H0 as [(_ & Heq & _)|[? _]]; [eauto|done].
    + rewrite list_lookup_insert_ne in H0 by done. eauto.
Qed.

Lemma end_append c c' ws state' :
  EndInv c ws -> c <= c' ->
  (state' = Returned -> length groups <= c') ->
  (forall error, state' = Threw error -> continueOnError = false) ->
  EndInv c' (ws ++ [state']).
Proof.
  intros [Hr Ht] Hc Hret Hthr. split.
  - intros w0 H0. apply lookup_snoc_Some in H0 as [[_ H0]|[_ Heq]]; [|auto].
    specialize (Hr w0 H0). lia.
  - intros w0 e H0. apply lookup_snoc_Some in H0 as [[_ H0]|[_ Heq]]; eauto.
Qed.

Abbreviation invariant' :=
  (invariant pagesToProcess roomDetections groups continueOnError
     describePageAndGenerate addTitleToImage).
Abbreviation resume' :=
  (resume pagesToProcess roomDetections groups continueOnError
     describePageAndGenerate addTitleToImage).
Abbreviation runPool' :=
  (runPool pagesToProcess roomDetections groups continueOnError
     describePageAndGenerate addTitleToImage).
Abbreviation failGroup' :=
  (failGroup pagesToProcess roomDetections groups continueOnError).

(** The worker that holds [g] has written its entries and goes round
    the loop. *)
Lemma continue_invariant c slots ws rj tr w state gi g entry :
  Inv c slots ws -> EndInv c ws ->
  ws !! w = Some state -> working state = Some (gi, g) ->
  (forall k i, entry k i = entryOf' g k i) ->
  invariant'
    (continueLoop groups w
       (mkPool c (writeGroup entry (Group.pageIndices g) slots) ws rj tr)).
Proof using groups_partition.
  intros HI HE Hw Hst Hentry.
  assert (w < length ws) as Hwlen by by eapply lookup_lt_Some.
  pose proof (retire_inv c slots ws w state gi g entry Returned HI Hw Hst
                eq_refl Hentry) as HR.
  unfold continueLoop, claimNext. simpl.
  destruct (groups !! c) as [g'|] eqn:Hg; simpl.
  - split; simpl.
    + rewrite <- (list_insert_insert_eq ws w (AwaitDescribe c g') Returned).
      apply (claim_inv c _ (<[w := Returned]> ws) w Returned g' HR);
        [by apply list_lookup_insert_eq|done|done].
    + eapply end_insert; [exact HE|lia|done|done].
  - split; simpl; [done|].
    eapply end_insert; [exact HE|lia| |done].
    intros _. by apply lookup_ge_None.
Qed.

Lemma failGroup_continue pool w g error :
  continueOnError = true ->
  failGroup' w g error pool
  = continueLoop groups w
      (mkPool (groupCursor pool)
         (writeGroup (failureEntry pagesToProcess roomDetections g error)
            (Group.pageIndices g) (processedPages pool))
         (workers pool) (rejection pool)
         (trace pool ++ [ErrorGroupFailed w error])).
Proof. intros Hc. unfold failGroup. by rewrite Hc. Qed.

Lemma failGroup_strict pool w g error :
  continueOnError = false ->
  failGroup' w g error pool
  = mkPool (groupCursor pool)
      (writeGroup (failureEntry pagesToProcess roomDetections g error)
         (Group.pageIndices g) (processedPages pool))
      (<[w := Threw error]> (workers pool))
      (match rejection pool with Some first => Some first | None => Some error end)
      ((trace pool ++ [ErrorGroupFailed w error]) ++ [WorkerThrows w error]).
Proof. intros Hc. unfold failGroup. by rewrite Hc. Qed.

Lemma fail_invariant pool w state gi g error :
  invariant' pool ->
  workers pool !! w = Some state -> working state = Some (gi, g) ->
  pipeline pagesToProcess roomDetections describePageAndGenerate
    addTitleToImage g = Err error ->
  invariant' (failGroup' w g error pool).
Proof using groups_partition.
  intros [HI HE] Hw Hst Hpipe.
  assert (forall k i,
            failureEntry pagesToProcess roomDetections g error k i
            = entryOf' g k i) as Hentry.
  { intros k i. unfold entryOf. by rewrite Hpipe. }
  destruct (Bool.bool_dec continueOnError true) as [Hc|Hc].
  - rewrite (failGroup_continue _ _ _ _ Hc). by eapply continue_invariant.
  - apply not_true_is_false in Hc. rewrite (failGroup_strict _ _ _ _ Hc).
    split; simpl.
    + by eapply retire_inv.
    + eapply end_insert; [exact HE|lia|done|]. by intros.
Qed.

(** A step of the pool keeps the invariant. *)
Lemma resume_invariant w pool : invariant' pool -> invariant' (resume' w pool).
Proof using groups_partition.
  intros Hinv. pose proof Hinv as [HI HE]. unfold resume.
  destruct (workers pool !! w) as [[gi g|gi g result| |e]|] eqn:Hw; try done.
  - destruct (describePageAndGenerate _ _) as [result|error] eqn:Hd.
    + split; simpl.
      * by apply title_inv.
      * eapply end_insert; [exact HE|lia|done|done].
    + eapply fail_invariant; [done|exact Hw|done|].
      unfold pipeline. by rewrite Hd.
  - pose proof (inv_title _ _ _ _ _ _ _ _ HI w gi g result Hw) as Hd.
    destruct (addTitleToImage _ _) as [[]|error] eqn:Ht.
    + eapply continue_invariant; [exact HI|exact HE|exact Hw|done|].
      intros k i. unfold entryOf, pipeline. by rewrite Hd, Ht.
    + eapply fail_invariant; [done|exact Hw|done|].
      unfold pipeline. by rewrite Hd, Ht.
Qed.

Lemma runPool_invariant schedule pool :
  invariant' pool -> invariant' (runPool' schedule pool).
Proof using groups_partition.
  revert pool. induction schedule as [|w rest IH]; intros pool Hinv; [done|].
  simpl. apply IH. by apply resume_invariant.
Qed.

Lemma startWorker_invariant pool w :
  invariant' pool -> invariant' (startWorker groups pool w).
Proof using groups_partition.
  intros [HI HE].
  pose proof (append_inv _ _ _ Returned HI eq_refl) as HA.
  unfold startWorker, claimNext.
  destruct (groups !! groupCursor pool) as [g|] eqn:Hg; simpl.
  - split; simpl.
    + replace (workers pool ++ [AwaitDescribe (groupCursor pool) g])
        with (<[length (workers pool) := AwaitDescribe (groupCursor pool) g]>
                (workers pool ++ [Returned])).
      * apply (claim_inv _ _ _ _ Returned g HA); [|done|done].
        by rewrite lookup_app_r, Nat.sub_diag.
      * rewrite insert_app_r_alt, Nat.sub_diag by lia. done.
    + eapply end_append; [exact HE|lia|done|done].
  - split; simpl; [done|].
    eapply end_append; [exact HE|lia| |done].
    intros _. by apply lookup_ge_None.
Qed.

Lemma startWorker_workers pool w :
  length (workers (startWorker groups pool w)) = S (length (workers pool)).
Proof.
  unfold startWorker, claimNext.
  destruct (groups !! groupCursor pool); simpl; rewrite length_app; simpl; lia.
Qed.

Lemma startPool_invariant workerCount events :
  invariant' (startPool pagesToProcess groups workerCount events)
  /\ length (workers (startPool pagesToProcess groups workerCount events))
     = workerCount.
Proof using groups_partition.
  unfold startPool.
  assert (forall l pool,
            invariant' pool ->
            invariant' (foldl (startWorker groups) pool l)
            /\ length (workers (foldl (startWorker groups) pool l))
               = length (workers pool) + length l) as Hfold.
  { induction l as [|w l IH]; intros pool Hinv; simpl; [split; [done|lia]|].
    destruct (IH (startWorker groups pool w)) as [H1 H2].
    - by apply startWorker_invariant.
    - split; [done|]. rewrite H2, startWorker_workers. lia. }
  destruct (Hfold (seq 0 workerCount) (emptyPool pagesToProcess events)) as [H1 H2].
  - split; simpl; [apply init_inv|]. by split.
  - split; [done|]. rewrite H2, length_seq. done.
Qed.

Lemma resume_workers w pool :
  length (workers (resume' w pool)) = length (workers pool).
Proof.
  unfold resume, failGroup, continueLoop, claimNext.
  repeat (case_match; simpl; simplify_eq; rewrite ?length_insert; try done).
Qed.

Lemma runPool_workers schedule pool :
  length (workers (runPool' schedule pool)) = length (workers pool).
Proof.
  revert pool. induction schedule as [|w rest IH]; intros pool; [done|].
  simpl. by rewrite IH, resume_workers.
Qed.

Lemma fulfilled_returned pool :
  settlement pool = Fulfilled ->
  rejection pool = None
  /\ forall w state, workers pool !! w = Some state -> state = Returned.
Proof.
  unfold settlement. destruct (rejection pool); [done|].
  destruct (forallb returned (workers pool)) eqn:Hall; [|done].
  intros _. split; [done|]. intros w state Hw.
  rewrite forallb_forall in Hall.
  assert (returned state = true) as Hr.
  { apply Hall, list_elem_of_In. by eapply list_elem_of_lookup_2. }
  by destruct state.
Qed.

(** When every worker has returned, every page has the entry that the
    outcome of the pipeline of its group gives it. *)
Lemma fulfilled_slots pool gi g k i :
  invariant' pool -> settlement pool = Fulfilled -> workers pool <> [] ->
  groups !! gi = Some g -> Group.pageIndices g !! k = Some i ->
  processedPages pool !! i = Some (Some (entryOf' g k i)).
Proof.
  intros [HI [Hret _]] Hful Hws Hg Hk.
  destruct (fulfilled_returned pool Hful) as [_ Hall].
  apply (inv_done _ _ _ _ _ _ _ _ HI gi g k i Hg Hk).
  - destruct (workers pool) as [|s0 ws] eqn:E; [done|].
    assert (s0 = Returned) as -> by by apply (Hall 0).
    specialize (Hret 0 eq_refl). apply lookup_lt_Some in Hg. lia.
  - intros w state Hw. by rewrite (Hall w state Hw).
Qed.






(** A step of worker [w'] leaves the other workers as they are. *)
Lemma resume_others w w' pool :
  w <> w' -> workers (resume' w' pool) !! w = workers pool !! w.
Proof.
  intros Hne. unfold resume, failGroup, continueLoop, claimNext.
  repeat (case_match; simpl; simplify_eq;
          rewrite ?list_lookup_insert_ne by done; try done).
Qed.

(** A worker that has ended takes no step. *)
Lemma resume_finished w pool state :
  workers pool !! w = Some state -> finished state = true ->
  resume' w pool = pool.
Proof. intros Hw Hf. unfold resume. rewrite Hw. by destruct state. Qed.




(** *** Every run of the pool comes to an end *)

Abbreviation remaining' := (remaining groups).

Lemma sum_insert (ws : list Worker) w state state' :
  ws !! w = Some state ->
  sum_list_with callsLeft (<[w := state']> ws) + callsLeft state
  = sum_list_with callsLeft ws + callsLeft state'.
Proof.
  revert w. induction ws as [|s0 ws IH]; intros [|w] Hw; simpl in *; try done.
  - injection Hw as ->. lia.
  - specialize (IH w Hw). lia.
Qed.

(** A step of a worker that has not ended uses up one call at least. *)
Lemma resume_remaining w pool state :
  invariant' pool -> workers pool !! w = Some state -> finished state = false ->
  remaining' (resume' w pool) < remaining' pool.
Proof.
  intros [HI _] Hw Hf. pose proof (inv_cursor _ _ _ _ _ _ _ _ HI) as Hc.
  unfold resume, failGroup, continueLoop, claimNext, remaining. rewrite Hw.
  destruct state as [gi g|gi g result| |e]; try done;
    repeat (case_match; simpl; simplify_eq);
    try match goal with
      | H : groups !! _ = Some _ |- _ => apply lookup_lt_Some in H
      end;
    match goal with
    | |- context [sum_list_with callsLeft (<[w := ?s']> _)] =>
        pose proof (sum_insert (workers pool) w _ s' Hw)
    end; simpl in *; lia.
Qed.

Lemma resume_remaining_le w pool :
  invariant' pool -> remaining' (resume' w pool) <= remaining' pool.
Proof.
  intros Hinv. destruct (workers pool !! w) as [state|] eqn:Hw.
  - destruct (finished state) eqn:Hf.
    + by rewrite (resume_finished w pool state).
    + pose proof (resume_remaining w pool state Hinv Hw Hf). lia.
  - unfold resume. by rewrite Hw.
Qed.

Lemma runPool_remaining_le schedule pool :
  invariant' pool -> remaining' (runPool' schedule pool) <= remaining' pool.
Proof using groups_partition.
  revert pool. induction schedule as [|w rest IH]; intros pool Hinv; [done|].
  simpl. pose proof (resume_remaining_le w pool Hinv).
  specialize (IH (resume' w pool) (resume_invariant w pool Hinv)). lia.
Qed.

(** A schedule that has the turn of a worker that has not ended uses up
    a call. *)
Lemma runPool_remaining schedule pool w state :
  invariant' pool -> w ∈ schedule ->
  workers pool !! w = Some state -> finished state = false ->
  remaining' (runPool' schedule pool) < remaining' pool.
Proof using groups_partition.
  revert pool. induction schedule as [|w0 rest IH]; intros pool Hinv Hin Hw Hf.
  - by apply elem_of_nil in Hin.
  - simpl. pose proof (resume_invariant w0 pool Hinv) as Hinv'.
    destruct (decide (w0 = w)) as [->|Hne].
    + pose proof (resume_remaining w pool state Hinv Hw Hf).
      pose proof (runPool_remaining_le rest _ Hinv'). lia.
    + apply elem_of_cons in Hin as [->|Hin]; [done|].
      pose proof (resume_remaining_le w0 pool Hinv).
      assert (remaining' (runPool' rest (resume' w0 pool))
              < remaining' (resume' w0 pool)); [|lia].
      apply IH; try done. rewrite resume_others by done. done.
Qed.

Lemma runPool_app s1 s2 pool :
  runPool' (s1 ++ s2) pool = runPool' s2 (runPool' s1 pool).
Proof. apply foldl_app. Qed.

Lemma runPool_finished schedule pool :
  (forall w state, workers pool !! w = Some state -> finished state = true) ->
  runPool' schedule pool = pool.
Proof.
  induction schedule as [|w rest IH]; intros Hall; [done|]. simpl.
  destruct (workers pool !! w) as [state|] eqn:Hw.
  - rewrite (resume_finished w pool state Hw (Hall w state Hw)). by apply IH.
  - unfold resume at 1. rewrite Hw. by apply IH.
Qed.

(** After as many rounds as there are calls left, every worker has
    ended. *)
Lemma roundRobin_ends rounds pool :
  invariant' pool -> remaining' pool <= rounds ->
  forall w state,
    workers (runPool' (roundRobin (length (workers pool)) rounds) pool) !! w
    = Some state ->
    finished state = true.
Proof using groups_partition.
  revert pool. induction rounds as [|rounds IH]; intros pool Hinv Hrem.
  - simpl. intros w state Hw. unfold remaining in Hrem.
    assert (callsLeft state <= sum_list_with callsLeft (workers pool)) as Hle.
    { clear -Hw. revert w Hw. induction (workers pool) as [|s0 ws IHws];
        intros [|w] Hw; simpl in *; try done.
      - injection Hw as ->. lia.
      - specialize (IHws w Hw). lia. }
    destruct state; simpl in *; try done; lia.
  - unfold roundRobin. simpl. fold (roundRobin (length (workers pool)) rounds).
    rewrite runPool_app.
    set (pool1 := runPool' (seq 0 (length (workers pool))) pool).
    assert (invariant' pool1) as Hinv1 by by apply runPool_invariant.
    assert (length (workers pool1) = length (workers pool)) as Hlen
      by apply runPool_workers.
    destruct (decide (Forall (fun state => finished state = true) (workers pool)))
      as [Hall|Hsome].
    + rewrite Forall_lookup in Hall. subst pool1.
      rewrite (runPool_finished (seq 0 _) pool Hall).
      rewrite (runPool_finished _ pool Hall). exact Hall.
    + apply not_Forall_Exists in Hsome; [|apply _].
      apply Exists_exists in Hsome as (state & [w Hw]%list_elem_of_lookup & Hf).
      simpl in Hf. apply not_true_is_false in Hf.
      assert (remaining' pool1 < remaining' pool) as Hlt.
      { apply (runPool_remaining _ pool w state); try done.
        apply elem_of_seq_iff. apply lookup_lt_Some in Hw. lia. }
      rewrite <- Hlen. apply IH; [done|lia].
Qed.

Lemma resume_rejection_continue w pool :
  continueOnError = true -> rejection (resume' w pool) = rejection pool.
Proof.
  intros Hc. unfold resume, failGroup, continueLoop, claimNext. rewrite Hc.
  repeat (case_match; simpl; simplify_eq; try done).
Qed.


Lemma runPool_rejection_continue schedule pool :
  continueOnError = true ->
  rejection (runPool' schedule pool) = rejection pool.
Proof.
  intros Hc. revert pool. induction schedule as [|w rest IH]; intros pool; [done|].
  simpl. by rewrite IH, resume_rejection_continue.
Qed.


Lemma startPool_rejection workerCount events :
  rejection (startPool pagesToProcess groups workerCount events) = None.
Proof.
  unfold startPool.
  assert (forall l pool, rejection (foldl (startWorker groups) pool l)
                         = rejection pool) as Hfold.
  { induction l as [|w l IH]; intros pool; [done|]. simpl. rewrite IH.
    unfold startWorker, claimNext. by destruct (groups !! _). }
  by rewrite Hfold.
Qed.

(** A worker that threw has rejected the pool. *)
Lemma resume_threw_rejected w pool :
  (forall w0 e0, workers pool !! w0 = Some (Threw e0) -> is_Some (rejection pool)) ->
  forall w0 e0,
    workers (resume' w pool) !! w0 = Some (Threw e0) ->
    is_Some (rejection (resume' w pool)).
Proof.
  intros HQ w0 e0. unfold resume, failGroup, continueLoop, claimNext.
  repeat (case_match; simpl; simplify_eq); try apply HQ;
    intros [(? & ? & ?)|[? ?]]%list_lookup_insert_Some; simplify_eq; eauto.
Qed.

Lemma runPool_threw_rejected schedule pool :
  (forall w0 e0, workers pool !! w0 = Some (Threw e0) -> is_Some (rejection pool)) ->
  forall w0 e0,
    workers (runPool' schedule pool) !! w0 = Some (Threw e0) ->
    is_Some (rejection (runPool' schedule pool)).
Proof.
  revert pool. induction schedule as [|w rest IH]; intros pool HQ; [done|].
  simpl. apply IH. by apply resume_threw_rejected.
Qed.

Lemma startPool_threw workerCount events w0 e0 :
  workers (startPool pagesToProcess groups workerCount events) !! w0
  <> Some (Threw e0).
Proof.
  unfold startPool.
  assert (forall l pool,
            (forall w, workers pool !! w <> Some (Threw e0)) ->
            forall w, workers (foldl (startWorker groups) pool l) !! w
                      <> Some (Threw e0)) as Hfold.
  { induction l as [|w l IH]; intros pool Hp; [done|]. simpl. apply IH.
    intros w1. unfold startWorker, claimNext.
    destruct (groups !! groupCursor pool); simpl;
      intros [[_ ?]|[_ ?]]%lookup_snoc_Some; try done; by eapply Hp. }
  apply Hfold. by intros [|w].
Qed.


(** With [continueOnError] on, the pool is fulfilled after enough
    rounds. *)
Lemma continue_fulfils pool :
  invariant' pool -> continueOnError = true -> rejection pool = None ->
  settlement
    (runPool' (roundRobin (length (workers pool)) (remaining' pool)) pool)
  = Fulfilled.
Proof using groups_partition.
  intros Hinv Hc Hr.
  pose proof (roundRobin_ends (remaining' pool) pool Hinv (Nat.le_refl _)) as Hend.
  pose proof (runPool_invariant
                (roundRobin (length (workers pool)) (remaining' pool)) pool Hinv)
    as [_ [_ Hthrew]].
  unfold settlement. rewrite runPool_rejection_continue, Hr by done.
  destruct (forallb returned _) eqn:Hall; [done|].
  apply not_true_iff_false in Hall. destruct Hall.
  apply forallb_forall. intros state [w Hw]%list_elem_of_In%list_elem_of_lookup.
  specialize (Hend w state Hw). destruct state; try done.
  specialize (Hthrew w error Hw). congruence.
Qed.

End PoolFacts.

(** ** The pool over the groups of the grouping loop *)

Lemma groupPages_nonempty pages dets :
  pages <> [] -> groupPages pages dets <> [].
Proof.
  intros Hp Hg. pose proof (groupPages_concat pages dets) as Hc.
  rewrite Hg in Hc. destruct pages; [done|]. discriminate Hc.
Qed.

Lemma reach_invariant pages dets continueOnError describe addTitle
    workerCount events schedule :
  invariant pages dets (groupPages pages dets) continueOnError describe addTitle
    (runPool pages dets (groupPages pages dets) continueOnError describe addTitle
       schedule (startPool pages (groupPages pages dets) workerCount events)).
Proof.
  apply runPool_invariant; [apply groupPages_concat|].
  apply startPool_invariant, groupPages_concat.
Qed.

Lemma reach_workers pages dets continueOnError describe addTitle
    workerCount events schedule :
  length (workers
            (runPool pages dets (groupPages pages dets) continueOnError
               describe addTitle schedule
               (startPool pages (groupPages pages dets) workerCount events)))
  = workerCount.
Proof.
  rewrite runPool_workers.
  apply (startPool_invariant pages dets (groupPages pages dets) continueOnError
           describe addTitle (groupPages_concat pages dets)).
Qed.

Lemma reach_workers_nonempty pages dets continueOnError describe addTitle
    concurrency events schedule :
  pages <> [] -> 0 < concurrency ->
  workers
    (runPool pages dets (groupPages pages dets) continueOnError
       describe addTitle schedule
       (startPool pages (groupPages pages dets)
          (workerCountOf (groupPages pages dets) concurrency) events))
  <> [].
Proof.
  intros Hp Hc Hw.
  pose proof (reach_workers pages dets continueOnError describe addTitle
                (workerCountOf (groupPages pages dets) concurrency)
                events schedule) as Hlen.
  rewrite Hw in Hlen. unfold workerCountOf in Hlen.
  pose proof (groupPages_nonempty pages dets Hp).
  destruct (groupPages pages dets); [done|]. simpl in Hlen. lia.
Qed.

(** ** Claims on the worker pool *)







Lemma groupPages_nil dets : groupPages [] dets = [].
Proof. unfold groupPages. by rewrite groupLoop_step. Qed.

(** C6. With [continueOnError] on, when the pipeline of exactly one
    group fails, the pool is fulfilled all the same once the awaited
    calls have settled; every page of that group has a failure entry
    with the error, the [groupId] of the group and the other pages of
    the group; the entries of the pages of every other group are
    successful, and they are the entries of a run in which that pipeline
    does not fail, whatever the schedules of the two runs. *)
Theorem failure_isolation pagesToProcess roomDetections
    describe1 addTitle1 describe2 addTitle2 concurrency events
    schedule1 schedule2 k gk error :
  let groups := groupPages pagesToProcess roomDetections in
  let start :=
    startPool pagesToProcess groups (workerCountOf groups concurrency) events in
  let pool1 :=
    runPool pagesToProcess roomDetections groups true describe1 addTitle1
      schedule1 start in
  let pool2 :=
    runPool pagesToProcess roomDetections groups true describe2 addTitle2
      schedule2 start in
  0 < concurrency ->
  groups !! k = Some gk ->
  pipeline pagesToProcess roomDetections describe1 addTitle1 gk = Err error ->
  (forall j g, j <> k -> groups !! j = Some g ->
     exists result,
       pipeline pagesToProcess roomDetections describe1 addTitle1 g = Ok result
       /\ pipeline pagesToProcess roomDetections describe2 addTitle2 g = Ok result) ->
  settlement pool1 = Fulfilled -> settlement pool2 = Fulfilled ->
  settlement
    (runPool pagesToProcess roomDetections groups true describe1 addTitle1
       (roundRobin (length (workers start)) (remaining groups start)) start)
  = Fulfilled
  /\ (forall li i,
     Group.pageIndices gk !! li = Some i ->
     exists entry,
       processedPages pool1 !! i = Some (Some entry)
       /\ PageResult.error entry = Some error
       /\ PageResult.groupId entry = Group.groupId gk
       /\ PageResult.groupedWith entry = delete li (Group.pages gk)
       /\ PageResult.renderPath entry = None)
  /\ (forall j g li i,
        j <> k -> groups !! j = Some g ->
        Group.pageIndices g !! li = Some i ->
        exists entry,
          processedPages pool1 !! i = Some (Some entry)
          /\ PageResult.succeeded entry = true
          /\ PageResult.groupId entry = Group.groupId g
          /\ processedPages pool2 !! i = Some (Some entry)).
Proof.
  intros groups start pool1 pool2 Hc Hk Hfail Hothers Hful1 Hful2.
  subst pool1 pool2.
  pose proof (groupPages_concat pagesToProcess roomDetections) as Hpart.
  assert (pagesToProcess <> []) as Hp.
  { intros ->. subst groups. by rewrite groupPages_nil in Hk. }
  assert (forall describe addTitle schedule gi g li i,
            settlement
              (runPool pagesToProcess roomDetections groups true describe
                 addTitle schedule start) = Fulfilled ->
            groups !! gi = Some g -> Group.pageIndices g !! li = Some i ->
            processedPages
              (runPool pagesToProcess roomDetections groups true describe
                 addTitle schedule start) !! i
            = Some (Some (entryOf pagesToProcess roomDetections describe
                            addTitle g li i))) as Hslots.
  { intros describe addTitle schedule gi g li i Hful Hg Hli.
    eapply fulfilled_slots; try done.
    - apply reach_invariant.
    - by apply reach_workers_nonempty. }
  split; [|split].
  - apply continue_fulfils; try done.
    + apply startPool_invariant, Hpart.
    + apply startPool_rejection.
  - intros li i Hli. eexists. split; [by eapply (Hslots describe1)|].
    unfold entryOf. by rewrite Hfail.
  - intros j g li i Hj Hg Hli.
    destruct (Hothers j g Hj Hg) as (result & Hr1 & Hr2).
    exists (successEntry pagesToProcess roomDetections g result li i).
    split; [|split; [done|split; [done|]]].
    + rewrite (Hslots describe1 addTitle1 schedule1 j g li i) by done.
      unfold entryOf. by rewrite Hr1.
    + rewrite (Hslots describe2 addTitle2 schedule2 j g li i) by done.
      unfold entryOf. by rewrite Hr2.
Qed.

Lemma failure_isolation_witness :
  let failing := Demo.pool (Some (str "p1.png")) true 2 (roundRobin 2 4) in
  let sound := Demo.pool None true 2 [1; 0; 1; 0; 1; 1] in
  (exists entry,
     processedPages failing !! 1 = Some (Some entry)
     /\ PageResult.error entry = Some Demo.boom)
  /\ (exists entry,
        processedPages failing !! 2 = Some (Some entry)
        /\ PageResult.succeeded entry = true
        /\ processedPages sound !! 2 = Some (Some entry)).
Proof.
  intros failing sound.
  destruct (failure_isolation Demo.pages Demo.detections
              (Demo.describePageAndGenerate (Some (str "p1.png")))
              Demo.addTitleToImage
              (Demo.describePageAndGenerate None) Demo.addTitleToImage
              2 [] (roundRobin 2 4) [1; 0; 1; 0; 1; 1] 1
              (Group.mk 2 [1] [str "p1.png"] None None) Demo.boom)
    as (_ & H1 & H2); try reflexivity; [lia| |].
  - intros [|[|[|j]]] g Hj Hg; try done; vm_compute in Hg;
      injection Hg as <-; eexists; split; vm_compute; reflexivity.
  - split.
    + destruct (H1 0 1 eq_refl) as (entry & Ha & Hb & _).
      exists entry. split; [exact Ha|exact Hb].
    + destruct (H2 2 _ 0 2 ltac:(discriminate) eq_refl eq_refl)
        as (entry & Ha & Hb & _ & Hc).
      exists entry. split; [exact Ha|]. split; [exact Hb|exact Hc].
Defined.

(** ** Claims on pdfGenerate *)

Section PdfGenerateFacts.

Variable resolve : Path -> Path.
Variable extname : Path -> jsstring.
Variable join : Path -> Path -> Path.
Variable basename : Path -> Path.
Variable existsSync : Path -> bool.
Variable readdir : Path -> Result (list Path).
Variable embedImages : list Path -> Result (list N).
Variable writeFile : Path -> list N -> Result unit.
Variable unlink : Path -> Result unit.
Variable pdfToPngs : Path -> Path -> Z -> Result (list Path).
Variable identifyRoomName : Path -> Result Heading.t.
Variable describePageAndGenerate :
  list Path -> RoomContext.t -> Result GenResult.t.
Variable addTitleToImage : Path -> jsstring -> Result unit.

Abbreviation generate :=
  (pdfGenerate resolve extname join basename existsSync readdir embedImages
     writeFile unlink pdfToPngs identifyRoomName describePageAndGenerate
     addTitleToImage).
Abbreviation merge :=
  (mergeCall resolve extname join basename existsSync readdir embedImages
     writeFile).

(** [outputMerge] throws when the directory has no image file. *)
Lemma outputMerge_no_images optOutputDir optOutputPath files :
  existsSync (mergeDirOf resolve optOutputDir) = true ->
  readdir (mergeDirOf resolve optOutputDir) = Ok files ->
  Forall (fun f => isImageFile extname f = false) files ->
  outputMerge resolve extname join basename existsSync readdir embedImages
    writeFile optOutputDir optOutputPath
  = Err (newError (str "No image files found in output directory: "
                   ++ mergeDirOf resolve optOutputDir)).
Proof.
  intros Hex Hdir Hnone. unfold outputMerge. rewrite Hex, Hdir. simpl.
  assert (filter (fun f => isImageFile extname f) files = []) as ->.
  { clear Hdir. induction Hnone as [|f rest Hf _ IH]; [done|].
    by rewrite filter_cons, IH, Hf. }
  reflexivity.
Qed.

Lemma concurrencyOf_pos options : 0 < concurrencyOf options.
Proof.
  unfold concurrencyOf. destruct (Options.concurrency options) as [c|]; [|lia].
  destruct (0 <? c)%Z eqn:Hc; [|lia]. apply Z.ltb_lt in Hc. lia.
Qed.

(** Every report that [pdfGenerate] resolves with has all its slots set:
    a run in which a worker threw does not resolve. *)
Lemma pdfGenerate_report_complete pdfPath options schedule report i :
  (generate pdfPath options schedule).1 = Resolves report ->
  i < length (Report.processedPages report) ->
  exists entry, Report.processedPages report !! i = Some (Some entry).
Proof.
  unfold pdfGenerate.
  destruct (negb (truthy pdfPath)); [done|].
  destruct (pdfToPngs _ _ _) as [pageImages|e0]; [|done].
  destruct (Z.of_nat (length pageImages) <=? skipPagesOf options)%Z.
  { cbn [fst]. intros [= <-]. simpl. lia. }
  destruct (decide _) as [|Hne].
  { cbn [fst]. intros [= <-]. simpl. lia. }
  destruct (detectRooms _ _ _ _ _) as [[dets|e1] ev]; [|done].
  destruct (settlement _) eqn:Hful; [done| |done].
  cbn [fst]. intros [= <-]. cbn [Report.processedPages]. intros Hi.
  set (pages := sliceFrom (skipPagesOf options) pageImages) in *.
  pose proof (groupPages_concat pages dets) as Hpart.
  pose proof (reach_invariant pages dets (Options.continueOnError options)
                describePageAndGenerate addTitleToImage
                (workerCountOf (groupPages pages dets) (concurrencyOf options))
                ev schedule) as Hinv.
  rewrite (inv_length _ _ _ _ _ _ _ _ (proj1 Hinv)) in Hi.
  destruct (part_cover pages (groupPages pages dets) Hpart i Hi)
    as (gi & g & k & Hg & Hk).
  eexists. eapply fulfilled_slots; try done.
  apply reach_workers_nonempty; [|apply concurrencyOf_pos].
  by destruct pages.
Qed.

(** C9. When [outputMerge] throws, as it does when the output directory
    has no file, [pdfGenerate] ends as it does with [mergeOutput: false]:
    it resolves with the same report, whose per-page results are those
    of the pool and whose [mergedPdfPath] is [null]; the error is
    written to the console by the [catch] of the merge step. *)
Theorem merge_failure_not_fatal pdfPath options schedule error :
  Options.mergeOutput options = true ->
  merge options = Err error ->
  let merged := generate pdfPath options schedule in
  let plain := generate pdfPath (Options.noMerge options) schedule in
  merged.1 = plain.1
  /\ (forall report,
        merged.1 = Resolves report -> Report.mergedPdfPath report = None)
  /\ (forall report,
        merged.1 = Resolves report -> is_Some (Report.groups report) ->
        merged.2
        = plain.2 ++ [CallMerge (outputDirOf resolve options)
                        (mergedPathOf resolve options);
                      WarnMergeFailed error])
  /\ (existsSync (mergeDirOf resolve (Some (outputDirOf resolve options))) = true ->
      readdir (mergeDirOf resolve (Some (outputDirOf resolve options))) = Ok [] ->
      error
      = newError (str "No image files found in output directory: "
                  ++ mergeDirOf resolve (Some (outputDirOf resolve options)))).
Proof.
  intros Hm He merged plain.
  assert (mergeStep resolve extname join basename existsSync readdir
            embedImages writeFile unlink options
          = fun events =>
              (None,
               (events ++ [CallMerge (outputDirOf resolve options)
                             (mergedPathOf resolve options)])
               ++ [WarnMergeFailed error])) as Hstep.
  { unfold mergeStep. fold merge. by rewrite Hm, He. }
  assert (mergeStep resolve extname join basename existsSync readdir
            embedImages writeFile unlink (Options.noMerge options)
          = fun events => (None, events)) as Hplain by done.
  assert (existsSync (mergeDirOf resolve (Some (outputDirOf resolve options))) = true ->
          readdir (mergeDirOf resolve (Some (outputDirOf resolve options))) = Ok [] ->
          error
          = newError (str "No image files found in output directory: "
                      ++ mergeDirOf resolve (Some (outputDirOf resolve options))))
    as Hempty.
  { intros Hex Hdir.
    pose proof (outputMerge_no_images (Some (outputDirOf resolve options))
                  (Some (mergedPathOf resolve options)) [] Hex Hdir
                  (Forall_nil_2 _)) as Hno.
    unfold mergeCall in He. congruence. }
  subst merged plain. unfold pdfGenerate. rewrite Hstep, Hplain.
  clear Hstep Hplain He Hm.
  replace (pagesDirOf resolve (Options.noMerge options))
    with (pagesDirOf resolve options) by done.
  replace (outputDirOf resolve (Options.noMerge options))
    with (outputDirOf resolve options) by done.
  replace (nothingToProcess resolve (Options.noMerge options))
    with (nothingToProcess resolve options) by done.
  change (skipConversionPagesOf (Options.noMerge options))
    with (skipConversionPagesOf options).
  change (skipPagesOf (Options.noMerge options)) with (skipPagesOf options).
  change (concurrencyOf (Options.noMerge options)) with (concurrencyOf options).
  change (Options.continueOnError (Options.noMerge options))
    with (Options.continueOnError options).
  destruct (negb (truthy pdfPath)); [by repeat split|].
  destruct (pdfToPngs _ _ _) as [pageImages|e0]; [|by repeat split].
  destruct (Z.of_nat (length pageImages) <=? skipPagesOf options)%Z.
  { cbn [fst snd]. repeat split; try done.
    - by intros report [= <-].
    - intros report [= <-] [? Hg]. done. }
  destruct (decide _).
  { cbn [fst snd]. repeat split; try done.
    - by intros report [= <-].
    - intros report [= <-] [? Hg]. done. }
  destruct (detectRooms _ _ _ _ _) as [[dets|e1] ev]; [|by repeat split].
  destruct (settlement _); [by repeat split| |by repeat split].
  cbn [fst snd]. repeat split; try done.
  - by intros report [= <-].
  - intros report _ _. by rewrite <- app_assoc.
Qed.

End PdfGenerateFacts.

Lemma merge_failure_not_fatal_witness :
  let merged := Demo.generate None [] (Demo.options true 2) (roundRobin 2 4) in
  let plain :=
    Demo.generate None [] (Options.noMerge (Demo.options true 2)) (roundRobin 2 4) in
  merged.1 = plain.1
  /\ exists report,
       merged.1 = Resolves report
       /\ Report.processedPages report
          = processedPages (Demo.pool None true 2 (roundRobin 2 4))
       /\ Report.mergedPdfPath report = None.
Proof.
  intros merged plain.
  destruct (merge_failure_not_fatal Demo.resolve Demo.extname Demo.join
              Demo.basename Demo.existsSync (Demo.readdir []) Demo.embedImages
              Demo.writeFile Demo.unlink Demo.pdfToPngs Demo.identifyRoomName
              (Demo.describePageAndGenerate None) Demo.addTitleToImage
              (Some (str "plan.pdf")) (Demo.options true 2) (roundRobin 2 4)
              (newError (str "No image files found in output directory: generated"))
              eq_refl eq_refl)
    as (H1 & H2 & _).
  split; [exact H1|].
  eexists. split; [vm_compute; reflexivity|]. split; reflexivity.
Defined.

Example demo_run :
  (Demo.generate None [str "p0.png-render.png"] (Demo.options true 2)
     (roundRobin 2 4)).1
  = Resolves
      {| Report.pagesDir := str "pdf-pages";
         Report.outputDir := str "generated";
         Report.pageImages := Demo.pages;
         Report.processedPages := processedPages (Demo.pool None true 2 (roundRobin 2 4));
         Report.skipPages := Some 0%Z;
         Report.concurrency := Some 2;
         Report.groups := Some (groupPages Demo.pages Demo.detections);
         Report.roomDetections := Some Demo.detections;
         Report.mergedPdfPath := Some (str "merged-output.pdf") |}.
Proof. vm_compute. reflexivity. Qed.

(** * Further properties of the orchestration *)

(** ** The detection loop *)

Section DetectionFacts.

Variable identifyRoomName : Path -> Result Heading.t.

Abbreviation detect := (detectRooms identifyRoomName).
Abbreviation found :=
  (fun pagePath : Path => exists detection, identifyRoomName pagePath = Ok detection).

(** What the loop gives when it reaches the end of the pages. *)
Lemma detectionFor_found p d :
  identifyRoomName p = Ok d ->
  detectionFor identifyRoomName p = detectionOf p d
  /\ detectionEvents identifyRoomName p = [CallIdentify p].
Proof. unfold detectionFor, detectionEvents. by intros ->. Qed.

Lemma detectionFor_failed p e :
  identifyRoomName p = Err e ->
  detectionFor identifyRoomName p = failedDetection p e
  /\ detectionEvents identifyRoomName p
     = [CallIdentify p; WarnIdentifyFailed p e].
Proof. unfold detectionFor, detectionEvents. by intros ->. Qed.

Lemma detectRooms_ok continueOnError pages roomDetections events dets events' :
  detect continueOnError pages roomDetections events = (Ok dets, events') ->
  (continueOnError = true \/ Forall found pages)
  /\ dets = roomDetections ++ map (detectionFor identifyRoomName) pages
  /\ events' = events ++ flat_map (detectionEvents identifyRoomName) pages.
Proof.
  revert roomDetections events dets events'.
  induction pages as [|p rest IH]; intros acc ev dets ev'; cbn [detectRooms map flat_map].
  - intros [= <- <-]. rewrite !app_nil_r. split; [right; constructor|done].
  - destruct (identifyRoomName p) as [d|e] eqn:Hp.
    + destruct (detectionFor_found p d Hp) as [-> ->].
      intros (Hc & -> & ->)%IH. rewrite <- !app_assoc. split; [|done].
      destruct Hc as [Hc|Hc]; [by left|right]. constructor; eauto.
    + destruct (detectionFor_failed p e Hp) as [-> ->].
      destruct continueOnError; [|done].
      intros (_ & -> & ->)%IH. rewrite <- !app_assoc. split; [by left|done].
Qed.

Lemma detectRooms_goes_on continueOnError pages roomDetections events :
  continueOnError = true \/ Forall found pages ->
  detect continueOnError pages roomDetections events
  = (Ok (roomDetections ++ map (detectionFor identifyRoomName) pages),
     events ++ flat_map (detectionEvents identifyRoomName) pages).
Proof.
  revert roomDetections events.
  induction pages as [|p rest IH]; intros acc ev Hc; cbn [detectRooms map flat_map].
  - by rewrite !app_nil_r.
  - destruct (identifyRoomName p) as [d|e] eqn:Hp.
    + destruct (detectionFor_found p d Hp) as [-> ->].
      rewrite IH, <- !app_assoc; [done|].
      destruct Hc as [Hc|Hc]; [by left|right]. by inversion Hc.
    + destruct (detectionFor_failed p e Hp) as [-> ->].
      destruct Hc as [->|Hc].
      * rewrite IH, <- !app_assoc; [done|by left].
      * inversion Hc as [|? ? [d Hd] _]. congruence.
Qed.

(** With [continueOnError] off the loop ends at the first page whose
    detection fails. *)
Lemma detectRooms_stops before p after error roomDetections events :
  Forall found before -> identifyRoomName p = Err error ->
  detect false (before ++ p :: after) roomDetections events
  = (Err error,
     events ++ map CallIdentify before
     ++ [CallIdentify p; WarnIdentifyFailed p error]).
Proof.
  intros Hbefore Hp. revert roomDetections events.
  induction Hbefore as [|q before [d Hq] _ IH]; intros acc ev; simpl.
  - by rewrite Hp.
  - rewrite Hq, IH, <- !app_assoc. done.
Qed.

Lemma detectionFor_pageImage pages :
  map Detection.pageImage (map (detectionFor identifyRoomName) pages) = pages.
Proof.
  induction pages as [|p rest IH]; [done|]. simpl. rewrite IH.
  unfold detectionFor. by destruct (identifyRoomName p).
Qed.

(** The detection loop reaches the end of the pages exactly when
    [continueOnError] is on or no detection fails. It has then pushed one
    entry for each page, in the order of the pages and with the page as
    its [pageImage]: the entry of the heading found, or the entry of the
    [catch] branch, whose [normalized] is [null]. Every page was passed
    to [identifyRoomName] once, in order. *)
Theorem detection_one_per_page continueOnError pages events :
  (forall dets events',
     detect continueOnError pages [] events = (Ok dets, events') <->
     (continueOnError = true \/ Forall found pages)
     /\ dets = map (detectionFor identifyRoomName) pages
     /\ events' = events ++ flat_map (detectionEvents identifyRoomName) pages)
  /\ length (map (detectionFor identifyRoomName) pages) = length pages
  /\ map Detection.pageImage (map (detectionFor identifyRoomName) pages) = pages.
Proof.
  split; [|split; [apply length_map|apply detectionFor_pageImage]].
  intros dets events'. split.
  - apply detectRooms_ok.
  - intros (Hc & -> & ->). by apply detectRooms_goes_on.
Qed.

End DetectionFacts.

(** ** The groups *)

(** The [k]-th group of [groups] has [groupId] [k + 1]. Its [pages] are
    the pages at its [pageIndices]. Its [normalizedName] is the
    normalized name of its first page, and when the group has more than
    one page, this name is truthy and every page of the group has it. *)
Theorem group_fields pagesToProcess roomDetections k g :
  groupPages pagesToProcess roomDetections !! k = Some g ->
  Group.groupId g = k + 1
  /\ Forall2 (fun i page => pagesToProcess !! i = Some page)
       (Group.pageIndices g) (Group.pages g)
  /\ head (Group.pageIndices g) ≫= normalizedAt roomDetections
     = Group.normalizedName g
  /\ (1 < length (Group.pageIndices g) ->
      truthy (Group.normalizedName g) = true
      /\ forall i, i ∈ Group.pageIndices g ->
           normalizedAt roomDetections i = Group.normalizedName g).
Proof.
  intros Hk.
  destruct (groupPages_lookup _ _ _ _ Hk) as (start & len & Hrun & _ & Hid & _).
  pose proof (run_size _ _ _ _ _ Hrun) as Hsize.
  pose proof (run_bound _ _ _ _ _ Hrun) as Hbound.
  rewrite (run_indices _ _ _ _ _ Hrun), (run_pages _ _ _ _ _ Hrun),
    (run_normalizedName _ _ _ _ _ Hrun).
  split; [done|]. split; [|split].
  - apply Forall2_fmap_r, Forall_Forall2_diag, Forall_forall.
    intros i Hi%elem_of_seq_iff.
    apply list_lookup_lookup_total_lt. lia.
  - by destruct len; [lia|].
  - rewrite length_seq. intros Hlen.
    assert (truthy (normalizedAt roomDetections start) = true) as Htr.
    { destruct (truthy _) eqn:E; [done|].
      pose proof (run_single _ _ _ _ _ Hrun E). lia. }
    split; [done|]. intros i Hi%elem_of_seq_iff. by eapply run_same.
Qed.

(** ** The worker pool: the order in which the groups are taken *)

Section ClaimOrder.

Variable pagesToProcess : list Path.
Variable roomDetections : list Detection.t.
Variable groups : list Group.t.
Variable continueOnError : bool.
Variable describePageAndGenerate :
  list Path -> RoomContext.t -> Result GenResult.t.
Variable addTitleToImage : Path -> jsstring -> Result unit.

Abbreviation step :=
  (resume pagesToProcess roomDetections groups continueOnError
     describePageAndGenerate addTitleToImage).
Abbreviation run :=
  (runPool pagesToProcess roomDetections groups continueOnError
     describePageAndGenerate addTitleToImage).

(** The groups taken so far are the first [groupCursor] groups, taken in
    the order of [groups], after the calls of [first]. *)
Abbreviation inOrder first pool :=
  (claimedGroups (trace pool) = first ++ seq 0 (groupCursor pool)
   /\ groupCursor pool <= length groups).

Lemma claimedGroups_snoc events e :
  claimedGroups (events ++ [e])
  = claimedGroups events
    ++ match e with CallDescribe _ gi => [gi] | _ => [] end.
Proof. unfold claimedGroups. rewrite omap_app. by destruct e. Qed.

Lemma claimNext_inOrder first w pool :
  inOrder first pool -> inOrder first (claimNext groups w pool).2.
Proof.
  intros [Ht Hc]. unfold claimNext.
  destruct (groups !! groupCursor pool) as [g|] eqn:Hg; simpl; [|done].
  rewrite claimedGroups_snoc, Ht, <- app_assoc, Nat.add_1_r, seq_S.
  split; [done|]. apply lookup_lt_Some in Hg. lia.
Qed.

Lemma continueLoop_inOrder first w pool :
  inOrder first pool -> inOrder first (continueLoop groups w pool).
Proof.
  intros H. pose proof (claimNext_inOrder first w pool H) as H'.
  unfold continueLoop. by destruct (claimNext groups w pool).
Qed.

Lemma failGroup_inOrder first w g error pool :
  inOrder first pool ->
  inOrder first
    (failGroup pagesToProcess roomDetections groups continueOnError
       w g error pool).
Proof.
  intros [Ht Hc]. unfold failGroup. destruct continueOnError.
  - apply continueLoop_inOrder. simpl.
    by rewrite claimedGroups_snoc, app_nil_r.
  - simpl. by rewrite !claimedGroups_snoc, !app_nil_r.
Qed.

Lemma resume_inOrder first w pool :
  inOrder first pool -> inOrder first (step w pool).
Proof.
  intros H. unfold resume.
  destruct (workers pool !! w) as [[gi g|gi g result| |e]|]; try done.
  - destruct (describePageAndGenerate _ _); [|by apply failGroup_inOrder].
    simpl. by rewrite claimedGroups_snoc, app_nil_r.
  - destruct (addTitleToImage _ _); [|by apply failGroup_inOrder].
    by apply continueLoop_inOrder.
Qed.

Lemma runPool_inOrder first schedule pool :
  inOrder first pool -> inOrder first (run schedule pool).
Proof.
  revert pool. induction schedule as [|w rest IH]; intros pool H; [done|].
  simpl. by apply IH, resume_inOrder.
Qed.

Lemma startPool_inOrder workerCount events :
  inOrder (claimedGroups events)
    (startPool pagesToProcess groups workerCount events).
Proof.
  unfold startPool.
  assert (forall l pool, inOrder (claimedGroups events) pool ->
            inOrder (claimedGroups events) (foldl (startWorker groups) pool l))
    as Hfold.
  { induction l as [|w l IH]; intros pool H; [done|]. simpl. apply IH.
    pose proof (claimNext_inOrder _ w pool H) as H'.
    unfold startWorker. by destruct (claimNext groups w pool). }
  apply Hfold. simpl. rewrite app_nil_r. split; [done|lia].
Qed.

(** At every point of every run of the pool, the groups for which
    [describePageAndGenerate] has been called are the first [groupCursor]
    groups, each called for once, in the order of [groups]: no group is
    taken twice, none is skipped, and the cursor never passes the end of
    [groups]. *)
Theorem groups_taken_in_order workerCount events schedule :
  let pool :=
    run schedule (startPool pagesToProcess groups workerCount events) in
  claimedGroups (trace pool)
  = claimedGroups events ++ seq 0 (groupCursor pool)
  /\ groupCursor pool <= length groups.
Proof. apply runPool_inOrder, startPool_inOrder. Qed.

End ClaimOrder.

(** ** The worker pool: how it settles *)

Section Settling.

Variable pagesToProcess : list Path.
Variable roomDetections : list Detection.t.
Variable groups : list Group.t.
Variable continueOnError : bool.
Variable describePageAndGenerate :
  list Path -> RoomContext.t -> Result GenResult.t.
Variable addTitleToImage : Path -> jsstring -> Result unit.

Hypothesis groups_partition :
  concat (map Group.pageIndices groups) = seq 0 (length pagesToProcess).

Abbreviation step' :=
  (resume pagesToProcess roomDetections groups continueOnError
     describePageAndGenerate addTitleToImage).
Abbreviation run' :=
  (runPool pagesToProcess roomDetections groups continueOnError
     describePageAndGenerate addTitleToImage).
Abbreviation inv :=
  (invariant pagesToProcess roomDetections groups continueOnError
     describePageAndGenerate addTitleToImage).
Abbreviation outcome :=
  (pipeline pagesToProcess roomDetections describePageAndGenerate
     addTitleToImage).
Abbreviation blamed pool :=
  (forall error, rejection pool = Some error ->
     exists g, g ∈ groups /\ outcome g = Err error).

Lemma failGroup_blamed w g error pool :
  g ∈ groups -> outcome g = Err error -> blamed pool ->
  blamed (failGroup pagesToProcess roomDetections groups continueOnError
            w g error pool).
Proof.
  intros Hg Hout Hb e. unfold failGroup, continueLoop, claimNext.
  destruct continueOnError; simpl.
  - destruct (groups !! groupCursor pool); simpl; apply Hb.
  - destruct (rejection pool) as [first|] eqn:Hr.
    + intros [= <-]. by apply Hb.
    + intros [= <-]. eauto.
Qed.

Lemma resume_blamed w pool : inv pool -> blamed pool -> blamed (step' w pool).
Proof.
  intros [HI _] Hb. unfold resume.
  destruct (workers pool !! w) as [[gi g|gi g result| |e]|] eqn:Hw; try done.
  - destruct (inv_held _ _ _ _ _ _ _ _ HI w _ gi g Hw eq_refl) as [Hg _].
    apply list_elem_of_lookup_2 in Hg.
    destruct (describePageAndGenerate _ _) as [result|error] eqn:Hd; [done|].
    apply failGroup_blamed; [done| |done]. unfold pipeline. by rewrite Hd.
  - destruct (inv_held _ _ _ _ _ _ _ _ HI w _ gi g Hw eq_refl) as [Hg _].
    apply list_elem_of_lookup_2 in Hg.
    pose proof (inv_title _ _ _ _ _ _ _ _ HI w gi g result Hw) as Hd.
    destruct (addTitleToImage _ _) as [|error] eqn:Ht.
    + unfold continueLoop, claimNext.
      destruct (groups !! _); simpl; apply Hb.
    + apply failGroup_blamed; [done| |done]. unfold pipeline. by rewrite Hd, Ht.
Qed.

Lemma runPool_blamed schedule pool :
  inv pool -> blamed pool -> blamed (run' schedule pool).
Proof using groups_partition.
  revert pool. induction schedule as [|w rest IH]; intros pool Hinv Hb; [done|].
  simpl. apply IH; [by apply resume_invariant|by apply resume_blamed].
Qed.

(** Once every worker has ended, the pool is settled. *)
Lemma ended_settled pool :
  (forall w e, workers pool !! w = Some (Threw e) -> is_Some (rejection pool)) ->
  (forall w state, workers pool !! w = Some state -> finished state = true) ->
  settlement pool <> Pending.
Proof.
  intros Hthrew Hend. unfold settlement.
  destruct (rejection pool) as [e|] eqn:Hr; [done|].
  destruct (forallb returned (workers pool)) eqn:Hall; [done|].
  apply not_true_iff_false in Hall. destruct Hall.
  apply forallb_forall. intros state [w Hw]%list_elem_of_In%list_elem_of_lookup.
  specialize (Hend w state Hw). destruct state; try done.
  destruct (Hthrew w error Hw) as [? ?]. congruence.
Qed.

End Settling.

(** The pool over the groups of the grouping loop always settles: once
    the awaited calls have settled, [Promise.all] is fulfilled or
    rejected. It is rejected only with [continueOnError] off, and then
    with the error of the pipeline of one of the groups. So when no
    pipeline fails the pool is fulfilled, with [continueOnError] off as
    well as on. *)
Theorem pool_settles pagesToProcess roomDetections continueOnError
    describePageAndGenerate addTitleToImage workerCount events :
  let groups := groupPages pagesToProcess roomDetections in
  let run :=
    runPool pagesToProcess roomDetections groups continueOnError
      describePageAndGenerate addTitleToImage in
  let outcome :=
    pipeline pagesToProcess roomDetections describePageAndGenerate
      addTitleToImage in
  let start := startPool pagesToProcess groups workerCount events in
  let rounds := roundRobin (length (workers start)) (remaining groups start) in
  (forall schedule error,
     settlement (run schedule start) = Rejected error ->
     continueOnError = false
     /\ exists g, g ∈ groups /\ outcome g = Err error)
  /\ settlement (run rounds start) <> Pending
  /\ ((forall g, g ∈ groups -> exists result, outcome g = Ok result) ->
      settlement (run rounds start) = Fulfilled).
Proof.
  intros groups run outcome start rounds.
  pose proof (groupPages_concat pagesToProcess roomDetections) as Hpart.
  fold groups in Hpart.
  assert (invariant pagesToProcess roomDetections groups continueOnError
            describePageAndGenerate addTitleToImage start) as Hstart
    by by apply startPool_invariant.
  assert (forall schedule error,
            settlement (run schedule start) = Rejected error ->
            continueOnError = false
            /\ exists g, g ∈ groups /\ outcome g = Err error) as Hrej.
  { intros schedule error Hs.
    assert (rejection (run schedule start) = Some error) as Hr.
    { unfold settlement in Hs. destruct (rejection _); [congruence|].
      by destruct (forallb _ _). }
    split.
    - destruct continueOnError eqn:Hc; [|done].
      unfold run in Hr. rewrite runPool_rejection_continue in Hr by done.
      unfold start in Hr. by rewrite startPool_rejection in Hr.
    - apply (runPool_blamed pagesToProcess roomDetections groups
               continueOnError describePageAndGenerate addTitleToImage
               Hpart schedule start Hstart); [|done].
      intros e He. unfold start in He. by rewrite startPool_rejection in He. }
  assert (settlement (run rounds start) <> Pending) as Hset.
  { apply ended_settled.
    - apply runPool_threw_rejected. intros w0 e0 H0.
      by apply startPool_threw in H0.
    - by apply roundRobin_ends. }
  split; [done|]. split; [done|]. intros Hok.
  destruct (settlement (run rounds start)) as [| |error] eqn:Hs; [done|done|].
  destruct (Hrej rounds error Hs) as (_ & g & Hg & Hfail).
  destruct (Hok g Hg) as [result Hres]. congruence.
Qed.

(** ** [Array.prototype.slice] from a start *)

Lemma sliceFrom_suffix {A} (start : Z) (a : list A) :
  sliceFrom start a `suffix_of` a.
Proof. unfold sliceFrom. destruct (start <? 0)%Z; apply suffix_drop. Qed.

Lemma sliceFrom_length {A} (start : Z) (a : list A) :
  Z.of_nat (length (sliceFrom start a))
  = if (start <? 0)%Z then Z.min (Z.of_nat (length a)) (- start)
    else Z.max 0 (Z.of_nat (length a) - start).
Proof.
  unfold sliceFrom. destruct (start <? 0)%Z eqn:Hs; rewrite length_drop; lia.
Qed.

(** ** The files that are deleted *)

Lemma unlinked_app events events' :
  unlinked (events ++ events') = unlinked events ++ unlinked events'.
Proof. apply omap_app. Qed.

Section TraceFacts.

Variable pagesToProcess : list Path.
Variable roomDetections : list Detection.t.
Variable groups : list Group.t.
Variable continueOnError : bool.
Variable describePageAndGenerate :
  list Path -> RoomContext.t -> Result GenResult.t.
Variable addTitleToImage : Path -> jsstring -> Result unit.

Lemma claimNext_unlinked w pool :
  unlinked (trace (claimNext groups w pool).2) = unlinked (trace pool).
Proof.
  unfold claimNext. destruct (groups !! _); simpl; [|done].
  by rewrite unlinked_app, app_nil_r.
Qed.

Lemma continueLoop_unlinked w pool :
  unlinked (trace (continueLoop groups w pool)) = unlinked (trace pool).
Proof.
  pose proof (claimNext_unlinked w pool) as H. unfold continueLoop.
  by destruct (claimNext groups w pool).
Qed.

Lemma failGroup_unlinked w g error pool :
  unlinked (trace (failGroup pagesToProcess roomDetections groups
                     continueOnError w g error pool))
  = unlinked (trace pool).
Proof.
  unfold failGroup. destruct continueOnError.
  - rewrite continueLoop_unlinked. simpl. by rewrite unlinked_app, app_nil_r.
  - simpl. by rewrite !unlinked_app, !app_nil_r.
Qed.

(** The pool deletes no file. *)
Lemma resume_unlinked w pool :
  unlinked (trace (resume pagesToProcess roomDetections groups continueOnError
                     describePageAndGenerate addTitleToImage w pool))
  = unlinked (trace pool).
Proof.
  unfold resume.
  destruct (workers pool !! w) as [[gi g|gi g result| |e]|]; try done.
  - destruct (describePageAndGenerate _ _); [|apply failGroup_unlinked].
    simpl. by rewrite unlinked_app, app_nil_r.
  - destruct (addTitleToImage _ _); [|apply failGroup_unlinked].
    by rewrite continueLoop_unlinked.
Qed.

Lemma runPool_unlinked schedule pool :
  unlinked (trace (runPool pagesToProcess roomDetections groups continueOnError
                     describePageAndGenerate addTitleToImage schedule pool))
  = unlinked (trace pool).
Proof.
  revert pool. induction schedule as [|w rest IH]; intros pool; [done|].
  simpl. by rewrite IH, resume_unlinked.
Qed.

Lemma startPool_unlinked workerCount events :
  unlinked (trace (startPool pagesToProcess groups workerCount events))
  = unlinked events.
Proof.
  unfold startPool.
  assert (forall l pool, unlinked (trace (foldl (startWorker groups) pool l))
                         = unlinked (trace pool)) as Hfold.
  { induction l as [|w l IH]; intros pool; [done|]. simpl. rewrite IH.
    unfold startWorker, claimNext.
    destruct (groups !! _); simpl; by rewrite ?unlinked_app, ?app_nil_r. }
  by rewrite Hfold.
Qed.

End TraceFacts.

(** ** pdfGenerate as a whole *)

Section PdfGenerateMore.

Variable resolve : Path -> Path.
Variable extname : Path -> jsstring.
Variable join : Path -> Path -> Path.
Variable basename : Path -> Path.
Variable existsSync : Path -> bool.
Variable readdir : Path -> Result (list Path).
Variable embedImages : list Path -> Result (list N).
Variable writeFile : Path -> list N -> Result unit.
Variable unlink : Path -> Result unit.
Variable pdfToPngs : Path -> Path -> Z -> Result (list Path).
Variable identifyRoomName : Path -> Result Heading.t.
Variable describePageAndGenerate :
  list Path -> RoomContext.t -> Result GenResult.t.
Variable addTitleToImage : Path -> jsstring -> Result unit.

Abbreviation generate' :=
  (pdfGenerate resolve extname join basename existsSync readdir embedImages
     writeFile unlink pdfToPngs identifyRoomName describePageAndGenerate
     addTitleToImage).
Abbreviation merge' :=
  (mergeCall resolve extname join basename existsSync readdir embedImages
     writeFile).
Abbreviation render options pdfPath :=
  (pdfToPngs (resolve (default [] pdfPath)) (pagesDirOf resolve options)
     (skipConversionPagesOf options)).
Abbreviation isPng file := (toLowerCase (extname file) = str ".png").

(** The files deleted by the loop over a listing are [.png] files of
    the listing. *)
Lemma unlinkPngs_unlinked dir files events :
  exists new,
    (unlinkPngs extname join unlink dir files events).2 = events ++ new
    /\ Forall (fun e => exists file,
                 e = CallUnlink (join dir file) /\ file ∈ files /\ isPng file)
         new.
Proof.
  revert events. induction files as [|file rest IH]; intros events; simpl.
  - exists []. by rewrite app_nil_r.
  - assert (forall new : list Event,
              Forall (fun e => exists file,
                        e = CallUnlink (join dir file) /\ file ∈ rest
                        /\ isPng file) new ->
              Forall (fun e => exists file0,
                        e = CallUnlink (join dir file0) /\ file0 ∈ file :: rest
                        /\ isPng file0) new) as Hweak.
    { intros new Hnew. eapply Forall_impl; [exact Hnew|].
      intros e (f & -> & Hf & Hpng).
      exists f. split; [done|]. split; [by right|done]. }
    destruct (bool_decide (isPng file)) eqn:Hpng.
    + apply bool_decide_eq_true in Hpng.
      destruct (unlink (join dir file)).
      * destruct (IH (events ++ [CallUnlink (join dir file)])) as (new & -> & Hnew).
        exists (CallUnlink (join dir file) :: new). rewrite <- app_assoc.
        split; [done|]. constructor; [|by apply Hweak].
        exists file. split; [done|]. split; [by left|done].
      * exists [CallUnlink (join dir file)]. split; [done|].
        constructor; [|done]. exists file. split; [done|]. split; [by left|done].
    + destruct (IH events) as (new & -> & Hnew). exists new. split; [done|].
      by apply Hweak.
Qed.

(** What the inner [try] of the merge step deletes and reports. *)
Lemma cleanUp_unlinked outputDir pagesDir events :
  exists new,
    cleanUp extname join existsSync readdir unlink outputDir pagesDir events
    = events ++ new
    /\ forall f, f ∈ unlinked new ->
         exists dir files file,
           (dir = outputDir \/ dir = pagesDir)
           /\ readdir dir = Ok files /\ file ∈ files
           /\ f = join dir file /\ isPng file.
Proof.
  assert (forall dir ev,
            exists new,
              (cleanDirectory extname join existsSync readdir unlink dir ev).2
              = ev ++ new
              /\ forall f, f ∈ unlinked new ->
                   exists files file,
                     readdir dir = Ok files /\ file ∈ files
                     /\ f = join dir file /\ isPng file) as Hdir.
  { intros dir ev. unfold cleanDirectory.
    destruct (existsSync dir);
      [|exists []; rewrite app_nil_r; split; [done|by intros f Hf%elem_of_nil]].
    destruct (readdir dir) as [files|e] eqn:Hread;
      [|exists []; rewrite app_nil_r; split; [done|by intros f Hf%elem_of_nil]].
    destruct (unlinkPngs_unlinked dir files ev) as (new & Hnew & Hall).
    exists new. split; [done|]. intros f Hf.
    unfold unlinked in Hf. apply list_elem_of_omap in Hf as (e & He & Hfe).
    rewrite Forall_forall in Hall.
    destruct (Hall e He) as (file & -> & Hfile & Hpng).
    injection Hfe as <-. by exists files, file. }
  unfold cleanUp.
  destruct (Hdir outputDir events) as (new1 & H1 & Hall1).
  destruct (cleanDirectory _ _ _ _ _ outputDir events) as [[|e1] ev1];
    simpl in H1; subst ev1.
  - destruct (Hdir pagesDir (events ++ new1)) as (new2 & H2 & Hall2).
    destruct (cleanDirectory _ _ _ _ _ pagesDir _) as [[|e2] ev2];
      simpl in H2; subst ev2.
    + exists (new1 ++ new2). rewrite <- app_assoc. split; [done|].
      intros f. rewrite unlinked_app, elem_of_app. intros [Hf|Hf].
      * destruct (Hall1 f Hf) as (files & file & ?). exists outputDir, files, file.
        split; [by left|done].
      * destruct (Hall2 f Hf) as (files & file & ?). exists pagesDir, files, file.
        split; [by right|done].
    + exists (new1 ++ new2 ++ [WarnCleanupFailed e2]).
      rewrite <- !app_assoc. split; [done|].
      intros f. rewrite !unlinked_app, app_nil_r, elem_of_app. intros [Hf|Hf].
      * destruct (Hall1 f Hf) as (files & file & ?). exists outputDir, files, file.
        split; [by left|done].
      * destruct (Hall2 f Hf) as (files & file & ?). exists pagesDir, files, file.
        split; [by right|done].
  - exists (new1 ++ [WarnCleanupFailed e1]). rewrite <- app_assoc.
    split; [done|]. intros f. rewrite unlinked_app, app_nil_r. intros Hf.
    destruct (Hall1 f Hf) as (files & file & ?). exists outputDir, files, file.
    split; [by left|done].
Qed.

(** The merge step deletes files only after [outputMerge] has resolved;
    whatever the deletions do, [mergedPdfPath] is then the path that
    [outputMerge] wrote. *)
Lemma mergeStep_unlinked options events f :
  f ∈ unlinked
        (mergeStep resolve extname join basename existsSync readdir
           embedImages writeFile unlink options events).2 ->
  f ∈ unlinked events
  \/ (exists mergeResult,
        merge' options = Ok mergeResult
        /\ (mergeStep resolve extname join basename existsSync readdir
              embedImages writeFile unlink options events).1
           = Some (MergeResult.outputPath mergeResult))
     /\ exists dir files file,
          (dir = outputDirOf resolve options \/ dir = pagesDirOf resolve options)
          /\ readdir dir = Ok files /\ file ∈ files
          /\ f = join dir file /\ isPng file.
Proof.
  unfold mergeStep. destruct (Options.mergeOutput options); [|by left].
  destruct (merge' options) as [mergeResult|error]; cbn [fst snd output_all].
  - destruct (cleanUp_unlinked (outputDirOf resolve options)
                (pagesDirOf resolve options)
                (events ++ [CallMerge (outputDirOf resolve options)
                              (mergedPathOf resolve options)]))
      as (new & -> & Hnew).
    rewrite !unlinked_app, app_nil_r, elem_of_app. intros [Hf|Hf]; [by left|].
    right. split; [by exists mergeResult|]. by apply Hnew.
  - rewrite !unlinked_app, !app_nil_r. by left.
Qed.

(** With [continueOnError] off, [pdfGenerate] rejects with the error of
    the first page whose heading detection fails. The pages after it are
    not passed to [identifyRoomName], and nothing else is done: no group
    is processed, nothing is merged or deleted. *)
Theorem strict_detection_failure pdfPath options schedule pageImages
    before p after error :
  truthy pdfPath = true ->
  render options pdfPath = Ok pageImages ->
  Options.continueOnError options = false ->
  sliceFrom (skipPagesOf options) pageImages = before ++ p :: after ->
  (skipPagesOf options < Z.of_nat (length pageImages))%Z ->
  Forall (fun q => exists d, identifyRoomName q = Ok d) before ->
  identifyRoomName p = Err error ->
  generate' pdfPath options schedule
  = (Rejects error,
     [CallRender (resolve (default [] pdfPath)) (pagesDirOf resolve options)
        (skipConversionPagesOf options)]
     ++ map CallIdentify before
     ++ [CallIdentify p; WarnIdentifyFailed p error]).
Proof.
  intros Hpdf Hrender Hc Hslice Hskip Hbefore Hp.
  unfold pdfGenerate. rewrite Hpdf, Hrender. cbn [negb].
  rewrite (proj2 (Z.leb_gt _ _) Hskip), Hslice, Hc.
  destruct (decide _) as [Hlen|_]; [by rewrite length_app in Hlen; simpl in Hlen; lia|].
  by rewrite (detectRooms_stops identifyRoomName before p after error).
Qed.

(** The report [pdfGenerate] resolves with, read back. [pageImages] is
    what the renderer returned. Unless it is one of the two early
    reports, which have no detections, no groups and no processed page,
    the report has one detection and one slot of [processedPages] for
    each page of [pageImages.slice(skipPages)], in this order, its groups
    are those of the grouping loop over these pages and detections, and
    [concurrency] is the number of workers, between one and the number
    of groups. *)
Theorem report_shape pdfPath options schedule report :
  (generate' pdfPath options schedule).1 = Resolves report ->
  render options pdfPath = Ok (Report.pageImages report)
  /\ Report.pagesDir report = pagesDirOf resolve options
  /\ Report.outputDir report = outputDirOf resolve options
  /\ match Report.roomDetections report, Report.groups report with
     | Some dets, Some groups =>
         let pages :=
           sliceFrom (skipPagesOf options) (Report.pageImages report) in
         pages <> []
         /\ dets = map (detectionFor identifyRoomName) pages
         /\ map Detection.pageImage dets = pages
         /\ groups = groupPages pages dets
         /\ length (Report.processedPages report) = length pages
         /\ Report.skipPages report = Some (skipPagesOf options)
         /\ Report.concurrency report
            = Some (Nat.min (concurrencyOf options) (length groups))
         /\ 1 <= Nat.min (concurrencyOf options) (length groups)
     | None, None =>
         Report.processedPages report = []
         /\ Report.mergedPdfPath report = None
     | _, _ => False
     end.
Proof.
  unfold pdfGenerate.
  destruct (negb (truthy pdfPath)); [done|].
  destruct (render options pdfPath) as [pageImages|e0]; [|done].
  destruct (Z.of_nat (length pageImages) <=? skipPagesOf options)%Z.
  { cbn [fst]. by intros [= <-]. }
  destruct (decide _) as [|Hne].
  { cbn [fst]. by intros [= <-]. }
  destruct (detectRooms _ _ _ _ _) as [[dets|e1] ev] eqn:Hdet; [|done].
  destruct (settlement _) eqn:Hful; [done| |done].
  cbn [fst]. intros [= <-]. cbn.
  apply detectRooms_ok in Hdet as (_ & Hdets & _). simpl in Hdets.
  set (pages := sliceFrom (skipPagesOf options) pageImages) in *.
  repeat split; try done.
  - by intros ->.
  - subst dets. apply detectionFor_pageImage.
  - pose proof (reach_invariant pages dets (Options.continueOnError options)
                  describePageAndGenerate addTitleToImage
                  (workerCountOf (groupPages pages dets) (concurrencyOf options))
                  ev schedule) as Hinv.
    apply (inv_length _ _ _ _ _ _ _ _ (proj1 Hinv)).
  - pose proof (concurrencyOf_pos options).
    pose proof (groupPages_nonempty pages dets) as Hg.
    destruct (groupPages pages dets); [|simpl; lia].
    destruct Hg; [|done]. by intros ->.
Qed.

(** Which pages are processed. The detections of a report are those of
    the last pages of [pageImages]: all but the first [skipPages] of them
    when [skipPages] is not negative, and the last [-skipPages] of them
    (or all, if there are fewer) when it is negative. *)
Theorem processed_pages_are_a_tail pdfPath options schedule report dets :
  (generate' pdfPath options schedule).1 = Resolves report ->
  Report.roomDetections report = Some dets ->
  let count := Z.of_nat (length (Report.pageImages report)) in
  map Detection.pageImage dets `suffix_of` Report.pageImages report
  /\ (0 < Z.of_nat (length dets))%Z
  /\ Z.of_nat (length dets)
     = if (skipPagesOf options <? 0)%Z
       then Z.min count (- skipPagesOf options)
       else (count - skipPagesOf options)%Z.
Proof.
  unfold pdfGenerate.
  destruct (negb (truthy pdfPath)); [done|].
  destruct (render options pdfPath) as [pageImages|e0]; [|done].
  destruct (Z.of_nat (length pageImages) <=? skipPagesOf options)%Z eqn:Hskip.
  { cbn [fst]. by intros [= <-]. }
  destruct (decide _) as [|Hne].
  { cbn [fst]. by intros [= <-]. }
  destruct (detectRooms _ _ _ _ _) as [[dets'|e1] ev] eqn:Hdet; [|done].
  destruct (settlement _) eqn:Hful; [done| |done].
  cbn [fst]. intros [= <-]. cbn. intros [= <-].
  apply detectRooms_ok in Hdet as (_ & -> & _). simpl.
  rewrite detectionFor_pageImage, length_map.
  split; [apply sliceFrom_suffix|].
  pose proof (sliceFrom_length (skipPagesOf options) pageImages) as Hlen.
  apply Z.leb_gt in Hskip.
  destruct (skipPagesOf options <? 0)%Z; lia.
Qed.

(** The second early report, the one with [concurrency: 0], is returned
    only when the renderer returned no page image and [skipPages] is
    negative; it has no groups. *)
Theorem empty_slice_report pdfPath options schedule report :
  (generate' pdfPath options schedule).1 = Resolves report ->
  Report.concurrency report = Some 0 ->
  Report.pageImages report = [] /\ (skipPagesOf options < 0)%Z
  /\ Report.groups report = None.
Proof.
  unfold pdfGenerate.
  destruct (negb (truthy pdfPath)); [done|].
  destruct (render options pdfPath) as [pageImages|e0]; [|done].
  destruct (Z.of_nat (length pageImages) <=? skipPagesOf options)%Z eqn:Hskip.
  { cbn [fst]. by intros [= <-]. }
  apply Z.leb_gt in Hskip.
  destruct (decide _) as [Hlen|Hne].
  { cbn [fst]. intros [= <-] _. cbn.
    pose proof (sliceFrom_length (skipPagesOf options) pageImages) as Hl.
    rewrite Hlen in Hl.
    destruct (skipPagesOf options <? 0)%Z eqn:Hneg; [|lia].
    apply Z.ltb_lt in Hneg. split; [|done].
    destruct pageImages; [done|]. simpl in Hl. lia. }
  destruct (detectRooms _ _ _ _ _) as [[dets|e1] ev] eqn:Hdet; [|done].
  destruct (settlement _) eqn:Hful; [done| |done].
  cbn [fst]. intros [= <-]. cbn. intros [= Hzero].
  pose proof (concurrencyOf_pos options).
  pose proof (groupPages_nonempty (sliceFrom (skipPagesOf options) pageImages)
                dets) as Hg.
  unfold workerCountOf in Hzero.
  destruct (groupPages _ dets); [|simpl in Hzero; lia].
  destruct Hg; [|done]. intros Hnil. by rewrite Hnil in Hne.
Qed.

(** [pdfGenerate] deletes files only in the cleanup after a merge that
    succeeded, in a run that resolves with the path of the merged
    document, and only files of the listing of the output directory or of
    the pages directory whose extension is [.png] up to case. A cleanup
    that fails part way does not take the merged document back. *)
Theorem deletes_only_intermediate_images pdfPath options schedule f :
  f ∈ unlinked (generate' pdfPath options schedule).2 ->
  (exists report mergeResult,
     (generate' pdfPath options schedule).1 = Resolves report
     /\ merge' options = Ok mergeResult
     /\ Options.mergeOutput options = true
     /\ Report.mergedPdfPath report
        = Some (MergeResult.outputPath mergeResult))
  /\ exists dir files file,
       (dir = outputDirOf resolve options \/ dir = pagesDirOf resolve options)
       /\ readdir dir = Ok files /\ file ∈ files
       /\ f = join dir file /\ isPng file.
Proof.
  unfold pdfGenerate.
  destruct (negb (truthy pdfPath)); [by intros ?%elem_of_nil|].
  destruct (render options pdfPath) as [pageImages|e0];
    [|cbn; by intros ?%elem_of_nil].
  destruct (Z.of_nat (length pageImages) <=? skipPagesOf options)%Z.
  { cbn. by intros ?%elem_of_nil. }
  destruct (decide _) as [|Hne].
  { cbn. by intros ?%elem_of_nil. }
  assert (forall cOE pages acc ev res ev',
            detectRooms identifyRoomName cOE pages acc ev = (res, ev') ->
            unlinked ev' = unlinked ev) as Hdetect.
  { intros cOE pages. induction pages as [|q rest IH]; intros acc ev res ev';
      simpl.
    - by intros [= _ <-].
    - destruct (identifyRoomName q).
      + intros ->%IH. by rewrite unlinked_app, app_nil_r.
      + destruct cOE.
        * intros ->%IH. by rewrite unlinked_app, app_nil_r.
        * intros [= _ <-]. by rewrite unlinked_app, app_nil_r. }
  destruct (detectRooms _ _ _ _ _) as [[dets|e1] ev] eqn:Hdet;
    apply Hdetect in Hdet; cbn in Hdet;
    [|cbn [snd]; rewrite Hdet; by intros ?%elem_of_nil].
  set (pool := runPool _ _ _ _ _ _ _ _).
  assert (unlinked (trace pool) = []) as Hpool.
  { subst pool. by rewrite runPool_unlinked, startPool_unlinked. }
  destruct (settlement pool);
    [cbn [snd]; rewrite Hpool; by intros ?%elem_of_nil| |
     cbn [snd]; rewrite Hpool; by intros ?%elem_of_nil].
  cbn [fst snd]. intros [Hf|[(mergeResult & Hm & Hpath) Hfile]]%mergeStep_unlinked.
  - rewrite Hpool in Hf. by apply elem_of_nil in Hf.
  - split; [|done]. eexists _, mergeResult. split; [done|]. split; [done|].
    split; [|done]. unfold mergeStep in Hpath.
    by destruct (Options.mergeOutput options).
Qed.

End PdfGenerateMore.

(** ** outputMerge *)

Lemma unitsLe_total a b : unitsLe a b = true \/ unitsLe b a = true.
Proof.
  revert b. induction a as [|x a IH]; intros [|y b]; simpl; auto.
  destruct (IH b) as [H|H]; rewrite H, ?andb_true_r;
    destruct (N.ltb_spec x y), (N.ltb_spec y x), (N.eqb_spec x y),
      (N.eqb_spec y x); simpl; auto; lia.
Qed.

Lemma unitsLe_trans a b c :
  unitsLe a b = true -> unitsLe b c = true -> unitsLe a c = true.
Proof.
  revert b c. induction a as [|x a IH]; intros [|y b] [|z c]; simpl; try done.
  rewrite !orb_true_iff, !andb_true_iff, !N.ltb_lt, !N.eqb_eq.
  intros [Hxy|[-> Hab]] [Hyz|[-> Hbc]]; [left; lia|by left|by left|].
  right. split; [done|]. by eapply IH.
Qed.

#[local] Instance unitsLe_Total : Total (fun a b : list N => unitsLe a b).
Proof.
  intros a b. destruct (unitsLe_total a b) as [H|H]; rewrite H; simpl; auto.
Qed.

#[local] Instance unitsLe_Transitive :
  Transitive (fun a b : list N => unitsLe a b).
Proof.
  intros a b c Hab Hbc. simpl in *.
  apply Is_true_true in Hab, Hbc. apply Is_true_true.
  by eapply unitsLe_trans.
Qed.

Section OutputMergeFacts.

Variable resolve : Path -> Path.
Variable extname : Path -> jsstring.
Variable join : Path -> Path -> Path.
Variable basename : Path -> Path.
Variable existsSync : Path -> bool.
Variable readdir : Path -> Result (list Path).
Variable embedImages : list Path -> Result (list N).
Variable writeFile : Path -> list N -> Result unit.

(** When [outputMerge] resolves, the output directory exists and lists
    at least one file with an image extension. The images that were
    embedded are the image files of the listing, each joined to the
    directory, in the order of their code units, every file before all
    the files that sort after it; the document was written to the
    resolved output path, which is the [outputPath] of the result;
    [imageCount] is the number of image files, at least one, and
    [imageFiles] are their base names in the order of the pages. *)
Theorem merge_result optOutputDir optOutputPath result :
  outputMerge resolve extname join basename existsSync readdir embedImages
    writeFile optOutputDir optOutputPath = Ok result ->
  let outputDir := mergeDirOf resolve optOutputDir in
  existsSync outputDir = true
  /\ exists files imageFiles pdfBuffer,
       readdir outputDir = Ok files
       /\ imageFiles
            ≡ₚ map (join outputDir) (filter (fun f => isImageFile extname f) files)
       /\ StronglySorted (fun a b => unitsLe a b) imageFiles
       /\ embedImages imageFiles = Ok pdfBuffer
       /\ writeFile (mergePathOf resolve optOutputPath) pdfBuffer = Ok ()
       /\ MergeResult.outputPath result = mergePathOf resolve optOutputPath
       /\ MergeResult.imageCount result
          = length (filter (fun f => isImageFile extname f) files)
       /\ 0 < MergeResult.imageCount result
       /\ MergeResult.imageFiles result = map basename imageFiles.
Proof.
  intros H outputDir. unfold outputMerge in H. fold outputDir in H.
  destruct (existsSync outputDir); [|done]. split; [done|]. simpl in H.
  destruct (readdir outputDir) as [files|e]; [|done].
  set (imageFiles :=
         merge_sort (fun a b => unitsLe a b)
           (map (join outputDir) (filter (fun f => isImageFile extname f) files)))
    in *.
  assert (imageFiles
            ≡ₚ map (join outputDir) (filter (fun f => isImageFile extname f) files))
    as Hperm by apply merge_sort_Permutation.
  destruct (decide (length imageFiles = 0)) as [|Hne]; [done|].
  destruct (embedImages imageFiles) as [pdfBuffer|e] eqn:Hembed; [|done].
  destruct (writeFile _ pdfBuffer) as [[]|e] eqn:Hwrite; [|done].
  injection H as <-. exists files, imageFiles, pdfBuffer. simpl.
  assert (length imageFiles
          = length (filter (fun f => isImageFile extname f) files)) as Hlen
    by by rewrite Hperm, length_map.
  repeat split; try done.
  - apply (StronglySorted_merge_sort _).
  - lia.
Qed.

End OutputMergeFacts.

(** ** The summary of a report *)

Section StrictFacts.

Variable pagesToProcess : list Path.
Variable roomDetections : list Detection.t.
Variable groups : list Group.t.
Variable describePageAndGenerate :
  list Path -> RoomContext.t -> Result GenResult.t.
Variable addTitleToImage : Path -> jsstring -> Result unit.

Hypothesis groups_partition :
  concat (map Group.pageIndices groups) = seq 0 (length pagesToProcess).

Abbreviation strictStep :=
  (resume pagesToProcess roomDetections groups false
     describePageAndGenerate addTitleToImage).
Abbreviation strictRun :=
  (runPool pagesToProcess roomDetections groups false
     describePageAndGenerate addTitleToImage).
Abbreviation strictInv :=
  (invariant pagesToProcess roomDetections groups false
     describePageAndGenerate addTitleToImage).

(** As long as no worker has thrown, every entry written is the entry
    of a success. *)
Abbreviation clean pool :=
  (rejection pool = None ->
   forall i entry,
     processedPages pool !! i = Some (Some entry) ->
     PageResult.succeeded entry = true).

Lemma writeGroup_inv (entry : nat -> nat -> PageResult.t) idxs slots i x :
  NoDup idxs -> (forall j, j ∈ idxs -> j < length slots) ->
  writeGroup entry idxs slots !! i = Some (Some x) ->
  (exists k, idxs !! k = Some i /\ x = entry k i) \/ slots !! i = Some (Some x).
Proof.
  intros Hnd Hb Hi. destruct (decide (i ∈ idxs)) as [Hin|Hout].
  - left. apply list_elem_of_lookup in Hin as [k Hk]. exists k. split; [done|].
    rewrite (writeGroup_at entry idxs slots k i) in Hi by done. congruence.
  - right. by rewrite writeGroup_other in Hi.
Qed.

Lemma resume_clean w pool : strictInv pool -> clean pool -> clean (strictStep w pool).
Proof using groups_partition.
  intros [HI _] Hclean. unfold resume.
  destruct (workers pool !! w) as [[gi g|gi g result| |e]|] eqn:Hw; try done.
  - destruct (describePageAndGenerate _ _); [done|].
    rewrite failGroup_strict by done. simpl. by destruct (rejection pool).
  - destruct (addTitleToImage _ _).
    + unfold continueLoop, claimNext.
      assert (forall i entry,
                writeGroup (successEntry pagesToProcess roomDetections g result)
                  (Group.pageIndices g) (processedPages pool) !! i
                = Some (Some entry) ->
                rejection pool = None ->
                PageResult.succeeded entry = true) as Hwrite.
      { intros i entry Hi Hr.
        destruct (inv_held _ _ _ _ _ _ _ _ HI w _ gi g Hw eq_refl) as [Hg _].
        apply writeGroup_inv in Hi as [(k & _ & ->)|Hold].
        - done.
        - by eapply Hclean.
        - by eapply (part_nodup pagesToProcess).
        - intros j Hj. rewrite (inv_length _ _ _ _ _ _ _ _ HI).
          by eapply part_bound. }
      destruct (groups !! _); simpl; intros Hr i entry Hi; by eapply Hwrite.
    + rewrite failGroup_strict by done. simpl. by destruct (rejection pool).
Qed.

Lemma runPool_clean schedule pool :
  strictInv pool -> clean pool -> clean (strictRun schedule pool).
Proof using groups_partition.
  revert pool. induction schedule as [|w rest IH]; intros pool Hinv Hc; [done|].
  simpl. apply IH; [by apply resume_invariant|by apply resume_clean].
Qed.

Lemma startPool_slots workerCount events :
  processedPages (startPool pagesToProcess groups workerCount events)
  = replicate (length pagesToProcess) None.
Proof.
  unfold startPool.
  assert (forall l pool, processedPages (foldl (startWorker groups) pool l)
                         = processedPages pool) as Hfold.
  { induction l as [|w l IH]; intros pool; [done|]. simpl. rewrite IH.
    unfold startWorker, claimNext. by destruct (groups !! _). }
  by rewrite Hfold.
Qed.

Lemma strict_clean workerCount events schedule :
  clean (strictRun schedule (startPool pagesToProcess groups workerCount events)).
Proof using groups_partition.
  apply runPool_clean; [by apply startPool_invariant|].
  intros _ i entry. rewrite startPool_slots.
  by intros [[=] _]%lookup_replicate.
Qed.

End StrictFacts.

Lemma counts_add_up (slots : list (option PageResult.t)) :
  Forall is_Some slots -> successCount slots + errorCount slots = length slots.
Proof.
  unfold successCount, errorCount.
  induction 1 as [|slot rest [e ->] _ IH]; [done|].
  rewrite !filter_cons. simpl.
  destruct (PageResult.succeeded e); simpl; lia.
Qed.

Lemma no_error_count (slots : list (option PageResult.t)) :
  (forall i entry, slots !! i = Some (Some entry) ->
     PageResult.succeeded entry = true) ->
  errorCount slots = 0.
Proof.
  unfold errorCount. induction slots as [|slot rest IH]; intros H; [done|].
  rewrite filter_cons.
  assert (length (filter (fun entry => isFailure entry) rest) = 0) as Hrest.
  { apply IH. intros i entry Hi. by apply (H (S i)). }
  destruct slot as [e|]; simpl; [|done].
  by rewrite (H 0 e eq_refl).
Qed.

Section SummaryFacts.

Variable resolve : Path -> Path.
Variable extname : Path -> jsstring.
Variable join : Path -> Path -> Path.
Variable basename : Path -> Path.
Variable existsSync : Path -> bool.
Variable readdir : Path -> Result (list Path).
Variable embedImages : list Path -> Result (list N).
Variable writeFile : Path -> list N -> Result unit.
Variable unlink : Path -> Result unit.
Variable pdfToPngs : Path -> Path -> Z -> Result (list Path).
Variable identifyRoomName : Path -> Result Heading.t.
Variable describePageAndGenerate :
  list Path -> RoomContext.t -> Result GenResult.t.
Variable addTitleToImage : Path -> jsstring -> Result unit.

(** The two counts of the summary of a report add up to the number of
    its processed pages: no slot is left out of both. With
    [continueOnError] off the count of errors is zero: a run in which a
    group failed does not resolve, so a report that is returned has only
    successes. *)
Theorem summary_counts pdfPath options schedule report :
  (pdfGenerate resolve extname join basename existsSync readdir embedImages
     writeFile unlink pdfToPngs identifyRoomName describePageAndGenerate
     addTitleToImage pdfPath options schedule).1 = Resolves report ->
  let slots := Report.processedPages report in
  successCount slots + errorCount slots = length slots
  /\ (Options.continueOnError options = false ->
      errorCount slots = 0 /\ successCount slots = length slots).
Proof.
  intros Hres slots.
  assert (successCount slots + errorCount slots = length slots) as Hsum.
  { apply counts_add_up, Forall_lookup. intros i slot Hi.
    destruct (pdfGenerate_report_complete resolve extname join basename
                existsSync readdir embedImages writeFile unlink pdfToPngs
                identifyRoomName describePageAndGenerate addTitleToImage
                pdfPath options schedule report i Hres) as [entry He].
    - by eapply lookup_lt_Some.
    - subst slots. rewrite He in Hi. injection Hi as <-. by exists entry. }
  split; [done|]. intros Hstrict.
  assert (errorCount slots = 0) as Hzero; [|lia].
  subst slots. clear Hsum. revert Hres. unfold pdfGenerate.
  destruct (negb (truthy pdfPath)); [done|].
  destruct (pdfToPngs _ _ _) as [pageImages|e0]; [|done].
  destruct (Z.of_nat (length pageImages) <=? skipPagesOf options)%Z.
  { cbn [fst]. by intros [= <-]. }
  destruct (decide _) as [|Hne].
  { cbn [fst]. by intros [= <-]. }
  destruct (detectRooms _ _ _ _ _) as [[dets|e1] ev]; [|done].
  destruct (settlement _) eqn:Hful; [done| |done].
  cbn [fst]. intros [= <-]. cbn [Report.processedPages].
  apply no_error_count. rewrite Hstrict in *.
  apply strict_clean; [apply groupPages_concat|].
  by apply fulfilled_returned in Hful as [Hr _].
Qed.

End SummaryFacts.

(** ** The entries of a report, and the runs that cannot fail *)

Section ReportFacts.

Variable resolve : Path -> Path.
Variable extname : Path -> jsstring.
Variable join : Path -> Path -> Path.
Variable basename : Path -> Path.
Variable existsSync : Path -> bool.
Variable readdir : Path -> Result (list Path).
Variable embedImages : list Path -> Result (list N).
Variable writeFile : Path -> list N -> Result unit.
Variable unlink : Path -> Result unit.
Variable pdfToPngs : Path -> Path -> Z -> Result (list Path).
Variable identifyRoomName : Path -> Result Heading.t.
Variable describePageAndGenerate :
  list Path -> RoomContext.t -> Result GenResult.t.
Variable addTitleToImage : Path -> jsstring -> Result unit.

Abbreviation run' :=
  (pdfGenerate resolve extname join basename existsSync readdir embedImages
     writeFile unlink pdfToPngs identifyRoomName describePageAndGenerate
     addTitleToImage).

Abbreviation rendered options pdfPath :=
  (pdfToPngs (resolve (default [] pdfPath)) (pagesDirOf resolve options)
     (skipConversionPagesOf options)).

(** A report, read back: either one of the two early reports, or the
    report of a fulfilled pool, whose slots are the entries of the
    outcomes of the groups. *)
Lemma report_slots pdfPath options schedule report :
  (run' pdfPath options schedule).1 = Resolves report ->
  exists pageImages,
    rendered options pdfPath = Ok pageImages
    /\ Report.pageImages report = pageImages
    /\ let pages := sliceFrom (skipPagesOf options) pageImages in
       let dets := map (detectionFor identifyRoomName) pages in
       (((Z.of_nat (length pageImages) <= skipPagesOf options)%Z \/ pages = [])
        /\ Report.processedPages report = []
        /\ Report.roomDetections report = None
        /\ Report.groups report = None)
       \/ ((skipPagesOf options < Z.of_nat (length pageImages))%Z
           /\ pages <> []
           /\ Report.roomDetections report = Some dets
           /\ Report.groups report = Some (groupPages pages dets)
           /\ length (Report.processedPages report) = length pages
           /\ forall gi g k i,
                groupPages pages dets !! gi = Some g ->
                Group.pageIndices g !! k = Some i ->
                Report.processedPages report !! i
                = Some (Some (entryOf pages dets describePageAndGenerate
                                addTitleToImage g k i))).
Proof.
  unfold pdfGenerate.
  destruct (negb (truthy pdfPath)); [done|].
  destruct (rendered options pdfPath) as [pageImages|e0]; [|done].
  destruct (Z.of_nat (length pageImages) <=? skipPagesOf options)%Z eqn:Hskip.
  { cbn [fst]. intros [= <-]. exists pageImages. split; [done|]. split; [done|].
    left. apply Z.leb_le in Hskip. by repeat split; auto. }
  apply Z.leb_gt in Hskip.
  destruct (decide _) as [Hlen|Hne].
  { cbn [fst]. intros [= <-]. exists pageImages. split; [done|]. split; [done|].
    left. split; [right; by apply nil_length_inv|done]. }
  destruct (detectRooms _ _ _ _ _) as [[dets|e1] ev] eqn:Hdet; [|done].
  destruct (settlement _) eqn:Hful; [done| |done].
  cbn [fst]. intros [= <-]. exists pageImages. split; [done|]. split; [done|].
  right. cbn [Report.roomDetections Report.groups Report.processedPages].
  apply detectRooms_ok in Hdet as (_ & Hdets & _). simpl in Hdets. subst dets.
  set (pages := sliceFrom (skipPagesOf options) pageImages) in *.
  set (dets := map (detectionFor identifyRoomName) pages) in *.
  pose proof (groupPages_concat pages dets) as Hpart.
  pose proof (reach_invariant pages dets (Options.continueOnError options)
                describePageAndGenerate addTitleToImage
                (workerCountOf (groupPages pages dets) (concurrencyOf options))
                ev schedule) as Hinv.
  assert (pages <> []) as Hpages by (intros Hnil; by rewrite Hnil in Hne).
  repeat split; try done.
  - apply (inv_length _ _ _ _ _ _ _ _ (proj1 Hinv)).
  - intros gi g k i Hg Hk.
    eapply (fulfilled_slots _ _ _ _ _ _ _ gi g k i); try done.
    apply reach_workers_nonempty; [done|apply concurrencyOf_pos].
Qed.

(** The entries of a report are those of the outcomes of the pipelines
    of its groups: the page at place [k] of a group has the entry that
    the outcome of the group gives it. So the pages of a group share one
    render path, one description and one error, and the entries of a
    report depend neither on the number of workers nor on the order in
    which their calls settle: two runs that resolve, with any
    [concurrency] and any schedules, have the same processed pages. *)
Theorem report_entries pdfPath options schedule report :
  (run' pdfPath options schedule).1 = Resolves report ->
  (forall dets groups gi g k i,
     Report.roomDetections report = Some dets ->
     Report.groups report = Some groups ->
     groups !! gi = Some g -> Group.pageIndices g !! k = Some i ->
     Report.processedPages report !! i
     = Some (Some (entryOf (sliceFrom (skipPagesOf options)
                              (Report.pageImages report))
                     dets describePageAndGenerate addTitleToImage g k i)))
  /\ (forall concurrency' schedule' report',
        (run' pdfPath
           {| Options.pagesDir := Options.pagesDir options;
              Options.outputDir := Options.outputDir options;
              Options.skipConversionPages := Options.skipConversionPages options;
              Options.skipPages := Options.skipPages options;
              Options.continueOnError := Options.continueOnError options;
              Options.concurrency := concurrency';
              Options.mergeOutput := Options.mergeOutput options;
              Options.mergedOutputPath := Options.mergedOutputPath options |}
           schedule').1 = Resolves report' ->
        Report.processedPages report' = Report.processedPages report).
Proof.
  intros Hres.
  destruct (report_slots _ _ _ _ Hres) as (pageImages & Hrender & Himages & Hslots).
  cbv zeta in Hslots. rewrite <- Himages in Hslots. split.
  - intros dets groups gi g k i Hdets Hgroups Hg Hk.
    destruct Hslots as [(_ & _ & Hnone & _)|(_ & _ & Hd & Hgs & _ & Hall)];
      [congruence|].
    rewrite Hdets in Hd. injection Hd as ->.
    rewrite Hgroups in Hgs. injection Hgs as ->.
    exact (Hall gi g k i Hg Hk).
  - intros concurrency' schedule' report' Hres'.
    destruct (report_slots _ _ _ _ Hres')
      as (pageImages' & Hrender' & Himages' & Hslots').
    cbv zeta in Hslots'.
    change (rendered _ pdfPath) with (rendered options pdfPath) in Hrender'.
    rewrite Hrender in Hrender'. injection Hrender' as <-.
    rewrite <- Himages in Hslots'.
    change (skipPagesOf _) with (skipPagesOf options) in Hslots'.
    set (pages := sliceFrom (skipPagesOf options) (Report.pageImages report)) in *.
    set (dets := map (detectionFor identifyRoomName) pages) in *.
    destruct Hslots as [(Hearly & Hnil & _)|(Hlate & Hne & _ & _ & Hlen & Hall)];
      destruct Hslots'
        as [(Hearly' & Hnil' & _)|(Hlate' & Hne' & _ & _ & Hlen' & Hall')].
    + congruence.
    + destruct Hearly as [?|?]; [lia|done].
    + destruct Hearly' as [?|?]; [lia|done].
    + apply list_eq. intros i.
      destruct (decide (i < length pages)) as [Hi|Hi].
      * destruct (part_cover pages (groupPages pages dets)
                    (groupPages_concat pages dets) i Hi)
          as (gi & g & k & Hg & Hk).
        by rewrite (Hall gi g k i Hg Hk), (Hall' gi g k i Hg Hk).
      * rewrite !lookup_ge_None_2; [done|lia|lia].
Qed.

(** With [continueOnError] on, the only errors that reject
    [pdfGenerate] are those of the rendering of the document: once a
    path is given and the pages are rendered, no order of the calls of
    the workers leads to a rejection, whatever fails in the detection of
    the headings, in the pipelines of the groups, in the merge or in the
    cleanup, and there is an order of their calls after which
    [pdfGenerate] resolves. *)
Theorem continue_never_rejects pdfPath options pageImages :
  Options.continueOnError options = true ->
  truthy pdfPath = true ->
  rendered options pdfPath = Ok pageImages ->
  (forall schedule error,
     (run' pdfPath options schedule).1 <> Rejects error)
  /\ exists schedule report,
       (run' pdfPath options schedule).1 = Resolves report
       /\ Report.pageImages report = pageImages.
Proof.
  intros Hc Hpdf Hrender. unfold pdfGenerate. rewrite Hpdf, Hrender, Hc.
  cbn [negb].
  destruct (Z.of_nat (length pageImages) <=? skipPagesOf options)%Z.
  { split; [done|]. by exists [], (nothingToProcess resolve options pageImages). }
  destruct (decide _) as [|Hne].
  { split; [done|]. exists []. by eexists. }
  rewrite (detectRooms_goes_on identifyRoomName true) by by left.
  set (pages := sliceFrom (skipPagesOf options) pageImages) in *.
  set (dets := [] ++ map (detectionFor identifyRoomName) pages).
  set (events := _ ++ flat_map _ pages).
  set (groups := groupPages pages dets).
  set (start := startPool pages groups (workerCountOf groups (concurrencyOf options))
                  events).
  pose proof (groupPages_concat pages dets) as Hpart. fold groups in Hpart.
  assert (invariant pages dets groups true describePageAndGenerate
            addTitleToImage start) as Hstart by by apply startPool_invariant.
  assert (rejection start = None) as Hrej by apply startPool_rejection.
  split.
  - intros schedule error. unfold settlement.
    rewrite runPool_rejection_continue, Hrej by done.
    by destruct (forallb _ _).
  - exists (roundRobin (length (workers start)) (remaining groups start)).
    rewrite continue_fulfils by done. by eexists.
Qed.

End ReportFacts.

(** ** The events of a run are never taken back *)

Section TraceGrows.

Variable pagesToProcess : list Path.
Variable roomDetections : list Detection.t.
Variable groups : list Group.t.
Variable continueOnError : bool.
Variable describePageAndGenerate :
  list Path -> RoomContext.t -> Result GenResult.t.
Variable addTitleToImage : Path -> jsstring -> Result unit.

Lemma claimNext_grows w pool :
  trace pool `prefix_of` trace (claimNext groups w pool).2.
Proof.
  unfold claimNext. destruct (groups !! _); simpl; [|done].
  by apply prefix_app_r.
Qed.

Lemma continueLoop_grows w pool :
  trace pool `prefix_of` trace (continueLoop groups w pool).
Proof.
  pose proof (claimNext_grows w pool) as H. unfold continueLoop.
  by destruct (claimNext groups w pool).
Qed.

Lemma failGroup_grows w g error pool :
  trace pool
  `prefix_of` trace (failGroup pagesToProcess roomDetections groups
                       continueOnError w g error pool).
Proof.
  unfold failGroup. destruct continueOnError.
  - etrans; [|apply continueLoop_grows]. simpl. by apply prefix_app_r.
  - simpl. by do 2 apply prefix_app_r.
Qed.

Lemma resume_grows w pool :
  trace pool
  `prefix_of` trace (resume pagesToProcess roomDetections groups continueOnError
                       describePageAndGenerate addTitleToImage w pool).
Proof.
  unfold resume.
  destruct (workers pool !! w) as [[gi g|gi g result| |e]|]; try done.
  - destruct (describePageAndGenerate _ _); [|apply failGroup_grows].
    simpl. by apply prefix_app_r.
  - destruct (addTitleToImage _ _); [|apply failGroup_grows].
    etrans; [|apply continueLoop_grows]. done.
Qed.

Lemma runPool_grows schedule pool :
  trace pool
  `prefix_of` trace (runPool pagesToProcess roomDetections groups continueOnError
                       describePageAndGenerate addTitleToImage schedule pool).
Proof.
  revert pool. induction schedule as [|w rest IH]; intros pool; [done|].
  simpl. etrans; [apply resume_grows|apply IH].
Qed.

Lemma startPool_grows workerCount events :
  events `prefix_of` trace (startPool pagesToProcess groups workerCount events).
Proof.
  unfold startPool.
  assert (forall l pool,
            trace pool `prefix_of` trace (foldl (startWorker groups) pool l))
    as Hfold.
  { induction l as [|w l IH]; intros pool; [done|]. simpl.
    etrans; [|apply IH].
    unfold startWorker, claimNext.
    destruct (groups !! _); simpl; [by apply prefix_app_r|done]. }
  etrans; [|apply Hfold]. done.
Qed.

End TraceGrows.

(** ** A skip that is not an integer *)

(** C10, as stated, fails: the option 3.5 is at least the number of the
    three rendered page images, and yet every page is processed: the
    headings are detected and the report has three processed pages. *)
Lemma skip_all_pages_counterexample :
  let skipPages := QArith_base.Qmake 7 2 in
  let options := withSkipPages skipPages (Demo.options true 2) in
  let run :=
    Demo.generate None [str "p0.png-render.png"] options (roundRobin 2 4) in
  QArith_base.Qle (QArith_base.inject_Z (Z.of_nat (length Demo.pages))) skipPages
  /\ Demo.pdfToPngs (Demo.resolve (str "plan.pdf"))
       (pagesDirOf Demo.resolve options) (skipConversionPagesOf options)
     = Ok Demo.pages
  /\ CallIdentify (str "p0.png") ∈ run.2
  /\ ~ (exists report,
          run.1 = Resolves report /\ Report.processedPages report = [])
  /\ exists report,
       run.1 = Resolves report /\ length (Report.processedPages report) = 3.
Proof.
  intros skipPages options run.
  assert (run.1 = Resolves Sample.report) as Hrun by (vm_compute; reflexivity).
  split; [vm_compute; discriminate|]. split; [reflexivity|].
  split; [vm_compute; repeat constructor|].
  split.
  - intros (report & Hres & Hnil). rewrite Hrun in Hres. injection Hres as <-.
    vm_compute in Hnil. discriminate Hnil.
  - exists Sample.report. split; [exact Hrun|reflexivity].
Qed.

Section SkipFacts.

Variable resolve : Path -> Path.
Variable extname : Path -> jsstring.
Variable join : Path -> Path -> Path.
Variable basename : Path -> Path.
Variable existsSync : Path -> bool.
Variable readdir : Path -> Result (list Path).
Variable embedImages : list Path -> Result (list N).
Variable writeFile : Path -> list N -> Result unit.
Variable unlink : Path -> Result unit.
Variable pdfToPngs : Path -> Path -> Z -> Result (list Path).
Variable identifyRoomName : Path -> Result Heading.t.
Variable describePageAndGenerate :
  list Path -> RoomContext.t -> Result GenResult.t.
Variable addTitleToImage : Path -> jsstring -> Result unit.

Abbreviation generated :=
  (pdfGenerate resolve extname join basename existsSync readdir embedImages
     writeFile unlink pdfToPngs identifyRoomName describePageAndGenerate
     addTitleToImage).

Lemma detectRooms_grows continueOnError pages roomDetections events :
  events
  `prefix_of` (detectRooms identifyRoomName continueOnError pages roomDetections
                 events).2.
Proof.
  revert roomDetections events.
  induction pages as [|p rest IH]; intros roomDetections events; [done|].
  cbn [detectRooms]. destruct (identifyRoomName p) as [d|e].
  - etrans; [|apply IH]. by apply prefix_app_r.
  - destruct continueOnError.
    + etrans; [|apply IH]. by apply prefix_app_r.
    + by apply prefix_app_r.
Qed.

Lemma mergeStep_grows options events :
  events
  `prefix_of` (mergeStep resolve extname join basename existsSync readdir
                 embedImages writeFile unlink options events).2.
Proof.
  unfold mergeStep. destruct (Options.mergeOutput options); [|done].
  destruct (mergeCall _ _ _ _ _ _ _ _ _); cbn [fst snd output_all].
  - destruct (cleanUp_unlinked extname join existsSync readdir unlink
                (outputDirOf resolve options) (pagesDirOf resolve options)
                (events ++ [CallMerge (outputDirOf resolve options)
                              (mergedPathOf resolve options)]))
      as (new & -> & _).
    rewrite <- app_assoc. by apply prefix_app_r.
  - rewrite <- app_assoc. by apply prefix_app_r.
Qed.

(** Once the first page has been passed to [identifyRoomName], the call
    stays in the events of the run, whatever comes after it. *)
Lemma first_page_identified pdfPath options schedule pageImages p rest :
  truthy pdfPath = true ->
  pdfToPngs (resolve (default [] pdfPath)) (pagesDirOf resolve options)
    (skipConversionPagesOf options) = Ok pageImages ->
  (skipPagesOf options < Z.of_nat (length pageImages))%Z ->
  sliceFrom (skipPagesOf options) pageImages = p :: rest ->
  [CallRender (resolve (default [] pdfPath)) (pagesDirOf resolve options)
     (skipConversionPagesOf options);
   CallIdentify p]
  `prefix_of` (generated pdfPath options schedule).2.
Proof.
  intros Hpdf Hrender Hskip Hslice. unfold pdfGenerate.
  rewrite Hpdf, Hrender, Hslice. cbn [negb].
  rewrite (proj2 (Z.leb_gt _ _) Hskip).
  destruct (decide _) as [|_]; [done|].
  set (events := [CallRender _ _ _]).
  assert ((events ++ [CallIdentify p])
          `prefix_of` (detectRooms identifyRoomName
                         (Options.continueOnError options) (p :: rest) []
                         events).2) as Hdet.
  { cbn [detectRooms]. destruct (identifyRoomName p) as [d|e].
    - apply detectRooms_grows.
    - destruct (Options.continueOnError options).
      + etrans; [|apply detectRooms_grows].
        exists [WarnIdentifyFailed p e]. by rewrite <- app_assoc.
      + exists [WarnIdentifyFailed p e]. by rewrite <- app_assoc. }
  destruct (detectRooms _ _ _ _ _) as [[dets|e1] ev]; [|exact Hdet].
  simpl in Hdet.
  assert (ev `prefix_of`
            trace (runPool (p :: rest) dets (groupPages (p :: rest) dets)
                     (Options.continueOnError options) describePageAndGenerate
                     addTitleToImage schedule
                     (startPool (p :: rest) (groupPages (p :: rest) dets)
                        (workerCountOf (groupPages (p :: rest) dets)
                           (concurrencyOf options)) ev))) as Hpool.
  { etrans; [apply startPool_grows|apply runPool_grows]. }
  destruct (settlement _); cbn [snd].
  - etrans; [exact Hdet|exact Hpool].
  - etrans; [exact Hdet|]. etrans; [exact Hpool|]. apply mergeStep_grows.
  - etrans; [exact Hdet|exact Hpool].
Qed.

(** C10, amended. [skipPages] is the option when the option is an
    integer, and 0 when it is not. When it is at least the number of
    rendered page images, [pdfGenerate] resolves with the report of the
    first [return], whose [processedPages] is empty; besides the
    rendering the only event is the warning: no heading is detected, no
    group is processed, nothing is merged. An option that is not an
    integer skips nothing, however large it is: when a page image was
    rendered, the first one is passed to [identifyRoomName], and a
    report that is returned has a slot of [processedPages] for every
    rendered page. *)
Theorem skip_all_pages pdfPath options schedule pageImages :
  truthy pdfPath = true ->
  pdfToPngs (resolve (default [] pdfPath)) (pagesDirOf resolve options)
    (skipConversionPagesOf options) = Ok pageImages ->
  let rendering :=
    CallRender (resolve (default [] pdfPath)) (pagesDirOf resolve options)
      (skipConversionPagesOf options) in
  (forall skip, Options.skipPages options = Some skip ->
                skipPagesOf options = skip)
  /\ ((Z.of_nat (length pageImages) <= skipPagesOf options)%Z ->
      generated pdfPath options schedule
      = (Resolves (nothingToProcess resolve options pageImages),
         [rendering;
          WarnNothingToProcess (skipPagesOf options) (length pageImages)])
      /\ Report.processedPages (nothingToProcess resolve options pageImages) = []
      /\ Report.groups (nothingToProcess resolve options pageImages) = None)
  /\ (Options.skipPages options = None ->
      forall p rest, pageImages = p :: rest ->
        [rendering; CallIdentify p]
        `prefix_of` (generated pdfPath options schedule).2
        /\ forall report,
             (generated pdfPath options schedule).1 = Resolves report ->
             length (Report.processedPages report) = length pageImages
             /\ Report.roomDetections report
                = Some (map (detectionFor identifyRoomName) pageImages)).
Proof.
  intros Hpdf Hrender rendering. split.
  { intros skip Hskip. unfold skipPagesOf. by rewrite Hskip. }
  split.
  { intros Hskip. split; [|done].
    unfold pdfGenerate. rewrite Hpdf, Hrender. cbn [negb].
    by rewrite (proj2 (Z.leb_le _ _) Hskip). }
  intros Hnone p rest ->.
  assert (skipPagesOf options = 0%Z) as Hzero
    by (unfold skipPagesOf; by rewrite Hnone).
  split.
  { apply (first_page_identified pdfPath options schedule (p :: rest) p rest);
      [done|done| |]; rewrite Hzero; [simpl; lia|done]. }
  intros report Hres.
  destruct (report_slots resolve extname join basename existsSync readdir
              embedImages writeFile unlink pdfToPngs identifyRoomName
              describePageAndGenerate addTitleToImage pdfPath options schedule
              report Hres) as (pageImages' & Hrender' & _ & Hslots).
  rewrite Hrender in Hrender'. injection Hrender' as <-.
  cbv zeta in Hslots. rewrite Hzero in Hslots.
  change (sliceFrom 0 (p :: rest)) with (p :: rest) in Hslots.
  destruct Hslots as [([Hle|Hnil] & _)|(_ & _ & Hdets & _ & Hlen & _)].
  - simpl in Hle. lia.
  - done.
  - done.
Qed.

End SkipFacts.

Lemma skip_all_pages_witness :
  let options :=
    {| Options.pagesDir := None; Options.outputDir := None;
       Options.skipConversionPages := None; Options.skipPages := Some 3%Z;
       Options.continueOnError := false; Options.concurrency := None;
       Options.mergeOutput := true; Options.mergedOutputPath := None |} in
  (Demo.generate None [] options []).1
  = Resolves (nothingToProcess Demo.resolve options Demo.pages)
  /\ (Demo.generate None [] options []).2
     = [CallRender (str "plan.pdf") (str "pdf-pages") 4;
        WarnNothingToProcess 3 3]
  /\ [CallRender (str "plan.pdf") (str "pdf-pages") 4; CallIdentify (str "p0.png")]
     `prefix_of` (Demo.generate None [] (Demo.options true 2) (roundRobin 2 4)).2.
Proof.
  intros options.
  destruct (skip_all_pages Demo.resolve Demo.extname Demo.join
              Demo.basename Demo.existsSync (Demo.readdir []) Demo.embedImages
              Demo.writeFile Demo.unlink Demo.pdfToPngs Demo.identifyRoomName
              (Demo.describePageAndGenerate None) Demo.addTitleToImage
              (Some (str "plan.pdf")) options [] Demo.pages
              eq_refl eq_refl) as (_ & H & _).
  destruct (H ltac:(vm_compute; discriminate)) as [Hrun _].
  destruct (skip_all_pages Demo.resolve Demo.extname Demo.join
              Demo.basename Demo.existsSync (Demo.readdir []) Demo.embedImages
              Demo.writeFile Demo.unlink Demo.pdfToPngs Demo.identifyRoomName
              (Demo.describePageAndGenerate None) Demo.addTitleToImage
              (Some (str "plan.pdf")) (Demo.options true 2) (roundRobin 2 4)
              Demo.pages eq_refl eq_refl) as (_ & _ & Hnone).
  unfold Demo.generate. rewrite Hrun.
  split; [reflexivity|]. split; [reflexivity|].
  exact (proj1 (Hnone eq_refl (str "p0.png") [str "p1.png"; str "p2.png"]
                  eq_refl)).
Defined.

(** ** identify-room.js: the heading of a page *)

Section HeadingFacts.

Local Open Scope N_scope.

Local Ltac classes :=
  intros;
  unfold notLetterOrSpace, notWordUnit, isWordUnit, notLowerAlnum in *;
  unfold isAsciiLetter, isDigit, isUpperLetter, isLowerLetter, isSeparator,
    isLowerAlnum, isWhiteSpace, SPACE in *;
  repeat progress
    (rewrite ?negb_true_iff, ?negb_false_iff, ?andb_true_iff, ?orb_true_iff,
       ?andb_false_iff, ?orb_false_iff, ?N.leb_le, ?N.leb_gt, ?N.eqb_eq,
       ?N.eqb_neq in * );
  lia.

Abbreviation letterOrWhite :=
  (fun c : N => isAsciiLetter c || isWhiteSpace c).
Abbreviation letters := (wordShape isAsciiLetter isAsciiLetter).
Abbreviation lowerLetters := (wordShape isLowerLetter isLowerLetter).
Abbreviation titleCase := (wordShape isUpperLetter isLowerLetter).

Lemma letter_not_space c : isAsciiLetter c = true -> (c =? SPACE) = false.
Proof. classes. Qed.

Lemma letter_not_white c : isAsciiLetter c = true -> isWhiteSpace c = false.
Proof. classes. Qed.

Lemma letter_word c : isAsciiLetter c = true -> notWordUnit c = false.
Proof. classes. Qed.

Lemma space_not_word c : (c =? SPACE) = true -> notWordUnit c = true.
Proof. classes. Qed.

Lemma letter_not_separator c : isAsciiLetter c = true -> isSeparator c = false.
Proof. classes. Qed.

Lemma space_not_separator c : (c =? SPACE) = true -> isSeparator c = false.
Proof. classes. Qed.

Lemma space_is_white c : (c =? SPACE) = true -> isWhiteSpace c = true.
Proof. classes. Qed.

Lemma lower_is_letter c : isLowerLetter c = true -> isAsciiLetter c = true.
Proof. classes. Qed.

Lemma upper_is_letter c : isUpperLetter c = true -> isAsciiLetter c = true.
Proof. classes. Qed.

Lemma lower_is_alnum c : isLowerLetter c = true -> isLowerAlnum c = true.
Proof. classes. Qed.

(** The shape only depends on [atStart] through the first unit. *)
Lemma wordShape_impl (f g f' g' : N -> bool) b t :
  (forall c, f c = true -> f' c = true) ->
  (forall c, g c = true -> g' c = true) ->
  wordShape f g b t = true -> wordShape f' g' b t = true.
Proof.
  intros Hf Hg. revert b. induction t as [|c r IH]; intros b; [done|]. simpl.
  destruct (c =? SPACE).
  - intros [-> Hr]%andb_prop. simpl. by apply IH.
  - intros [Hc Hr]%andb_prop. rewrite (IH _ Hr), andb_true_r.
    destruct b; auto.
Qed.

(** The second replacement of [cleanHeading] leaves letters and white
    space. *)
Lemma replaceRuns_letters b s :
  forallb letterOrWhite (replaceRunsFrom notLetterOrSpace b s) = true.
Proof.
  revert b. induction s as [|c r IH]; intros b; [done|]. simpl.
  destruct (notLetterOrSpace c) eqn:Hc.
  - destruct b; [apply IH|]. simpl. apply IH.
  - simpl. rewrite IH, andb_true_r. unfold notLetterOrSpace in Hc.
    by apply negb_false_iff in Hc.
Qed.

(** The collapse of the white space of such a string leaves words of
    letters with single spaces. *)
Lemma collapse_letters b s :
  forallb letterOrWhite s = true ->
  letters b (replaceRunsFrom isWhiteSpace b s) = true.
Proof.
  revert b. induction s as [|c r IH]; intros b; [done|].
  cbn [forallb replaceRunsFrom]. intros [Hc Hr]%andb_prop.
  destruct (isWhiteSpace c) eqn:Hw.
  - destruct b; [by apply IH|]. cbn [wordShape]. simpl. by apply IH.
  - rewrite orb_false_r in Hc. cbn [wordShape].
    rewrite (letter_not_space c Hc), IH by done. by destruct b; rewrite Hc.
Qed.

Lemma letters_trimStart b t :
  letters b t = true -> letters true (trimStart t) = true.
Proof.
  revert b. induction t as [|c r IH]; intros b H; [done|].
  simpl in *. destruct (c =? SPACE) eqn:Hc.
  - apply andb_prop in H as [_ Hr]. rewrite (space_is_white c Hc). by eapply IH.
  - apply andb_prop in H as [Ha Hr].
    assert (isAsciiLetter c = true) as Hl by by destruct b.
    rewrite (letter_not_white c Hl). simpl. by rewrite Hc, Hl.
Qed.

Lemma letters_trimEnd b t :
  letters b t = true -> letters b (trimEnd t) = true.
Proof.
  revert b. induction t as [|c r IH]; intros b H; [done|].
  simpl in *. destruct (c =? SPACE) eqn:Hc.
  - apply andb_prop in H as [Hb Hr]. specialize (IH _ Hr).
    destruct (trimEnd r) as [|c' r'] eqn:Hte.
    + by rewrite (space_is_white c Hc).
    + simpl. rewrite Hc, Hb. exact IH.
  - apply andb_prop in H as [Ha Hr]. specialize (IH _ Hr).
    assert (isAsciiLetter c = true) as Hl by by destruct b.
    destruct (trimEnd r) as [|c' r'] eqn:Hte.
    + rewrite (letter_not_white c Hl). simpl. rewrite Hc. by destruct b; rewrite Hl.
    + simpl. rewrite Hc, Ha. exact IH.
Qed.

(** What is left of the heading after the first two statements: words
    of ASCII letters with single spaces, no space at either end. *)
Lemma headingLetters_shape text :
  letters true (headingLetters text) = true
  /\ trimEnd (headingLetters text) = headingLetters text.
Proof.
  unfold headingLetters, trim, replaceRuns. split; [|apply trimEnd_idem].
  apply letters_trimEnd, (letters_trimStart false), collapse_letters,
    replaceRuns_letters.
Qed.

(** No separator is left for the split to find. *)
Lemma letters_no_separator b t :
  letters b t = true -> separatorAhead t = false.
Proof.
  revert b. induction t as [|c r IH]; intros b H; [done|].
  simpl in *. destruct (c =? SPACE) eqn:Hc.
  - apply andb_prop in H as [_ Hr].
    by rewrite (space_not_separator c Hc), (IH _ Hr), andb_false_r.
  - apply andb_prop in H as [Ha Hr].
    assert (isAsciiLetter c = true) as Hl by by destruct b.
    by rewrite (letter_not_separator c Hl), (letter_not_white c Hl).
Qed.

Lemma letters_beforeSeparator b t :
  letters b t = true -> beforeSeparator t = None.
Proof.
  revert b. induction t as [|c r IH]; intros b H; [done|].
  cbn [beforeSeparator]. rewrite (letters_no_separator b (c :: r) H).
  simpl in H. destruct (c =? SPACE).
  - apply andb_prop in H as [_ Hr]. by rewrite (IH _ Hr).
  - apply andb_prop in H as [_ Hr]. by rewrite (IH _ Hr).
Qed.

Lemma letters_dropStart t :
  letters true t = true -> dropStart notWordUnit t = t.
Proof.
  destruct t as [|c r]; [done|]. simpl.
  destruct (c =? SPACE); [done|].
  intros [Hl _]%andb_prop. by rewrite (letter_word c Hl).
Qed.

Lemma letters_dropEnd b t :
  letters b t = true -> dropEnd notWordUnit t = trimEnd t.
Proof.
  revert b. induction t as [|c r IH]; intros b H; [done|].
  simpl in *. destruct (c =? SPACE) eqn:Hc.
  - apply andb_prop in H as [_ Hr]. rewrite (IH _ Hr).
    by rewrite (space_not_word c Hc), (space_is_white c Hc).
  - apply andb_prop in H as [Ha Hr]. rewrite (IH _ Hr).
    assert (isAsciiLetter c = true) as Hl by by destruct b.
    by rewrite (letter_word c Hl), (letter_not_white c Hl).
Qed.

(** Lower-casing such a string. *)
Lemma letter_lowerUnit c :
  isAsciiLetter c = true ->
  exists c', lowerUnit c = [c'] /\ isLowerLetter c' = true
             /\ (isLowerLetter c = true -> c' = c).
Proof.
  intros H. unfold lowerUnit.
  destruct ((65 <=? c) && (c <=? 90)) eqn:H1.
  - exists (c + 32). split; [done|]. split; classes.
  - destruct (c =? 8490) eqn:H2; [classes|].
    destruct (c =? 304) eqn:H3; [classes|].
    exists c. split; [done|]. split; [classes|done].
Qed.

Lemma letters_toLowerCase b t :
  letters b t = true -> lowerLetters b (toLowerCase t) = true.
Proof.
  revert b. induction t as [|c r IH]; intros b H; [done|].
  unfold toLowerCase in *. simpl in *. destruct (c =? SPACE) eqn:Hc.
  - apply andb_prop in H as [Hb Hr]. rewrite (space_lower c Hc). simpl.
    rewrite Hc, Hb. by apply IH.
  - apply andb_prop in H as [Ha Hr].
    assert (isAsciiLetter c = true) as Hl by by destruct b.
    destruct (letter_lowerUnit c Hl) as (c' & -> & Hc' & _). simpl.
    rewrite (letter_not_space c' (lower_is_letter c' Hc')), (IH _ Hr).
    by destruct b; rewrite Hc'.
Qed.

Lemma lowerLetters_toLowerCase b t :
  lowerLetters b t = true -> toLowerCase t = t.
Proof.
  revert b. induction t as [|c r IH]; intros b H; [done|].
  unfold toLowerCase in *. simpl in *. destruct (c =? SPACE) eqn:Hc.
  - apply andb_prop in H as [Hb Hr]. rewrite (space_lower c Hc). simpl.
    f_equal. by eapply IH.
  - apply andb_prop in H as [Ha Hr].
    assert (isLowerLetter c = true) as Hl by by destruct b.
    destruct (letter_lowerUnit c (lower_is_letter c Hl)) as (c' & -> & _ & Heq).
    rewrite (Heq Hl). simpl. f_equal. by eapply IH.
Qed.

(** A step by which the units keep being white space or not leaves a
    string without white space at its end as such. *)
Lemma trimEnd_fixed_rel t t' :
  Forall2 (fun c c' => isWhiteSpace c = isWhiteSpace c') t t' ->
  trimEnd t = t -> trimEnd t' = t'.
Proof.
  induction 1 as [|c c' r r' Hc Hr IH]; [done|]. simpl.
  destruct (trimEnd r) as [|x r0] eqn:Hte.
  - destruct (isWhiteSpace c) eqn:Hw; [done|]. intros [= <-].
    apply Forall2_nil_inv_l in Hr as ->. simpl. by rewrite <- Hc.
  - intros [= Heq]. rewrite IH by done.
    destruct r' as [|y r1]; [|done].
    apply Forall2_nil_inv_r in Hr. by subst r.
Qed.

Lemma letters_toLowerCase_white b t :
  letters b t = true ->
  Forall2 (fun c c' => isWhiteSpace c = isWhiteSpace c') t (toLowerCase t).
Proof.
  revert b. induction t as [|c r IH]; intros b H; [constructor|].
  unfold toLowerCase in *. simpl in *. destruct (c =? SPACE) eqn:Hc.
  - apply andb_prop in H as [Hb Hr]. rewrite (space_lower c Hc). simpl.
    constructor; [done|by eapply IH].
  - apply andb_prop in H as [Ha Hr].
    assert (isAsciiLetter c = true) as Hl by by destruct b.
    destruct (letter_lowerUnit c Hl) as (c' & -> & Hc' & _). simpl.
    constructor; [|by eapply IH].
    by rewrite (letter_not_white c Hl),
      (letter_not_white c' (lower_is_letter c' Hc')).
Qed.

(** [split(" ")], the map over the words and [join(" ")], in one
    pass. *)
Lemma headingWord_capitalize word : headingWord word = capitalize word.
Proof.
  destruct word as [|c r]; [done|]. unfold headingWord.
  destruct (forallb isDigit (c :: r)) eqn:Hd; [|done].
  simpl in *. apply andb_prop in Hd as [Hc _]. f_equal.
  unfold upperUnit. destruct ((97 <=? c) && (c <=? 122)) eqn:Hl; [|done].
  classes.
Qed.

Lemma joinSpace_cons (parts : list (list N)) :
  parts <> [] ->
  flat_map (fun q => SPACE :: q) parts = SPACE :: joinSpace parts.
Proof. destruct parts as [|q r]; [done|]. done. Qed.

Lemma splitFrom_nonempty cur t : splitFrom cur t <> [].
Proof.
  revert cur. induction t as [|c r IH]; intros cur; [done|]. simpl.
  destruct (c =? SPACE); [done|apply IH].
Qed.

Lemma capitalize_snoc cur c :
  capitalize (cur ++ [c])
  = match cur with
    | [] => [upperUnit c]
    | _ :: _ => capitalize cur ++ [c]
    end.
Proof. by destruct cur. Qed.

Lemma split_map_join cur t :
  joinSpace (map capitalize (splitFrom cur t))
  = capitalize cur
    ++ capitalizeFrom (match cur with [] => true | _ => false end) t.
Proof.
  revert cur. induction t as [|c r IH]; intros cur.
  - simpl. done.
  - simpl. destruct (c =? SPACE) eqn:Hc.
    + simpl. rewrite joinSpace_cons.
      * rewrite IH. simpl. apply N.eqb_eq in Hc. by rewrite Hc.
      * intros Hnil%fmap_nil_inv. by apply splitFrom_nonempty in Hnil.
    + rewrite IH, capitalize_snoc.
      destruct cur as [|x cur]; simpl; [done|].
      by rewrite <- app_assoc.
Qed.

Lemma words_capitalized t :
  joinSpace (map headingWord (splitSpace t)) = capitalizeFrom true t.
Proof.
  unfold splitSpace.
  rewrite (list_fmap_ext headingWord capitalize)
    by (intros; apply headingWord_capitalize).
  apply (split_map_join [] t).
Qed.

Lemma lower_upperUnit c :
  isLowerLetter c = true ->
  isUpperLetter (upperUnit c) = true /\ lowerUnit (upperUnit c) = [c].
Proof.
  intros H. unfold upperUnit.
  replace ((97 <=? c) && (c <=? 122)) with true by (symmetry; exact H).
  split; [classes|]. unfold lowerUnit.
  replace ((65 <=? c - 32) && (c - 32 <=? 90)) with true
    by (symmetry; classes).
  f_equal. classes.
Qed.

Lemma capitalizeFrom_shape b t :
  lowerLetters b t = true -> titleCase b (capitalizeFrom b t) = true.
Proof.
  revert b. induction t as [|c r IH]; intros b H; [done|].
  simpl in *. destruct (c =? SPACE) eqn:Hc.
  - apply andb_prop in H as [Hb Hr]. simpl. rewrite Hc, Hb. by apply IH.
  - apply andb_prop in H as [Ha Hr]. destruct b.
    + destruct (lower_upperUnit c Ha) as [Hu _]. simpl.
      rewrite (letter_not_space _ (upper_is_letter _ Hu)), Hu. by apply IH.
    + simpl. rewrite Hc, Ha. by apply IH.
Qed.

Lemma capitalizeFrom_lower b t :
  lowerLetters b t = true -> toLowerCase (capitalizeFrom b t) = t.
Proof.
  revert b. induction t as [|c r IH]; intros b H; [done|].
  unfold toLowerCase in *. simpl in *. destruct (c =? SPACE) eqn:Hc.
  - apply andb_prop in H as [Hb Hr]. simpl. rewrite (space_lower c Hc). simpl.
    f_equal. by apply IH.
  - apply andb_prop in H as [Ha Hr]. destruct b.
    + destruct (lower_upperUnit c Ha) as [_ Hl]. simpl. rewrite Hl. simpl.
      f_equal. by apply IH.
    + destruct (letter_lowerUnit c (lower_is_letter c Ha)) as (c' & Hl & _ & Heq).
      simpl. rewrite Hl, (Heq Ha). simpl. f_equal. by apply IH.
Qed.

Lemma capitalizeFrom_white b t :
  lowerLetters b t = true ->
  Forall2 (fun c c' => isWhiteSpace c = isWhiteSpace c') t (capitalizeFrom b t).
Proof.
  revert b. induction t as [|c r IH]; intros b H; [constructor|].
  simpl in *. destruct (c =? SPACE) eqn:Hc.
  - apply andb_prop in H as [Hb Hr]. constructor; [done|by apply IH].
  - apply andb_prop in H as [Ha Hr]. constructor; [|by apply IH].
    destruct b; [|done].
    destruct (lower_upperUnit c Ha) as [Hu _].
    by rewrite (letter_not_white c (lower_is_letter c Ha)),
      (letter_not_white _ (upper_is_letter _ Hu)).
Qed.

Lemma capitalizeFrom_nil b t : capitalizeFrom b t = [] -> t = [].
Proof. destruct t as [|c r]; [done|]. simpl. by destruct (c =? SPACE). Qed.

Lemma toLowerCase_nil t : toLowerCase t = [] -> t = [].
Proof.
  destruct t as [|c r]; [done|]. unfold toLowerCase, lowerUnit. simpl.
  by repeat case_match.
Qed.

(** What [cleanHeading] comes to. *)
Lemma cleanHeading_letters c r :
  cleanHeading (Some (c :: r))
  = Some (capitalizeFrom true (toLowerCase (headingLetters (c :: r)))).
Proof.
  unfold cleanHeading. cbn [truthy negb].
  destruct (headingLetters_shape (c :: r)) as [Hshape Hend].
  rewrite (letters_beforeSeparator true _ Hshape).
  rewrite (letters_dropStart _ Hshape), (letters_dropEnd true _ Hshape), Hend.
  by rewrite words_capitalized.
Qed.

Lemma trimStart_length s : (length (trimStart s) <= length s)%nat.
Proof.
  induction s as [|c r IH]; [done|]. simpl.
  destruct (isWhiteSpace c); simpl; lia.
Qed.

Lemma trimStart_fixed s :
  trimStart s = s -> trimStart (trimEnd s) = trimEnd s.
Proof.
  destruct s as [|c r]; [done|]. simpl.
  destruct (isWhiteSpace c) eqn:Hw.
  - intros Heq. pose proof (trimStart_length r) as Hlen.
    rewrite Heq in Hlen. simpl in Hlen. lia.
  - intros _. destruct (trimEnd r); simpl; by rewrite Hw.
Qed.

Lemma trimStart_idem s : trimStart (trimStart s) = trimStart s.
Proof.
  induction s as [|c r IH]; [done|]. simpl.
  destruct (isWhiteSpace c) eqn:Hw; [done|]. simpl. by rewrite Hw.
Qed.

Lemma trim_idem s : trim (trim s) = trim s.
Proof.
  unfold trim. rewrite (trimStart_fixed (trimStart s)) by apply trimStart_idem.
  apply trimEnd_idem.
Qed.

Lemma trimEnd_white s : trimEnd s = [] -> forallb isWhiteSpace s = true.
Proof.
  induction s as [|c r IH]; [done|]. simpl.
  destruct (trimEnd r); [|done].
  destruct (isWhiteSpace c); [|done]. intros _. by apply IH.
Qed.

Lemma trimStart_white s :
  forallb isWhiteSpace (trimStart s) = true -> forallb isWhiteSpace s = true.
Proof.
  induction s as [|c r IH]; [done|]. simpl.
  destruct (isWhiteSpace c) eqn:Hw; [done|]. simpl. by rewrite Hw.
Qed.

Lemma trim_white s : trim s = [] -> forallb isWhiteSpace s = true.
Proof. intros H. by apply trimStart_white, trimEnd_white. Qed.


(** The replacements of [cleanHeading] find nothing to change in a
    string of words of letters with single spaces. *)
Lemma letters_replaceRuns (C : N -> bool) b t :
  (forall c, (c =? SPACE) = true -> C c = true) ->
  (forall c, isAsciiLetter c = true -> C c = false) ->
  letters b t = true -> replaceRunsFrom C b t = t.
Proof.
  intros Hsp Hl. revert b. induction t as [|c r IH]; intros b H; [done|].
  simpl in *. destruct (c =? SPACE) eqn:Hc.
  - apply andb_prop in H as [Hb Hr]. rewrite (Hsp c Hc).
    destruct b; [done|]. apply N.eqb_eq in Hc. rewrite <- Hc at 1.
    f_equal. by apply IH.
  - apply andb_prop in H as [Ha Hr].
    assert (isAsciiLetter c = true) as Hlc by by destruct b.
    rewrite (Hl c Hlc). f_equal. by apply IH.
Qed.

Lemma letters_keep b t :
  letters b t = true -> replaceRunsFrom notLetterOrSpace false t = t.
Proof.
  revert b. induction t as [|c r IH]; intros b H; [done|].
  simpl in *. destruct (c =? SPACE) eqn:Hc.
  - apply andb_prop in H as [_ Hr].
    assert (notLetterOrSpace c = false) as -> by classes.
    f_equal. by eapply IH.
  - apply andb_prop in H as [Ha Hr].
    assert (isAsciiLetter c = true) as Hlc by by destruct b.
    assert (notLetterOrSpace c = false) as -> by classes.
    f_equal. by eapply IH.
Qed.

Lemma letters_trimStart_fixed t : letters true t = true -> trimStart t = t.
Proof.
  destruct t as [|c r]; [done|]. simpl.
  destruct (c =? SPACE) eqn:Hc; [done|].
  intros [Ha _]%andb_prop. by rewrite (letter_not_white c Ha).
Qed.

Lemma headingLetters_fixed t :
  letters true t = true -> trimEnd t = t -> headingLetters t = t.
Proof.
  intros Hshape Hend.
  assert (letters false t = true) as Hweak.
  { destruct t as [|c r]; [done|]. simpl in *.
    destruct (c =? SPACE); [done|]. done. }
  assert (trim (replaceRuns isWhiteSpace t) = t) as Hstep.
  { unfold replaceRuns.
    rewrite (letters_replaceRuns isWhiteSpace false t);
      [|apply space_is_white|apply letter_not_white|done].
    unfold trim. by rewrite letters_trimStart_fixed. }
  unfold headingLetters. rewrite Hstep. unfold replaceRuns.
  by rewrite (letters_keep true t Hshape).
Qed.

(** The grouping key of a cleaned heading. *)
Lemma lowerLetters_canonical t :
  lowerLetters true t = true -> trimEnd t = t -> canonicalName t = t.
Proof.
  intros Hshape Hend.
  assert (forall b, lowerLetters b t = true -> spaced b t = true) as Hall.
  { clear. induction t as [|c r IH]; intros b H; [done|]. simpl in *.
    destruct (c =? SPACE).
    - apply andb_prop in H as [-> Hr]. by rewrite IH.
    - apply andb_prop in H as [Ha Hr]. rewrite IH by done.
      assert (isLowerLetter c = true) as Hl by by destruct b.
      by rewrite (lower_is_alnum c Hl). }
  pose proof (Hall true Hshape) as Hsp.
  unfold canonicalName.
  rewrite (toLowerCase_spaced true t Hsp).
  rewrite <- (proj1 (replaceRuns_collapse _)).
  rewrite (replaceRuns_spaced notLowerAlnum false).
  - unfold trim. by rewrite (trimStart_spaced t Hsp).
  - intros c Hc. unfold notLowerAlnum. by rewrite (space_not_alnum c Hc).
  - intros c Hc. unfold notLowerAlnum. by rewrite Hc.
  - by apply spaced_weaken.
Qed.

Lemma lowered_shape text :
  lowerLetters true (toLowerCase (headingLetters text)) = true
  /\ trimEnd (toLowerCase (headingLetters text))
     = toLowerCase (headingLetters text).
Proof.
  destruct (headingLetters_shape text) as [Hshape Hend]. split.
  - by apply letters_toLowerCase.
  - eapply trimEnd_fixed_rel; [|exact Hend].
    by eapply letters_toLowerCase_white.
Qed.

Lemma cleaned_shape text :
  let cleaned := capitalizeFrom true (toLowerCase (headingLetters text)) in
  titleCase true cleaned = true /\ trim cleaned = cleaned.
Proof.
  destruct (lowered_shape text) as [Hshape Hend]. intros cleaned. split.
  - by apply capitalizeFrom_shape.
  - assert (letters true cleaned = true) as Hl.
    { eapply wordShape_impl; [apply upper_is_letter|apply lower_is_letter|].
      by apply capitalizeFrom_shape. }
    unfold trim. rewrite (letters_trimStart_fixed _ Hl).
    eapply trimEnd_fixed_rel; [|exact Hend]. by apply capitalizeFrom_white.
Qed.

Lemma cleanHeading_some text :
  cleanHeading (Some text)
  = Some (capitalizeFrom true (toLowerCase (headingLetters text))).
Proof. destruct text as [|c r]; [done|]. apply cleanHeading_letters. Qed.

(** [cleanHeading] gives words of ASCII letters, each with an upper-case
    first letter and lower-case letters after it, separated by single
    spaces, with no white space at either end: no digit and no
    punctuation of the heading is kept. A cleaned heading is cleaned to
    itself. *)
Theorem cleanHeading_shape text :
  exists cleaned,
    cleanHeading (Some text) = Some cleaned
    /\ wordShape isUpperLetter isLowerLetter true cleaned = true
    /\ trim cleaned = cleaned
    /\ cleanHeading (Some cleaned) = Some cleaned.
Proof.
  destruct (cleaned_shape text) as [Hshape Htrim].
  destruct (lowered_shape text) as [Hlow Hend].
  eexists. split; [apply cleanHeading_some|]. split; [done|]. split; [done|].
  set (cleaned := capitalizeFrom true (toLowerCase (headingLetters text))) in *.
  assert (letters true cleaned = true) as Hl
    by (eapply wordShape_impl;
        [apply upper_is_letter|apply lower_is_letter|done]).
  assert (trimEnd cleaned = cleaned) as Hce.
  { unfold trim in Htrim. by rewrite (letters_trimStart_fixed _ Hl) in Htrim. }
  rewrite cleanHeading_some, (headingLetters_fixed cleaned Hl Hce).
  subst cleaned. by rewrite (capitalizeFrom_lower true _ Hlow).
Qed.

(** The split at a separator ([-], an en or em dash, [|]) and the
    stripping of non-word units at the ends never change the heading:
    the statement before them has replaced every unit that is not a
    letter, the separators among them, by a space. So a heading is not
    cut at its first dash; [cleanHeading] comes to lower-casing the
    letters that are left and capitalizing each word. *)
Theorem cleanHeading_never_cuts text :
  beforeSeparator (headingLetters text) = None
  /\ dropEnd notWordUnit (dropStart notWordUnit (headingLetters text))
     = headingLetters text
  /\ cleanHeading (Some text)
     = Some (capitalizeFrom true (toLowerCase (headingLetters text))).
Proof.
  destruct (headingLetters_shape text) as [Hshape Hend].
  split; [by eapply letters_beforeSeparator|].
  split; [|apply cleanHeading_some].
  by rewrite (letters_dropStart _ Hshape), (letters_dropEnd true _ Hshape).
Qed.

Lemma normalize_cleaned text :
  headingLetters text <> [] ->
  normalizeRoomName (cleanHeading (Some text))
  = Some (toLowerCase (headingLetters text)).
Proof.
  intros Hne. destruct (lowered_shape text) as [Hlow Hend].
  rewrite cleanHeading_some.
  destruct (capitalizeFrom true (toLowerCase (headingLetters text)))
    as [|c r] eqn:Hcap.
  { apply capitalizeFrom_nil, toLowerCase_nil in Hcap. done. }
  rewrite normalizeRoomName_some by done. rewrite <- Hcap. f_equal.
  unfold canonicalName. rewrite (capitalizeFrom_lower true _ Hlow).
  fold (canonicalName (toLowerCase (headingLetters text))).
  assert (canonicalName (toLowerCase (headingLetters text))
          = trim (collapseRuns (toLowerCase (toLowerCase (headingLetters text)))))
    as Hfold by done.
  pose proof (lowerLetters_canonical _ Hlow Hend) as Hcanon.
  rewrite Hfold, (lowerLetters_toLowerCase true _ Hlow) in Hcanon.
  exact Hcanon.
Qed.


(** *** The heading that [identifyRoomName] returns *)

Lemma fmap_trim_some (x : option (list N)) c r :
  trim <$> x = Some (c :: r) -> trim (c :: r) = c :: r.
Proof.
  destruct x as [t|]; [|done]. simpl. intros [= <-]. apply trim_idem.
Qed.

(** The [rawText] of the heading is the trimmed text of the best line
    or, when that is missing or blank, the trimmed text of the whole OCR
    result; it is never blank and has no white space at its ends. The
    [roomName] is this text, cleaned when [clean] is on. When both texts
    are missing or blank, the heading has no [rawText], no [roomName]
    and the confidence zero, whatever the confidence of the best
    line. *)
Theorem heading_text clean bestLine dataText previewPath :
  let heading := selectHeading clean bestLine dataText previewPath in
  let lineText := trim <$> (bestLine ≫= Line.text) in
  let fallbackText := if truthy dataText then trim <$> dataText else None in
  match Heading.rawText heading with
  | Some raw =>
      raw <> [] /\ trim raw = raw
      /\ Some raw = (if truthy lineText then lineText else fallbackText)
      /\ Heading.roomName heading
         = (if clean then cleanHeading (Some raw) else Some raw)
      /\ Heading.confidence heading = default 0 (bestLine ≫= Line.confidence)
  | None =>
      truthy lineText = false /\ truthy fallbackText = false
      /\ heading = Heading.mk None None 0 None
  end.
Proof.
  intros heading lineText fallbackText. subst heading.
  unfold selectHeading. fold lineText. fold fallbackText.
  destruct lineText as [[|c r]|] eqn:Hline; simpl.
  - destruct fallbackText as [[|c' r']|] eqn:Hfb; simpl; try done.
    repeat split; try done.
    destruct (truthy dataText); [|done]. by eapply fmap_trim_some.
  - repeat split; try done. by eapply fmap_trim_some.
  - destruct fallbackText as [[|c' r']|] eqn:Hfb; simpl; try done.
    repeat split; try done.
    destruct (truthy dataText); [|done]. by eapply fmap_trim_some.
Qed.

Lemma selectHeading_found clean bestLine dataText previewPath raw :
  Heading.rawText (selectHeading clean bestLine dataText previewPath) = Some raw ->
  raw <> []
  /\ Heading.roomName (selectHeading clean bestLine dataText previewPath)
     = (if clean then cleanHeading (Some raw) else Some raw).
Proof.
  unfold selectHeading.
  destruct (Js.orElse (Js.orElse _ _) None) as [[|c r]|]; simpl; try done.
  by intros [= <-].
Qed.

(** The grouping key of a page whose heading is cleaned. When the text
    of the heading has an ASCII letter, the key is made of its letters
    only, in lower case, in words separated by single spaces: the digits
    and the punctuation of the heading do not tell two pages apart. When
    it has none, the cleaned heading is empty and the key is the
    normalized raw text. *)
Theorem heading_key pagePath bestLine dataText previewPath raw :
  let heading := selectHeading true bestLine dataText previewPath in
  Heading.rawText heading = Some raw ->
  let key := Detection.normalized (detectionOf pagePath heading) in
  (headingLetters raw <> [] ->
   key = Some (toLowerCase (headingLetters raw))
   /\ wordShape isLowerLetter isLowerLetter true
        (toLowerCase (headingLetters raw)) = true)
  /\ (headingLetters raw = [] ->
      Heading.roomName heading = Some [] /\ key = normalizeRoomName (Some raw)).
Proof.
  intros heading Hraw key.
  destruct (selectHeading_found true _ _ _ raw Hraw) as [Hne Hname].
  subst key. unfold detectionOf. cbn [Detection.normalized].
  fold heading in Hname. rewrite Hname, Hraw. split.
  - intros Hletters. split; [|apply lowered_shape].
    rewrite <- (normalize_cleaned raw Hletters). f_equal.
    rewrite cleanHeading_some.
    destruct (capitalizeFrom true (toLowerCase (headingLetters raw)))
      as [|c r] eqn:Hcap; [|done].
    by apply capitalizeFrom_nil, toLowerCase_nil in Hcap.
  - intros Hletters. rewrite cleanHeading_some, Hletters. done.
Qed.

(** *** looksLikeAllCaps *)

Lemma alpha_filter (text : list N) :
  filter (fun c => negb (isDigit c))
    (filter (fun c => isAsciiLetter c || isDigit c)
       (filter (fun c => negb (isWhiteSpace c)) text))
  = filter (fun c => isAsciiLetter c) text.
Proof.
  induction text as [|c r IH]; [done|].
  rewrite (filter_cons (fun c => negb (isWhiteSpace c))).
  rewrite (filter_cons (fun c => isAsciiLetter c)).
  destruct (isWhiteSpace c) eqn:Hw; simpl.
  - destruct (isAsciiLetter c) eqn:Hl; simpl; [classes|done].
  - rewrite (filter_cons (fun c => isAsciiLetter c || isDigit c)).
    destruct (isAsciiLetter c) eqn:Hl; simpl.
    + rewrite (filter_cons (fun c => negb (isDigit c))).
      destruct (isDigit c) eqn:Hd; simpl; [classes|by rewrite IH].
    + destruct (isDigit c) eqn:Hd; simpl; [|done].
      rewrite (filter_cons (fun c => negb (isDigit c))), Hd. done.
Qed.

Lemma upper_fixed (a : list N) :
  bool_decide (a = toUpperCase a)
  = forallb (fun c => negb (isLowerLetter c)) a.
Proof.
  unfold toUpperCase. induction a as [|c r IH]; [done|]. simpl. rewrite <- IH.
  assert (upperUnit c = if isLowerLetter c then c - 32 else c) as Hup by done.
  destruct (isLowerLetter c) eqn:Hl; simpl.
  - apply bool_decide_eq_false. intros [= Hc _]. rewrite Hup in Hc. classes.
  - apply bool_decide_ext. rewrite Hup. split; [by intros [= Hr]|].
    intros Hr. by f_equal.
Qed.

Lemma letters_filter_lower (text : list N) :
  forallb (fun c => negb (isLowerLetter c))
    (filter (fun c => isAsciiLetter c) text)
  = forallb (fun c => negb (isLowerLetter c)) text.
Proof.
  induction text as [|c r IH]; [done|]. rewrite filter_cons.
  destruct (isAsciiLetter c) eqn:Hl; simpl; [by rewrite IH|].
  rewrite IH. assert (isLowerLetter c = false) as -> by classes. done.
Qed.

Lemma letters_filter_exists (text : list N) :
  existsb isAsciiLetter text
  = match filter (fun c => isAsciiLetter c) text with
    | [] => false
    | _ :: _ => true
    end.
Proof.
  induction text as [|c r IH]; [done|]. rewrite filter_cons. simpl.
  destruct (isAsciiLetter c); simpl; [done|exact IH].
Qed.

(** [looksLikeAllCaps] holds of a text exactly when it has an ASCII
    letter and none of [a] to [z]: digits, white space, punctuation and
    letters outside ASCII do not count, and a text without any ASCII
    letter, such as a page number, is not in capitals. *)
Theorem looksLikeAllCaps_spec text :
  looksLikeAllCaps (Some text)
  = existsb isAsciiLetter text
    && forallb (fun c => negb (isLowerLetter c)) text.
Proof.
  unfold looksLikeAllCaps. change (default [] (Some text)) with text.
  rewrite alpha_filter, upper_fixed, letters_filter_lower,
    letters_filter_exists.
  pose proof (alpha_filter text) as Halpha.
  destruct (filter (fun c => isAsciiLetter c || isDigit c) _) as [|x n] eqn:Hn.
  - rewrite <- Halpha. done.
  - destruct (decide (length (x :: n) = 0%nat)) as [|_]; [done|].
    destruct (filter (fun c => isAsciiLetter c) text) as [|y a]; [done|].
    destruct (decide (length (y :: a) = 0%nat)); done.
Qed.

End HeadingFacts.

(** ** text-adder.js: the title *)

Section TitleFacts.

Local Open Scope N_scope.

Lemma replaceUnit_app x replacement a b :
  replaceUnit x replacement (a ++ b)
  = replaceUnit x replacement a ++ replaceUnit x replacement b.
Proof. apply flat_map_app. Qed.

Lemma replaceUnit_single x replacement c :
  replaceUnit x replacement [c] = if c =? x then replacement else [c].
Proof. unfold replaceUnit. simpl. apply app_nil_r. Qed.

Lemma escapeXML_cons c value :
  escapeXML (c :: value) = escapeUnit c ++ escapeXML value.
Proof.
  unfold escapeXML, escapeUnit.
  change (c :: value) with ([c] ++ value).
  rewrite (replaceUnit_app 38), replaceUnit_single.
  destruct (c =? 38) eqn:H38; [by rewrite !replaceUnit_app|].
  rewrite (replaceUnit_app 34), replaceUnit_single.
  destruct (c =? 34) eqn:H34; [by rewrite !replaceUnit_app|].
  rewrite (replaceUnit_app 39), replaceUnit_single.
  destruct (c =? 39) eqn:H39; [by rewrite !replaceUnit_app|].
  rewrite (replaceUnit_app 60), replaceUnit_single.
  destruct (c =? 60) eqn:H60; [by rewrite !replaceUnit_app|].
  rewrite (replaceUnit_app 62), replaceUnit_single.
  by destruct (c =? 62) eqn:H62.
Qed.

(** [escapeXML] replaces each unit on its own: [&], the two quotes, [<]
    and [>] by their entities, every other unit by itself. The ampersand
    of an entity written by a later replacement is not escaped again,
    since [&] is replaced first. The result has no [<], no [>] and no
    quote, so the title cannot end the [text] element of the SVG or
    start a tag in it. *)
Theorem escapeXML_units value :
  escapeXML value = flat_map escapeUnit value
  /\ Forall (fun c => c <> 60 /\ c <> 62 /\ c <> 34 /\ c <> 39)
       (escapeXML value).
Proof.
  induction value as [|c r [IH1 IH2]]; [by split|].
  rewrite escapeXML_cons. split; [by rewrite IH1|].
  apply Forall_app. split; [|done]. unfold escapeUnit.
  destruct (c =? 38) eqn:H38; [by repeat constructor|].
  destruct (c =? 34) eqn:H34; [by repeat constructor|].
  destruct (c =? 39) eqn:H39; [by repeat constructor|].
  destruct (c =? 60) eqn:H60; [by repeat constructor|].
  destruct (c =? 62) eqn:H62; [by repeat constructor|].
  apply N.eqb_neq in H34, H39, H60, H62. by repeat constructor.
Qed.

End TitleFacts.

(** ** The title laid over a render *)

Lemma and_then_trim (a : option (list N)) t :
  Js.and_then a trim = Some t -> t <> [] -> trim t = t.
Proof.
  destruct a as [[|c r]|]; simpl; try done.
  - by intros [= <-].
  - intros [= <-] _. apply trim_idem.
Qed.

Lemma and_then_trim_falsy s :
  truthy (Some s) = true -> truthy (Js.and_then (Some s) trim) = false ->
  canonicalName s = [].
Proof.
  destruct s as [|c r]; [done|]. intros _. simpl.
  destruct (trim (c :: r)) eqn:Htrim; [|done]. intros _.
  by apply canonicalName_white, trim_white.
Qed.

Lemma orElse_falsy (a b : option (list N)) :
  truthy (Js.orElse a b) = false -> truthy a = false /\ truthy b = false.
Proof. unfold Js.orElse. destruct (truthy a) eqn:Ha; [congruence|done]. Qed.

Lemma orElse_truthy (a b : option (list N)) :
  truthy a = true -> Js.orElse a b = a.
Proof. unfold Js.orElse. by intros ->. Qed.

(** The title is never blank. *)
Lemma titleText_not_blank pagesToProcess roomDetections g :
  normalizedFromHeading roomDetections ->
  g ∈ groupPages pagesToProcess roomDetections ->
  titleText roomDetections g <> []
  /\ trim (titleText roomDetections g) = titleText roomDetections g.
Proof.
  intros Hnorm Hg.
  destruct (groupPages_elem _ _ _ Hg) as (start & len & Hrun).
  pose proof (run_size _ _ _ _ _ Hrun) as Hsize.
  unfold titleText.
  rewrite (run_indices _ _ _ _ _ Hrun), (run_roomName _ _ _ _ _ Hrun),
    (run_normalizedName _ _ _ _ _ Hrun).
  destruct len as [|len]; [lia|]. cbn [seq head mbind option_bind].
  unfold openGroup, normalizedAt. cbn [Group.roomName].
  set (first3 :=
         Js.orElse
           (Js.and_then (roomDetections !! start ≫= Detection.rawText) trim)
           (Js.orElse
              (Js.and_then
                 (Js.orElse (roomDetections !! start ≫= Detection.roomName)
                    (Js.orElse (roomDetections !! start ≫= Detection.rawText)
                       None)) trim)
              (Js.orElse
                 (Js.and_then (roomDetections !! start ≫= Detection.roomName)
                    trim)
                 (Js.and_then (roomDetections !! start ≫= Detection.normalized)
                    (fun n => joinSpace (map capitalize (splitSpace n))))))).
  destruct first3 as [[|c r]|] eqn:Hfirst; [done|split; [done|]|done].
  subst first3.
  set (rawText := roomDetections !! start ≫= Detection.rawText) in *.
  set (roomName := roomDetections !! start ≫= Detection.roomName) in *.
  set (normalized := roomDetections !! start ≫= Detection.normalized) in *.
  unfold Js.orElse at 1 in Hfirst.
  destruct (truthy (Js.and_then rawText trim)) eqn:H1.
  { by eapply and_then_trim. }
  unfold Js.orElse at 1 in Hfirst.
  destruct (truthy (Js.and_then (Js.orElse roomName (Js.orElse rawText None)) trim))
    eqn:H2.
  { by eapply and_then_trim. }
  unfold Js.orElse at 1 in Hfirst.
  destruct (truthy (Js.and_then roomName trim)) eqn:H3.
  { by eapply and_then_trim. }
  (* The capitalized normalized name is never used: a truthy normalized
     name comes from a [roomName] or [rawText] that is not blank. *)
  exfalso.
  assert (truthy normalized = true) as Htr.
  { destruct normalized as [[|? ?]|]; simpl in Hfirst; done. }
  destruct (roomDetections !! start) as [d|] eqn:Hd; [|done].
  pose proof (Hnorm start d Hd) as Hn.
  subst rawText roomName normalized. simpl in *.
  rewrite Hn in Htr.
  destruct (truthy (Detection.roomName d)) eqn:Hrn.
  - rewrite (orElse_truthy _ _ Hrn) in Htr.
    destruct (Detection.roomName d) as [s|] eqn:Hs; [|done].
    pose proof (and_then_trim_falsy s Hrn H3) as Hcanon.
    destruct s as [|c' r']; [done|].
    rewrite normalizeRoomName_some, Hcanon in Htr; done.
  - unfold Js.orElse in Htr. rewrite Hrn in Htr.
    destruct (Detection.rawText d) as [s|] eqn:Hs; [|done].
    destruct s as [|c' r']; [done|].
    pose proof (and_then_trim_falsy (c' :: r') eq_refl H1) as Hcanon.
    rewrite normalizeRoomName_some, Hcanon in Htr; done.
Qed.

Lemma detectionFor_normalized identifyRoomName pages :
  normalizedFromHeading (map (detectionFor identifyRoomName) pages).
Proof.
  intros i d Hd. rewrite list_lookup_fmap in Hd.
  destruct (pages !! i) as [p|]; [|done]. injection Hd as <-.
  unfold detectionFor. by destruct (identifyRoomName p).
Qed.

(** The title that the worker passes to [addTitleToImage] is never
    blank and never has white space at its ends, whatever the headings
    are: the test of the text at the head of [addTitleToImage] never
    throws for it, and [createTitleSVG] writes it as it is, escaped. *)
Theorem title_accepted identifyRoomName pagesToProcess g renderPath :
  let roomDetections := map (detectionFor identifyRoomName) pagesToProcess in
  g ∈ groupPages pagesToProcess roomDetections ->
  truthy (Some renderPath) = true ->
  checkTitle (Some renderPath) (Some (titleText roomDetections g)) = None
  /\ safeText (titleText roomDetections g)
     = escapeXML (titleText roomDetections g).
Proof.
  intros roomDetections Hg Hpath.
  destruct (titleText_not_blank pagesToProcess roomDetections g) as [Hne Htrim];
    [apply detectionFor_normalized|done|].
  unfold checkTitle, safeText. rewrite Hpath. cbn [negb fmap option_fmap option_map].
  rewrite Htrim. split; [|done].
  by destruct (titleText roomDetections g).
Qed.

(** ** server.js: the request as a whole *)

Section ServerFacts.

Variable resolve : Path -> Path.
Variable extname : Path -> jsstring.
Variable join : Path -> Path -> Path.
Variable basename : Path -> Path.
Variable existsSync : Path -> bool.
Variable readdir : Path -> Result (list Path).
Variable embedImages : list Path -> Result (list N).
Variable writeFile : Path -> list N -> Result unit.
Variable unlink : Path -> Result unit.
Variable pdfToPngs : Path -> Path -> Z -> Result (list Path).
Variable identifyRoomName : Path -> Result Heading.t.
Variable describePageAndGenerate :
  list Path -> RoomContext.t -> Result GenResult.t.
Variable addTitleToImage : Path -> jsstring -> Result unit.

Variable dirname : Path.
Variable parseInt : jsstring -> option Z.
Variable mkdir : Path -> Result unit.
Variable readFile : Path -> Result (list N).
Variable rm : Path -> Result unit.
Variable setHeaders : jsstring -> Result unit.

(** The order in which the awaited calls of the workers settle. *)
Variable schedule : list nat.

Abbreviation pdfGenerate' :=
  (pdfGenerate resolve extname join basename existsSync readdir embedImages
     writeFile unlink pdfToPngs identifyRoomName describePageAndGenerate
     addTitleToImage).
Abbreviation outputMerge' :=
  (mergeCall resolve extname join basename existsSync readdir embedImages
     writeFile).
Abbreviation handle :=
  (processRequest join dirname parseInt mkdir unlink existsSync readFile rm
     setHeaders (fun pdf options => (pdfGenerate' (Some pdf) options schedule).1)).
Abbreviation optionsFor query requestId :=
  (optionsOf join parseInt query (tempDirOf join dirname requestId)).
Abbreviation failed requestId message :=
  (ServerError (str "Failed to process PDF") message requestId).

(** A report has a merged document only when merging is on, the pool
    has run and [outputMerge] has resolved. *)
Lemma report_merged pdfPath options report :
  (pdfGenerate' pdfPath options schedule).1 = Resolves report ->
  truthy (Report.mergedPdfPath report) = true ->
  Options.mergeOutput options = true
  /\ is_Some (Report.groups report)
  /\ exists mergeResult,
       outputMerge' options = Ok mergeResult
       /\ Report.mergedPdfPath report
          = Some (MergeResult.outputPath mergeResult).
Proof.
  unfold pdfGenerate.
  destruct (negb (truthy pdfPath)); [done|].
  destruct (pdfToPngs _ _ _) as [pageImages|e0]; [|done].
  destruct (Z.of_nat (length pageImages) <=? skipPagesOf options)%Z.
  { cbn [fst]. by intros [= <-]. }
  destruct (decide _) as [|Hne].
  { cbn [fst]. by intros [= <-]. }
  destruct (detectRooms _ _ _ _ _) as [[dets|e1] ev]; [|done].
  destruct (settlement _); [done| |done].
  cbn [fst]. intros [= <-]. cbn [Report.mergedPdfPath Report.groups].
  unfold mergeStep. destruct (Options.mergeOutput options); [|done].
  destruct (outputMerge' options) as [mergeResult|error]; [|done].
  cbn [fst]. intros _. split; [done|]. split; [by eexists|].
  by exists mergeResult.
Qed.

(** A document is sent only for an uploaded file for which
    [pdfGenerate] resolved with a merged document that exists and can be
    read: merging was not switched off by [merge=false], at least one
    page was processed and [outputMerge] resolved. The bytes sent are
    those read from the merged document, and the file name is the
    [filename] parameter or [processed-<requestId>.pdf]. *)
Theorem pdf_sent_only_after_merge file query requestId pdfBuffer name events :
  handle file query requestId = (Some (SendPdf pdfBuffer name), events) ->
  exists uploaded report mergeResult,
    file = Some uploaded
    /\ (pdfGenerate' (Some uploaded) (optionsFor query requestId) schedule).1
       = Resolves report
    /\ Query.merge query <> Some (str "false")
    /\ is_Some (Report.groups report)
    /\ outputMerge' (optionsFor query requestId) = Ok mergeResult
    /\ Report.mergedPdfPath report = Some (MergeResult.outputPath mergeResult)
    /\ existsSync (MergeResult.outputPath mergeResult) = true
    /\ readFile (MergeResult.outputPath mergeResult) = Ok pdfBuffer
    /\ name = outputFilenameOf query requestId.
Proof.
  unfold processRequest, failRequest.
  destruct file as [uploaded|]; [|done].
  destruct (mkdir _); [|done].
  destruct (pdfGenerate' _ _ _).1 as [|report|error] eqn:Hgen; [done| |done].
  destruct (truthy (Report.mergedPdfPath report)) eqn:Htr; [|done].
  destruct (report_merged _ _ _ Hgen Htr) as (Hmerge & Hgroups & r & Hr & Hpath).
  rewrite Hpath. cbn [negb orb default from_option id].
  destruct (existsSync (MergeResult.outputPath r)) eqn:Hex;
    cbn [negb orb]; [|done].
  destruct (readFile _) as [buffer|e] eqn:Hread; [|done].
  destruct (setHeaders _); [|done].
  intros [= <- <- _]. exists uploaded, report, r.
  repeat split; try done.
  cbn [optionsOf Options.mergeOutput] in Hmerge.
  apply negb_true_iff, bool_decide_eq_false in Hmerge. done.
Qed.

(** A request whose run of [pdfGenerate] resolves without a merged
    document is answered with the status 500 and the message
    ["Failed to generate merged PDF"], although [pdfGenerate] itself did
    not fail. This is so for every request with [merge=false], for every
    request whose [skip] leaves no page to process, and whenever
    [outputMerge] throws. The uploaded file and the directory of the
    request are deleted. *)
Theorem request_without_merged_document uploaded query requestId report :
  mkdir (tempDirOf join dirname requestId) = Ok () ->
  (pdfGenerate' (Some uploaded) (optionsFor query requestId) schedule).1
  = Resolves report ->
  Query.merge query = Some (str "false")
  \/ Report.groups report = None
  \/ (exists error, outputMerge' (optionsFor query requestId) = Err error) ->
  truthy (Report.mergedPdfPath report) = false
  /\ (handle (Some uploaded) query requestId).1
     = Some (failed requestId (str "Failed to generate merged PDF"))
  /\ exists events,
       (handle (Some uploaded) query requestId).2
       = events ++ [UnlinkUpload uploaded;
                    RemoveTemp (tempDirOf join dirname requestId)].
Proof.
  intros Hmk Hgen Hwhy.
  assert (truthy (Report.mergedPdfPath report) = false) as Hfalsy.
  { destruct (truthy (Report.mergedPdfPath report)) eqn:Htr; [|done].
    destruct (report_merged _ _ _ Hgen Htr) as (Hmerge & Hgroups & r & Hr & _).
    destruct Hwhy as [Hq|[Hg|[e He]]].
    - cbn [optionsOf Options.mergeOutput] in Hmerge.
      apply negb_true_iff, bool_decide_eq_false in Hmerge. done.
    - rewrite Hg in Hgroups. by destruct Hgroups.
    - congruence. }
  split; [done|].
  unfold processRequest, failRequest. rewrite Hmk, Hgen, Hfalsy. cbn [negb orb fst snd].
  split; [done|]. by eexists.
Qed.



End ServerFacts.

(** ** pdfToPng.js: the names of the page files *)

Section PageFiles.

Import PdfToPng.

Lemma numberToString_step n :
  numberToString n
  = if decide (n < 10) then [digit n]
    else numberToString (n / 10) ++ [digit (n mod 10)].
Proof.
  rewrite numberToString_equation_1.
  destruct (decide (n < 10)); [reflexivity|].
  apply numberToString_clause_1_equation_2.
Qed.

Abbreviation isDigitUnit := (fun c : N => (48 <= c <= 57)%N).

Lemma valueOf_from acc digits :
  foldl (fun acc c => 10 * acc + (N.to_nat c - 48)) acc digits
  = acc * 10 ^ length digits + valueOf digits.
Proof.
  unfold valueOf. revert acc. induction digits as [|c r IH]; intros acc.
  - simpl. lia.
  - cbn [foldl length]. rewrite IH, (IH (10 * 0 + _)), Nat.pow_succ_r'. nia.
Qed.

Lemma valueOf_cons c digits :
  valueOf (c :: digits) = (N.to_nat c - 48) * 10 ^ length digits + valueOf digits.
Proof. unfold valueOf at 1. simpl. by rewrite valueOf_from. Qed.

Lemma valueOf_snoc digits c :
  valueOf (digits ++ [c]) = 10 * valueOf digits + (N.to_nat c - 48).
Proof. unfold valueOf. by rewrite foldl_app. Qed.

Lemma valueOf_bound digits :
  Forall isDigitUnit digits -> valueOf digits < 10 ^ length digits.
Proof.
  induction 1 as [|c r Hc _ IH]; [unfold valueOf; simpl; lia|].
  rewrite valueOf_cons. simpl length. rewrite Nat.pow_succ_r'.
  cbv beta in Hc. assert (N.to_nat c - 48 <= 9) by lia. nia.
Qed.

Lemma digit_unit d : d < 10 -> isDigitUnit (digit d) /\ N.to_nat (digit d) - 48 = d.
Proof. unfold digit. lia. Qed.

Lemma numberToString_spec n :
  Forall isDigitUnit (numberToString n)
  /\ valueOf (numberToString n) = n
  /\ 0 < length (numberToString n).
Proof.
  induction n as [n IH] using lt_wf_ind. rewrite numberToString_step.
  destruct (decide (n < 10)) as [Hn|Hn].
  - destruct (digit_unit n Hn) as [Hd Hv]. split; [by constructor|].
    split; [|simpl; lia]. unfold valueOf. cbn [foldl]. rewrite Hv. lia.
  - destruct (IH (n / 10)) as (Hall & Hval & Hlen).
    { apply Nat.div_lt; lia. }
    destruct (digit_unit (n mod 10)) as [Hd Hv].
    { apply Nat.mod_upper_bound. lia. }
    split; [apply Forall_app; split; [done|by constructor]|].
    split; [|rewrite length_app; simpl; lia].
    rewrite valueOf_snoc, Hval, Hv. pose proof (Nat.div_mod_eq n 10). lia.
Qed.

Lemma numberToString_length n k :
  0 < k -> n < 10 ^ k -> length (numberToString n) <= k.
Proof.
  revert k. induction n as [n IH] using lt_wf_ind. intros k Hk Hn.
  rewrite numberToString_step.
  destruct (decide (n < 10)) as [Hsmall|Hbig]; [simpl; lia|].
  rewrite length_app. cbn [length].
  destruct k as [|[|k]]; [lia|simpl in Hn; lia|].
  assert (length (numberToString (n / 10)) <= S k); [|lia].
  apply IH; [apply Nat.div_lt; lia|lia|].
  rewrite Nat.pow_succ_r' in Hn. apply Nat.Div0.div_lt_upper_bound. lia.
Qed.

Lemma numberToString_mono a b :
  a <= b -> length (numberToString a) <= length (numberToString b).
Proof.
  intros Hab. destruct (numberToString_spec b) as (Hall & Hval & Hlen).
  apply numberToString_length; [done|].
  pose proof (valueOf_bound _ Hall). lia.
Qed.

(** Strings of digits of one length are ordered as their numbers. *)
Lemma digits_order x y :
  Forall isDigitUnit x -> Forall isDigitUnit y -> length x = length y ->
  valueOf x < valueOf y -> unitsLe y x = false.
Proof.
  intros Hx. revert y. induction Hx as [|c r Hc Hr IH]; intros y Hy Hlen Hlt.
  - destruct y; [unfold valueOf in Hlt; simpl in Hlt; lia|done].
  - destruct Hy as [|c' r' Hc' Hr']; [done|]. simpl in Hlen.
    injection Hlen as Hlen. rewrite !valueOf_cons, <- Hlen in Hlt.
    pose proof (valueOf_bound _ Hr) as Hb.
    pose proof (valueOf_bound _ Hr') as Hb'. rewrite <- Hlen in Hb'.
    simpl. destruct (N.ltb_spec c' c) as [Hlt'|Hge]; simpl.
    + exfalso. assert (N.to_nat c' - 48 + 1 <= N.to_nat c - 48) by lia. nia.
    + destruct (N.eqb_spec c' c) as [->|Hne]; simpl; [|done].
      apply IH; [done|done|]. lia.
Qed.

Lemma unitsLe_prefix p a b : unitsLe (p ++ a) (p ++ b) = unitsLe a b.
Proof.
  induction p as [|c p IH]; [done|]. simpl.
  by rewrite N.ltb_irrefl, N.eqb_refl, IH.
Qed.

Lemma unitsLe_decided x y s s' :
  length x = length y -> unitsLe y x = false ->
  unitsLe (x ++ s) (y ++ s') = true /\ unitsLe (y ++ s') (x ++ s) = false.
Proof.
  revert y. induction x as [|c x IH]; intros [|c' y] Hlen Hyx; try done.
  simpl in *. injection Hlen as Hlen.
  apply orb_false_iff in Hyx as [Hlt Heq]. apply N.ltb_ge in Hlt.
  rewrite (proj2 (N.ltb_ge _ _) Hlt). simpl.
  destruct (N.eqb_spec c' c) as [->|Hne].
  - simpl in Heq. destruct (IH y Hlen Heq) as [H1 H2].
    by rewrite N.ltb_irrefl, N.eqb_refl, H1, H2.
  - assert ((c <? c')%N = true) as -> by (apply N.ltb_lt; lia). done.
Qed.

Lemma padStart_spec width m :
  length (numberToString m) <= width ->
  length (padStart width (numberToString m)) = width
  /\ Forall isDigitUnit (padStart width (numberToString m))
  /\ valueOf (padStart width (numberToString m)) = m.
Proof.
  intros Hlen. destruct (numberToString_spec m) as (Hall & Hval & _).
  unfold padStart. rewrite length_app, length_replicate.
  split; [lia|]. split.
  - apply Forall_app. split; [|done]. apply Forall_replicate. lia.
  - generalize (width - length (numberToString m)). intros j.
    induction j as [|j IH]; [done|]. simpl. rewrite valueOf_cons. lia.
Qed.

(** With [padPages] on and no negative skip, the names of the page
    files have one length and are ordered, as strings, as their pages:
    the file of an earlier page comes first in a listing sorted by
    name, as [sort()] without a comparator sorts it. *)
Theorem padded_names_in_page_order naming totalPages a b :
  padPages naming = true -> (0 <= skipPages naming)%Z ->
  startPageOf naming <= a -> a < b -> b <= totalPages ->
  length (fileName naming totalPages a) = length (fileName naming totalPages b)
  /\ unitsLe (fileName naming totalPages a) (fileName naming totalPages b) = true
  /\ unitsLe (fileName naming totalPages b) (fileName naming totalPages a) = false.
Proof.
  intros Hpad Hskip Ha Hab Hb. unfold fileName. rewrite Hpad.
  unfold startPageOf in Ha.
  set (ma := Z.to_nat (Z.of_nat a - skipPages naming)).
  set (mb := Z.to_nat (Z.of_nat b - skipPages naming)).
  set (width := length (numberToString totalPages)).
  assert (ma < mb /\ mb <= totalPages) as [Hm Hmb] by lia.
  destruct (padStart_spec width ma) as (Hla & Hda & Hva).
  { apply numberToString_mono. lia. }
  destruct (padStart_spec width mb) as (Hlb & Hdb & Hvb).
  { by apply numberToString_mono. }
  split; [rewrite !length_app; lia|].
  rewrite !unitsLe_prefix.
  apply unitsLe_decided; [lia|].
  apply digits_order; [done|done|lia|lia].
Qed.

Section RenderFacts.

Variable resolveIn : Path -> jsstring -> Path.
Variable mkdir : Path -> Result unit.
Variable loadDocument : Path -> Result nat.
Variable renderPage : nat -> Path -> Result unit.



End RenderFacts.

End PageFiles.

(** ** The command line of PDFGenerate.js *)

Section CommandLineFacts.

Variable toNumber : option jsstring -> JsNumber.

Abbreviation parse := (parseArg toNumber).
Abbreviation noEquals := (fun s : list N => 61%N ∉ s).

Lemma splitEquals_piece cur v :
  noEquals v -> splitEqualsFrom cur v = [cur ++ v].
Proof.
  revert cur. induction v as [|c r IH]; intros cur Hv; simpl.
  - by rewrite app_nil_r.
  - apply not_elem_of_cons in Hv as [Hc Hr].
    destruct (N.eqb_spec c 61) as [->|_]; [done|].
    rewrite IH by done. by rewrite <- app_assoc.
Qed.

Lemma splitEquals_cut cur v w :
  noEquals v ->
  splitEqualsFrom cur (v ++ 61%N :: w) = (cur ++ v) :: splitEqualsFrom [] w.
Proof.
  revert cur. induction v as [|c r IH]; intros cur Hv; simpl.
  - by rewrite app_nil_r.
  - apply not_elem_of_cons in Hv as [Hc Hr].
    destruct (N.eqb_spec c 61) as [->|_]; [done|].
    rewrite IH by done. by rewrite <- app_assoc.
Qed.

(** The flag and the value of an argument written [--flag=value], and
    of one with more after a second [=]. *)
Lemma flag_and_value flag v :
  noEquals flag -> noEquals v ->
  let arg := str "--" ++ flag ++ str "=" ++ v in
  take 2 arg = str "--" /\ flagOf arg = flag /\ flagValue arg = Some v.
Proof.
  intros Hf Hv arg. unfold flagOf, flagValue. subst arg.
  change (drop 2 (str "--" ++ flag ++ str "=" ++ v)) with (flag ++ 61%N :: v).
  rewrite splitEquals_cut, splitEquals_piece by done. done.
Qed.

Lemma flag_and_value_cut flag v w :
  noEquals flag -> noEquals v ->
  let arg := str "--" ++ flag ++ str "=" ++ v ++ str "=" ++ w in
  take 2 arg = str "--" /\ flagOf arg = flag /\ flagValue arg = Some v.
Proof.
  intros Hf Hv arg. unfold flagOf, flagValue. subst arg.
  change (drop 2 (str "--" ++ flag ++ str "=" ++ v ++ str "=" ++ w))
    with (flag ++ 61%N :: v ++ 61%N :: w).
  rewrite !splitEquals_cut by done. done.
Qed.

Lemma parseArg_by_flag cliOptions arg arg' :
  take 2 arg = take 2 arg' -> flagOf arg = flagOf arg' ->
  flagValue arg = flagValue arg' ->
  parse cliOptions arg = parse cliOptions arg'.
Proof. unfold parseArg. by intros -> -> ->. Qed.

(** The value of a flag ends at the second [=] of the argument: what
    follows it is dropped, as the destructuring takes the first two
    pieces of the split. A path with an [=] in it cannot be given. *)
Theorem cli_value_ends_at_equals cliOptions flag v w :
  noEquals flag -> noEquals v ->
  parse cliOptions (str "--" ++ flag ++ str "=" ++ v ++ str "=" ++ w)
  = parse cliOptions (str "--" ++ flag ++ str "=" ++ v).
Proof.
  intros Hf Hv.
  destruct (flag_and_value flag v Hf Hv) as (H1 & H2 & H3).
  destruct (flag_and_value_cut flag v w Hf Hv) as (H1' & H2' & H3').
  apply parseArg_by_flag; congruence.
Qed.

Lemma parseArg_other cliOptions arg :
  take 2 arg <> str "--" \/ flagOf arg ∉ knownFlags ->
  parse cliOptions arg = cliOptions.
Proof.
  unfold parseArg. intros [Hdash|Hflag].
  - by rewrite (bool_decide_eq_false_2 _ Hdash).
  - destruct (bool_decide (take 2 arg = str "--")); [|done]. cbn [negb].
    unfold knownFlags in Hflag. rewrite !not_elem_of_cons in Hflag.
    destruct Hflag as (H1 & H2 & H3 & H4 & H5 & H6 & H7 & H8 & H9 & H10
                       & H11 & H12 & _).
    by rewrite !bool_decide_eq_false_2 by done.
Qed.

(** An argument that does not start with [--], or whose flag is not one
    of the twelve known ones, changes nothing, wherever it stands among
    the arguments. *)
Theorem cli_ignores_other_arguments before arg after :
  take 2 arg <> str "--" \/ flagOf arg ∉ knownFlags ->
  parseArgs toNumber (before ++ arg :: after)
  = parseArgs toNumber (before ++ after).
Proof.
  intros Hother. unfold parseArgs. rewrite !foldl_app. simpl.
  by rewrite parseArg_other.
Qed.

Lemma parseArg_sticky cliOptions arg :
  (CliOptions.continueOnError cliOptions = true ->
   CliOptions.continueOnError (parse cliOptions arg) = true)
  /\ (CliOptions.mergeOutput cliOptions = false ->
      CliOptions.mergeOutput (parse cliOptions arg) = false).
Proof.
  unfold parseArg. split; intros H; repeat case_match; done.
Qed.

Lemma parseArgs_sticky args cliOptions :
  (CliOptions.continueOnError cliOptions = true ->
   CliOptions.continueOnError (foldl parse cliOptions args) = true)
  /\ (CliOptions.mergeOutput cliOptions = false ->
      CliOptions.mergeOutput (foldl parse cliOptions args) = false).
Proof.
  revert cliOptions. induction args as [|arg rest IH]; intros cli; [done|].
  simpl. destruct (parseArg_sticky cli arg) as [H1 H2].
  destruct (IH (parse cli arg)) as [H3 H4]. split; auto.
Qed.

(** [--continue] and [--no-merge] are switches: they take effect
    whatever value is written after them, [--continue=false] included,
    and no later argument switches them back. *)
Theorem cli_switches_are_sticky before arg after :
  take 2 arg = str "--" ->
  (flagOf arg = str "continue" ->
   Options.continueOnError
     (optionsOfCli (parseArgs toNumber (before ++ arg :: after))) = true)
  /\ (flagOf arg = str "no-merge" ->
      Options.mergeOutput
        (optionsOfCli (parseArgs toNumber (before ++ arg :: after))) = false).
Proof.
  intros Hdash. unfold parseArgs. rewrite !foldl_app. simpl.
  split; intros Hflag; apply parseArgs_sticky;
    unfold parseArg; rewrite Hdash, Hflag; done.
Qed.

Lemma parse_skip cliOptions arg :
  take 2 arg = str "--" -> flagOf arg = str "skip" ->
  parse cliOptions arg
  = match toNumber (flagValue arg) with
    | NaN => cliOptions
    | n => CliOptions.setSkipPages (Some n) cliOptions
    end.
Proof.
  unfold parseArg. intros -> ->. by destruct (toNumber (flagValue arg)).
Qed.

Lemma parse_skip_conversion cliOptions arg :
  take 2 arg = str "--" -> flagOf arg = str "skip-conversion" ->
  parse cliOptions arg
  = if notNegative (toNumber (flagValue arg))
    then CliOptions.setSkipConversionPages (Some (toNumber (flagValue arg)))
           cliOptions
    else cliOptions.
Proof. unfold parseArg. intros -> ->. reflexivity. Qed.

Lemma parse_concurrency cliOptions arg :
  take 2 arg = str "--" -> flagOf arg = str "concurrency" ->
  parse cliOptions arg
  = if isPositive (toNumber (flagValue arg))
    then CliOptions.setConcurrency (Some (toNumber (flagValue arg))) cliOptions
    else cliOptions.
Proof. unfold parseArg. intros -> ->. reflexivity. Qed.

Lemma literal_no_equals (flag : list N) :
  bool_decide (61%N ∉ flag) = true -> noEquals flag.
Proof. apply bool_decide_eq_true_1. Qed.

(** What [pdfGenerate] makes of a number given on the command line.
    [--skip] takes any integer, negative ones included; a number that is
    not an integer passes the test of the command line, replaces what
    was given before and then counts as the default in [pdfGenerate]: no
    page skipped, four pages left out of the conversion, two workers.
    A value that is not a number, and a negative or zero number where a
    positive one is asked for, leave the option as it was. *)
Theorem cli_numbers cliOptions v :
  noEquals v ->
  let n := toNumber (Some v) in
  let old := optionsOfCli cliOptions in
  skipPagesOf (optionsOfCli (parse cliOptions (str "--skip=" ++ v)))
  = match n with
    | Integer z => z
    | NonInteger _ => 0%Z
    | NaN => skipPagesOf old
    end
  /\ skipConversionPagesOf
       (optionsOfCli (parse cliOptions (str "--skip-conversion=" ++ v)))
     = match n with
       | Integer z => if (0 <=? z)%Z then z else skipConversionPagesOf old
       | NonInteger true => 4%Z
       | _ => skipConversionPagesOf old
       end
  /\ concurrencyOf (optionsOfCli (parse cliOptions (str "--concurrency=" ++ v)))
     = match n with
       | Integer z => if (0 <? z)%Z then Z.to_nat z else concurrencyOf old
       | NonInteger true => 2
       | _ => concurrencyOf old
       end.
Proof.
  intros Hv n old.
  destruct (flag_and_value (str "skip") v) as (Hd1 & Hf1 & Hv1);
    [by apply literal_no_equals|done|].
  destruct (flag_and_value (str "skip-conversion") v) as (Hd2 & Hf2 & Hv2);
    [by apply literal_no_equals|done|].
  destruct (flag_and_value (str "concurrency") v) as (Hd3 & Hf3 & Hv3);
    [by apply literal_no_equals|done|].
  change (str "--" ++ str "skip" ++ str "=" ++ v)
    with (str "--skip=" ++ v) in *.
  change (str "--" ++ str "skip-conversion" ++ str "=" ++ v)
    with (str "--skip-conversion=" ++ v) in *.
  change (str "--" ++ str "concurrency" ++ str "=" ++ v)
    with (str "--concurrency=" ++ v) in *.
  rewrite (parse_skip _ _ Hd1 Hf1), (parse_skip_conversion _ _ Hd2 Hf2),
    (parse_concurrency _ _ Hd3 Hf3), Hv1, Hv2, Hv3.
  fold n. subst old. split; [|split].
  - by destruct n.
  - destruct n as [|z|[|]]; simpl; try done. by destruct (0 <=? z)%Z.
  - destruct n as [|z|[|]]; simpl; try done.
    destruct (0 <? z)%Z eqn:Hz; [|done].
    unfold concurrencyOf. simpl. by rewrite Hz.
Qed.

End CommandLineFacts.

(** ** The further properties at work *)

Lemma group_fields_witness :
  groupPages Demo.pages Sample.kitchenDetections !! 0 = Some Sample.kitchenGroup
  /\ Group.groupId Sample.kitchenGroup = 1
  /\ normalizedAt Sample.kitchenDetections 2 = Some (str "kitchen").
Proof.
  assert (groupPages Demo.pages Sample.kitchenDetections !! 0
          = Some Sample.kitchenGroup) as Hk by (vm_compute; reflexivity).
  destruct (group_fields Demo.pages Sample.kitchenDetections 0
              Sample.kitchenGroup Hk) as (H1 & _ & _ & H4).
  split; [exact Hk|]. split; [exact H1|].
  exact (proj2 (H4 ltac:(simpl; lia)) 2 ltac:(vm_compute; repeat constructor)).
Defined.

Lemma strict_detection_failure_witness :
  pdfGenerate Demo.resolve Demo.extname Demo.join Demo.basename
    Demo.existsSync (Demo.readdir []) Demo.embedImages Demo.writeFile
    Demo.unlink Demo.pdfToPngs Sample.identifyFailing
    (Demo.describePageAndGenerate None) Demo.addTitleToImage
    (Some (str "plan.pdf")) (Demo.options false 2) []
  = (Rejects Sample.unreadable,
     [CallRender (str "plan.pdf") (str "pdf-pages") 4;
      CallIdentify (str "p0.png"); CallIdentify (str "p1.png");
      WarnIdentifyFailed (str "p1.png") Sample.unreadable]).
Proof.
  apply (strict_detection_failure Demo.resolve Demo.extname Demo.join
           Demo.basename Demo.existsSync (Demo.readdir []) Demo.embedImages
           Demo.writeFile Demo.unlink Demo.pdfToPngs Sample.identifyFailing
           (Demo.describePageAndGenerate None) Demo.addTitleToImage
           (Some (str "plan.pdf")) (Demo.options false 2) [] Demo.pages
           [str "p0.png"] (str "p1.png") [str "p2.png"] Sample.unreadable);
    try reflexivity.
  constructor; [|constructor]. eexists. reflexivity.
Defined.

Lemma sample_resolves :
  (pdfGenerate Demo.resolve Demo.extname Demo.join Demo.basename
     Demo.existsSync (Demo.readdir [str "p0.png-render.png"]) Demo.embedImages
     Demo.writeFile Demo.unlink Demo.pdfToPngs Demo.identifyRoomName
     (Demo.describePageAndGenerate None) Demo.addTitleToImage
     (Some (str "plan.pdf")) (Demo.options true 2) (roundRobin 2 4)).1
  = Resolves Sample.report.
Proof. vm_compute. reflexivity. Defined.

Lemma report_shape_witness :
  Report.pagesDir Sample.report = str "pdf-pages"
  /\ Report.outputDir Sample.report = str "generated"
  /\ length (Report.processedPages Sample.report) = 3.
Proof.
  destruct (report_shape Demo.resolve Demo.extname Demo.join Demo.basename
              Demo.existsSync (Demo.readdir [str "p0.png-render.png"])
              Demo.embedImages Demo.writeFile Demo.unlink Demo.pdfToPngs
              Demo.identifyRoomName (Demo.describePageAndGenerate None)
              Demo.addTitleToImage (Some (str "plan.pdf")) (Demo.options true 2)
              (roundRobin 2 4) Sample.report sample_resolves)
    as (_ & H2 & H3 & H4).
  split; [exact H2|]. split; [exact H3|].
  exact (proj1 (proj2 (proj2 (proj2 (proj2 H4))))).
Defined.

Lemma processed_pages_are_a_tail_witness :
  map Detection.pageImage Demo.detections `suffix_of` Demo.pages
  /\ Z.of_nat (length Demo.detections) = 3%Z.
Proof.
  destruct (processed_pages_are_a_tail Demo.resolve Demo.extname Demo.join
              Demo.basename Demo.existsSync
              (Demo.readdir [str "p0.png-render.png"]) Demo.embedImages
              Demo.writeFile Demo.unlink Demo.pdfToPngs Demo.identifyRoomName
              (Demo.describePageAndGenerate None) Demo.addTitleToImage
              (Some (str "plan.pdf")) (Demo.options true 2) (roundRobin 2 4)
              Sample.report Demo.detections sample_resolves eq_refl)
    as (H1 & _ & H3).
  split; [exact H1|exact H3].
Defined.

Lemma empty_slice_report_witness :
  let report :=
    {| Report.pagesDir := str "pdf-pages";
       Report.outputDir := str "generated";
       Report.pageImages := [];
       Report.processedPages := [];
       Report.skipPages := Some (-1)%Z;
       Report.concurrency := Some 0;
       Report.groups := None;
       Report.roomDetections := None;
       Report.mergedPdfPath := None |} in
  (pdfGenerate Demo.resolve Demo.extname Demo.join Demo.basename
     Demo.existsSync (Demo.readdir []) Demo.embedImages Demo.writeFile
     Demo.unlink Sample.noPages Demo.identifyRoomName
     (Demo.describePageAndGenerate None) Demo.addTitleToImage
     (Some (str "plan.pdf")) Sample.skipFromEnd []).1 = Resolves report
  /\ Report.pageImages report = []
  /\ (skipPagesOf Sample.skipFromEnd < 0)%Z.
Proof.
  intros report.
  assert ((pdfGenerate Demo.resolve Demo.extname Demo.join Demo.basename
             Demo.existsSync (Demo.readdir []) Demo.embedImages Demo.writeFile
             Demo.unlink Sample.noPages Demo.identifyRoomName
             (Demo.describePageAndGenerate None) Demo.addTitleToImage
             (Some (str "plan.pdf")) Sample.skipFromEnd []).1
          = Resolves report) as Hres by (vm_compute; reflexivity).
  destruct (empty_slice_report Demo.resolve Demo.extname Demo.join
              Demo.basename Demo.existsSync (Demo.readdir []) Demo.embedImages
              Demo.writeFile Demo.unlink Sample.noPages Demo.identifyRoomName
              (Demo.describePageAndGenerate None) Demo.addTitleToImage
              (Some (str "plan.pdf")) Sample.skipFromEnd [] report Hres eq_refl)
    as (H1 & H2 & _).
  split; [exact Hres|]. split; [exact H1|exact H2].
Defined.

Lemma deletes_only_intermediate_images_witness :
  exists report mergeResult,
    (Demo.generate None [str "p0.png-render.png"] (Demo.options true 2)
       (roundRobin 2 4)).1 = Resolves report
    /\ mergeCall Demo.resolve Demo.extname Demo.join Demo.basename
         Demo.existsSync (Demo.readdir [str "p0.png-render.png"])
         Demo.embedImages Demo.writeFile (Demo.options true 2)
       = Ok mergeResult
    /\ Options.mergeOutput (Demo.options true 2) = true
    /\ Report.mergedPdfPath report = Some (MergeResult.outputPath mergeResult).
Proof.
  refine (proj1 (deletes_only_intermediate_images Demo.resolve Demo.extname
                   Demo.join Demo.basename Demo.existsSync
                   (Demo.readdir [str "p0.png-render.png"]) Demo.embedImages
                   Demo.writeFile Demo.unlink Demo.pdfToPngs
                   Demo.identifyRoomName (Demo.describePageAndGenerate None)
                   Demo.addTitleToImage (Some (str "plan.pdf"))
                   (Demo.options true 2) (roundRobin 2 4)
                   (str "generated/p0.png-render.png") _)).
  vm_compute. apply list_elem_of_here.
Defined.

Lemma merge_result_witness :
  let result :=
    {| MergeResult.outputPath := str "merged-output.pdf";
       MergeResult.imageCount := 2;
       MergeResult.imageFiles := [str "generated/a.jpg"; str "generated/b.png"] |} in
  outputMerge Demo.resolve Demo.extname Demo.join Demo.basename Demo.existsSync
    (Demo.readdir [str "b.png"; str "notes.txt"; str "a.jpg"])
    Demo.embedImages Demo.writeFile None None = Ok result
  /\ Demo.existsSync (str "generated") = true.
Proof.
  intros result.
  assert (outputMerge Demo.resolve Demo.extname Demo.join Demo.basename
            Demo.existsSync
            (Demo.readdir [str "b.png"; str "notes.txt"; str "a.jpg"])
            Demo.embedImages Demo.writeFile None None = Ok result) as Hres
    by (vm_compute; reflexivity).
  split; [exact Hres|].
  exact (proj1 (merge_result Demo.resolve Demo.extname Demo.join Demo.basename
                  Demo.existsSync
                  (Demo.readdir [str "b.png"; str "notes.txt"; str "a.jpg"])
                  Demo.embedImages Demo.writeFile None None result Hres)).
Defined.

Lemma summary_counts_witness :
  successCount (Report.processedPages Sample.report)
  + errorCount (Report.processedPages Sample.report)
  = length (Report.processedPages Sample.report).
Proof.
  exact (proj1 (summary_counts Demo.resolve Demo.extname Demo.join
                  Demo.basename Demo.existsSync
                  (Demo.readdir [str "p0.png-render.png"]) Demo.embedImages
                  Demo.writeFile Demo.unlink Demo.pdfToPngs
                  Demo.identifyRoomName (Demo.describePageAndGenerate None)
                  Demo.addTitleToImage (Some (str "plan.pdf"))
                  (Demo.options true 2) (roundRobin 2 4) Sample.report
                  sample_resolves)).
Defined.

Lemma report_entries_witness :
  exists g,
    groupPages Demo.pages Demo.detections !! 1 = Some g
    /\ Group.pageIndices g !! 0 = Some 1
    /\ Report.processedPages Sample.report !! 1
       = Some (Some (entryOf Demo.pages Demo.detections
                       (Demo.describePageAndGenerate None)
                       Demo.addTitleToImage g 0 1)).
Proof.
  destruct (groupPages Demo.pages Demo.detections !! 1) as [g|] eqn:Hg;
    [|vm_compute in Hg; discriminate].
  assert (Group.pageIndices g !! 0 = Some 1) as Hk
    by (vm_compute in Hg; injection Hg as <-; reflexivity).
  exists g. split; [reflexivity|]. split; [exact Hk|].
  exact (proj1 (report_entries Demo.resolve Demo.extname Demo.join
                  Demo.basename Demo.existsSync
                  (Demo.readdir [str "p0.png-render.png"]) Demo.embedImages
                  Demo.writeFile Demo.unlink Demo.pdfToPngs
                  Demo.identifyRoomName (Demo.describePageAndGenerate None)
                  Demo.addTitleToImage (Some (str "plan.pdf"))
                  (Demo.options true 2) (roundRobin 2 4) Sample.report
                  sample_resolves)
           Demo.detections (groupPages Demo.pages Demo.detections) 1 g 0 1
           eq_refl eq_refl Hg Hk).
Defined.

Lemma continue_never_rejects_witness :
  (pdfGenerate Demo.resolve Demo.extname Demo.join Demo.basename
     Demo.existsSync (Demo.readdir []) Demo.embedImages Demo.writeFile
     Demo.unlink Demo.pdfToPngs Demo.identifyRoomName
     (Demo.describePageAndGenerate (Some (str "p1.png")))
     Demo.addTitleToImage (Some (str "plan.pdf")) (Demo.options true 2)
     (roundRobin 2 4)).1
  <> Rejects Sample.unreadable.
Proof.
  exact (proj1 (continue_never_rejects Demo.resolve Demo.extname Demo.join
                  Demo.basename Demo.existsSync (Demo.readdir [])
                  Demo.embedImages Demo.writeFile Demo.unlink Demo.pdfToPngs
                  Demo.identifyRoomName
                  (Demo.describePageAndGenerate (Some (str "p1.png")))
                  Demo.addTitleToImage (Some (str "plan.pdf"))
                  (Demo.options true 2) Demo.pages eq_refl eq_refl eq_refl)
           (roundRobin 2 4) Sample.unreadable).
Defined.

Lemma heading_key_witness :
  Detection.normalized (detectionOf (str "p0.png") Sample.kitchen)
  = Some (str "kitchen").
Proof.
  exact (proj1 (proj1 (heading_key (str "p0.png")
                         (Some (Line.mk (Some (str " KITCHEN 1 ")) (Some 90%N)))
                         None None (str "KITCHEN 1") eq_refl)
                  ltac:(vm_compute; discriminate))).
Defined.

Lemma title_accepted_witness :
  checkTitle (Some (str "render.png"))
    (Some (titleText Sample.kitchenDetections Sample.kitchenGroup)) = None.
Proof.
  refine (proj1 (title_accepted Sample.identifyKitchen Demo.pages
                   Sample.kitchenGroup (str "render.png") _ eq_refl)).
  vm_compute. apply list_elem_of_here.
Defined.

Lemma pdf_sent_only_after_merge_witness :
  exists events,
    Sample.handle (Some (str "up.pdf")) (Sample.query None) (str "r1")
    = (Some (SendPdf (str "%PDF") (str "processed-r1.pdf")), events)
    /\ Query.merge (Sample.query None) <> Some (str "false").
Proof.
  eexists. split; [vm_compute; reflexivity|].
  edestruct (pdf_sent_only_after_merge Demo.resolve Demo.extname Demo.join
               Demo.basename Demo.existsSync Sample.readdir Demo.embedImages
               Demo.writeFile Demo.unlink Demo.pdfToPngs Demo.identifyRoomName
               (Demo.describePageAndGenerate None) Demo.addTitleToImage
               (str "/srv") Sample.parseInt Sample.mkdir Sample.readFile
               Sample.rm Sample.setHeaders Sample.schedule
               (Some (str "up.pdf")) (Sample.query None) (str "r1"))
    as (uploaded & report & mergeResult & _ & _ & Hmerge & _);
    [vm_compute; reflexivity|exact Hmerge].
Defined.

Lemma request_without_merged_document_witness :
  (Sample.handle (Some (str "up.pdf")) (Sample.query (Some (str "false")))
     (str "r1")).1
  = Some (ServerError (str "Failed to process PDF")
            (str "Failed to generate merged PDF") (str "r1")).
Proof.
  edestruct (request_without_merged_document Demo.resolve Demo.extname
               Demo.join Demo.basename Demo.existsSync Sample.readdir
               Demo.embedImages Demo.writeFile Demo.unlink Demo.pdfToPngs
               Demo.identifyRoomName (Demo.describePageAndGenerate None)
               Demo.addTitleToImage (str "/srv") Sample.parseInt Sample.mkdir
               Sample.readFile Sample.rm Sample.setHeaders Sample.schedule
               (str "up.pdf") (Sample.query (Some (str "false"))) (str "r1"))
    as (_ & Hresponse & _);
    [reflexivity|vm_compute; reflexivity|left; reflexivity|exact Hresponse].
Defined.


Lemma padded_names_in_page_order_witness :
  let naming := PdfToPng.mkNaming (str "page") true 0 in
  PdfToPng.fileName naming 12 2 = str "page-02.png"
  /\ PdfToPng.fileName naming 12 10 = str "page-10.png"
  /\ unitsLe (PdfToPng.fileName naming 12 2) (PdfToPng.fileName naming 12 10)
     = true
  /\ unitsLe (PdfToPng.fileName naming 12 10) (PdfToPng.fileName naming 12 2)
     = false.
Proof.
  intros naming.
  destruct (padded_names_in_page_order naming 12 2 10 eq_refl
              ltac:(simpl; lia) ltac:(vm_compute; lia) ltac:(lia) ltac:(lia))
    as (_ & H2 & H3).
  split; [vm_compute; reflexivity|]. split; [vm_compute; reflexivity|].
  split; [exact H2|exact H3].
Defined.


Lemma cli_value_ends_at_equals_witness :
  parseArg Sample.toNumber CliOptions.empty (str "--merged-output=a=b.pdf")
  = parseArg Sample.toNumber CliOptions.empty (str "--merged-output=a").
Proof.
  apply (cli_value_ends_at_equals Sample.toNumber CliOptions.empty
           (str "merged-output") (str "a") (str "b.pdf"));
    apply (bool_decide_unpack _); vm_compute; exact I.
Defined.

Lemma cli_ignores_other_arguments_witness :
  parseArgs Sample.toNumber
    [str "--continue"; str "second.pdf"; str "--concurrency=2"]
  = parseArgs Sample.toNumber [str "--continue"; str "--concurrency=2"].
Proof.
  apply (cli_ignores_other_arguments Sample.toNumber [str "--continue"]
           (str "second.pdf") [str "--concurrency=2"]).
  left. vm_compute. discriminate.
Defined.

Lemma cli_switches_are_sticky_witness :
  Options.continueOnError
    (optionsOfCli
       (parseArgs Sample.toNumber [str "--continue=false"; str "--skip=2"]))
  = true.
Proof.
  exact (proj1 (cli_switches_are_sticky Sample.toNumber []
                  (str "--continue=false") [str "--skip=2"] eq_refl) eq_refl).
Defined.

Lemma cli_numbers_witness :
  concurrencyOf
    (optionsOfCli
       (parseArg Sample.toNumber
          (parseArg Sample.toNumber CliOptions.empty (str "--concurrency=2"))
          (str "--concurrency=2.5")))
  = 2.
Proof.
  destruct (cli_numbers Sample.toNumber
              (parseArg Sample.toNumber CliOptions.empty (str "--concurrency=2"))
              (str "2.5"))
    as (_ & _ & H); [apply (bool_decide_unpack _); vm_compute; exact I|].
  exact H.
Defined.
